(** * wadaily-streamlined: CSV ingestion (src/functions/parseCSV.js)

    A shallow embedding of the CSV-to-document transformation and of the
    upsert drain, with the JavaScript primitives the code relies on written
    out: [String.prototype.split], [parseInt], the three regular expressions,
    [Date], [Array.prototype.sort], the lookup of a key on a plain object and
    the Mongoose calls [save], [findOneAndUpdate] and [findOne]; then the two
    upload endpoints (src/pages/api/upload) and what the drain writes to the
    standard output.

    Conventions of the model.
    - A JavaScript string is a Rocq [string]; every character stands for one
      UTF-16 code unit below 128.  Upper-casing, white space and line
      terminators are modelled on that range only.
    - A JavaScript number is [option Z]: [None] is [NaN].  The code only
      produces integers; they are kept exact (JavaScript rounds beyond 2^53).
    - A row of a parsed CSV file is a record with one string per column, as
      the [CSVDay] and [CSVEvent] typedefs of the source declare. *)

From stdpp Require Import gmap strings list.
From Stdlib Require Import ZArith Ascii String List Bool Lia Sorted Permutation.
Import ListNotations.

Local Open Scope string_scope.
Local Open Scope Z_scope.

(* stdpp seals string concatenation against [simpl]; the proofs below compute with it. *)
#[local] Arguments String.append !_ _ /.

(** ** JavaScript primitives *)

Module JS.

(** A number: [None] is [NaN]. *)
Definition Num : Type := option Z.

Definition num_add (a b : Num) : Num :=
  match a, b with Some x, Some y => Some (x + y) | _, _ => None end.

Definition num_sub (a b : Num) : Num :=
  match a, b with Some x, Some y => Some (x - y) | _, _ => None end.

(** [a % b]: the remainder takes the sign of the dividend; [x % 0] is [NaN]. *)
Definition num_rem (a b : Num) : Num :=
  match a, b with
  | Some x, Some y => if y =? 0 then None else Some (Z.rem x y)
  | _, _ => None
  end.

(** [a != b] on numbers: [NaN] differs from everything, itself included. *)
Definition num_neq (a b : Num) : bool :=
  match a, b with Some x, Some y => negb (x =? y) | _, _ => true end.

Definition code (c : ascii) : N := N_of_ascii c.

Definition is_digit (c : ascii) : bool := ((48 <=? code c) && (code c <=? 57))%N.
Definition is_upper (c : ascii) : bool := ((65 <=? code c) && (code c <=? 90))%N.
Definition is_lower (c : ascii) : bool := ((97 <=? code c) && (code c <=? 122))%N.

(** Line terminators, which [.] of a regular expression does not match. *)
Definition is_line_terminator (c : ascii) : bool :=
  ((code c =? 10) || (code c =? 13))%N.

(** White space that [parseInt] skips: TAB, LF, VT, FF, CR and SPACE. *)
Definition is_white_space (c : ascii) : bool :=
  (((9 <=? code c) && (code c <=? 13)) || (code c =? 32))%N.

Definition upper_char (c : ascii) : ascii :=
  if is_lower c then ascii_of_N (code c - 32) else c.

(** [s.toUpperCase()]. *)
Fixpoint toUpperCase (s : string) : string :=
  match s with
  | EmptyString => EmptyString
  | String c r => String (upper_char c) (toUpperCase r)
  end.

Fixpoint drop (n : nat) (s : string) : string :=
  match n, s with
  | O, _ => s
  | S n', String _ r => drop n' r
  | S _, EmptyString => EmptyString
  end.

(** [s.startsWith(p)]. *)
Fixpoint starts_with (p s : string) : bool :=
  match p, s with
  | EmptyString, _ => true
  | String a p', String b s' => Ascii.eqb a b && starts_with p' s'
  | String _ _, EmptyString => false
  end.

(** [s.includes(p)]. *)
Fixpoint includes (p s : string) : bool :=
  starts_with p s ||
  match s with
  | EmptyString => false
  | String _ r => includes p r
  end.

(** [s.replace(/p/, '')] for a pattern [p] of literal characters and no [g]
    flag: the leftmost occurrence of [p] is removed, the rest is kept. *)
Fixpoint remove_first (p s : string) : string :=
  if starts_with p s then drop (String.length p) s
  else match s with
       | EmptyString => EmptyString
       | String c r => String c (remove_first p r)
       end.

(** [s.split(sep)] for a separator of one character: never empty. *)
Fixpoint split (sep : ascii) (s : string) : list string :=
  match s with
  | EmptyString => [EmptyString]
  | String c r =>
      if Ascii.eqb c sep then EmptyString :: split sep r
      else match split sep r with
           | h :: t => String c h :: t
           | [] => [String c EmptyString]
           end
  end.

(** *** [parseInt(s)] without a radix argument *)

Definition digit_value (radix : Z) (c : ascii) : option Z :=
  let n := Z.of_N (code c) in
  let v := if is_digit c then Some (n - 48)
           else if is_lower c then Some (n - 87)
           else if is_upper c then Some (n - 55)
           else None in
  match v with
  | Some d => if d <? radix then Some d else None
  | None => None
  end.

(** The longest prefix of digits of the radix, read from the value [acc];
    [seen] tells whether a digit was read so far. *)
Fixpoint read_digits (radix : Z) (s : string) (seen : bool) (acc : Z) : Num :=
  match s with
  | EmptyString => if seen then Some acc else None
  | String c r =>
      match digit_value radix c with
      | Some d => read_digits radix r true (acc * radix + d)
      | None => if seen then Some acc else None
      end
  end.

Fixpoint skip_white_space (s : string) : string :=
  match s with
  | String c r => if is_white_space c then skip_white_space r else s
  | EmptyString => EmptyString
  end.

Definition parseInt (s : string) : Num :=
  let s1 := skip_white_space s in
  let '(neg, s2) :=
    match s1 with
    | String "-"%char r => (true, r)
    | String "+"%char r => (false, r)
    | _ => (false, s1)
    end in
  let '(radix, s3) :=
    if starts_with "0x" s2 || starts_with "0X" s2 then (16, drop 2 s2)
    else (10, s2) in
  match read_digits radix s3 false 0 with
  | Some v => Some (if neg then - v else v)
  | None => None
  end.

(** *** Numbers in a template literal *)

Definition digit_char (d : Z) : ascii := ascii_of_N (Z.to_N (48 + d)).

Fixpoint decimal_pos (fuel : nat) (n : Z) (acc : string) : string :=
  match fuel with
  | O => acc
  | S f =>
      let acc' := String (digit_char (n mod 10)) acc in
      if n <? 10 then acc' else decimal_pos f (n / 10) acc'
  end.

(** Decimal numeral of an integer; the fuel covers every digit. *)
Definition decimal (n : Z) : string :=
  let a := Z.abs n in
  let body := decimal_pos (S (Z.to_nat (Z.log2 a))) a EmptyString in
  if n <? 0 then String "-"%char body else body.

(** The string a template literal inserts for a number (integers below 1e21,
    which JavaScript prints without an exponent). *)
Definition NumberToString (n : Num) : string :=
  match n with
  | Some z => decimal z
  | None => "NaN"
  end.

(** *** The three regular expressions of the source *)

(** The characters of [s] before its first line terminator. *)
Fixpoint first_line (s : string) : string :=
  match s with
  | EmptyString => EmptyString
  | String c r => if is_line_terminator c then EmptyString else String c (first_line r)
  end.

(** The longest [m] with [s = m ++ c ++ _], when [c] occurs in [s]. *)
Fixpoint up_to_last (c : ascii) (s : string) : option string :=
  match s with
  | EmptyString => None
  | String a r =>
      match up_to_last c r with
      | Some m => Some (String a m)
      | None => if Ascii.eqb a c then Some EmptyString else None
      end
  end.

(** Capture 1 of the caption pattern of [parseAndUpdateDays] (an opening
    parenthesis, a greedy group of any characters but line terminators, a
    closing parenthesis): the match starts at the leftmost opening
    parenthesis that is followed on its line by a closing one, and the
    group runs to the last closing parenthesis of that line. *)
Fixpoint exec_paren (s : string) : option string :=
  match s with
  | EmptyString => None
  | String a r =>
      if Ascii.eqb a "("%char
      then match up_to_last ")"%char (first_line r) with
           | Some m => Some m
           | None => exec_paren r
           end
      else exec_paren r
  end.

Fixpoint take_digits (s : string) : string :=
  match s with
  | String c r => if is_digit c then String c (take_digits r) else EmptyString
  | EmptyString => EmptyString
  end.

(** [match[0]] of [/(\d+)/g.exec(s)] on a fresh regular expression: the
    leftmost digit and the digits that follow it. *)
Fixpoint exec_digits (s : string) : option string :=
  match s with
  | EmptyString => None
  | String c r => if is_digit c then Some (take_digits s) else exec_digits r
  end.

(** Capture 1 of [/Block ([A-Z])/.exec(s)]: the upper-case letter after the
    leftmost ["Block "] that is followed by one. *)
Fixpoint exec_block (s : string) : option string :=
  match s with
  | EmptyString => None
  | String _ r =>
      if starts_with "Block " s
      then match drop 6 s with
           | String l _ => if is_upper l then Some (String l EmptyString) else exec_block r
           | EmptyString => exec_block r
           end
      else exec_block r
  end.

End JS.

(** ** [Date], in local civil time

    [new Date(year, monthIndex, day)] and the getters the source calls.  A
    date is the number of its day counted from 1 January 1970 in local time
    (the source never reads hours), or invalid.  The day number follows
    ECMAScript's MakeDay; the time clip (8.64e15 ms around the epoch, that is
    100 000 000 days up to the local offset from UTC) makes the date invalid. *)

Module JSDate.

Inductive Date : Type :=
| InvalidDate
| DateDay (day : Z).

Definition InLeapYear (y : Z) : bool :=
  (y mod 4 =? 0) && (negb (y mod 100 =? 0) || (y mod 400 =? 0)).

Definition DayFromYear (y : Z) : Z :=
  365 * (y - 1970) + (y - 1969) / 4 - (y - 1901) / 100 + (y - 1601) / 400.

(** Days of the year before month [m] (0 is January; 12 gives the year's length). *)
Definition month_start (leap : bool) (m : Z) : Z :=
  let l := if leap then 1 else 0 in
  match m with
  | 0 => 0
  | 1 => 31
  | 2 => 59 + l
  | 3 => 90 + l
  | 4 => 120 + l
  | 5 => 151 + l
  | 6 => 181 + l
  | 7 => 212 + l
  | 8 => 243 + l
  | 9 => 273 + l
  | 10 => 304 + l
  | 11 => 334 + l
  | _ => 365 + l
  end.

Definition MakeDay (year month date : Z) : Z :=
  let ym := year + month / 12 in
  let mn := month mod 12 in
  DayFromYear ym + month_start (InLeapYear ym) mn + date - 1.

(** A year below 100 means 1900 + year, as the constructor has it. *)
Definition new_Date (year month date : JS.Num) : Date :=
  match year, month, date with
  | Some y, Some m, Some d =>
      let yr := if (0 <=? y) && (y <=? 99) then 1900 + y else y in
      let day := MakeDay yr m d in
      if Z.abs day <=? 100000000 then DateDay day else InvalidDate
  | _, _, _ => InvalidDate
  end.

Definition YearFromDay (day : Z) : Z :=
  let y0 := 1970 + (day * 400) / 146097 in
  if DayFromYear (y0 + 1) <=? day then y0 + 1
  else if day <? DayFromYear y0 then y0 - 1
  else y0.

(** The month (0 is January) holding day [d] of a year, days counted from 0. *)
Definition MonthOfYearDay (leap : bool) (d : Z) : Z :=
  let fix find (fuel : nat) (m : Z) : Z :=
    match fuel with
    | O => m
    | S f => if d <? month_start leap (m + 1) then m else find f (m + 1)
    end in
  find 11%nat 0.

(** Year, month (from 0) and day of the month of a day number. *)
Definition civil (day : Z) : Z * Z * Z :=
  let y := YearFromDay day in
  let leap := InLeapYear y in
  let d := day - DayFromYear y in
  let m := MonthOfYearDay leap d in
  (y, m, d - month_start leap m + 1).

Definition getFullYear (d : Date) : JS.Num :=
  match d with DateDay day => Some (fst (fst (civil day))) | InvalidDate => None end.

Definition getMonth (d : Date) : JS.Num :=
  match d with DateDay day => Some (snd (fst (civil day))) | InvalidDate => None end.

Definition getDate (d : Date) : JS.Num :=
  match d with DateDay day => Some (snd (civil day)) | InvalidDate => None end.

(** The length of month [m] (1 to 12) of year [y] in the calendar. *)
Definition days_in_month (y m : Z) : Z :=
  month_start (InLeapYear y) m - month_start (InLeapYear y) (m - 1).

End JSDate.

(** ** parseCSV.js: the rows and the pure helpers *)

(** typedef CSVDay *)
Record CSVDay : Type := {
  Event_Date : string;
  Event_Caption : string;
  Event_Description : string
}.

(** typedef CSVEvent *)
Record CSVEvent : Type := {
  Description : string;
  End_Time : string;
  Start_Time : string;
  Block_Schedule : string;
  Day : string
}.

(** The object [generateScheduleEvent] returns. *)
Record ScheduleEvent : Type := {
  name : string;
  code : string;
  startTime : string;
  endTime : string
}.

(** The object passed to [new Days(...)]. *)
Record DayFields : Type := {
  day_schedule : string;
  day_date : string
}.

(** [dateArray[i]] of an array of numbers: [undefined] out of range, which
    the arithmetic and the [Date] constructor turn into [NaN]. *)
Definition num_at (l : list JS.Num) (i : nat) : JS.Num :=
  match nth_error l i with
  | Some n => n
  | None => None
  end.

Definition parseVeracrossDate (date : string) : JSDate.Date :=
  let dateArray := List.map JS.parseInt (JS.split "/" date) in
  JSDate.new_Date (JS.num_add (num_at dateArray 2) (Some 2000))
                  (JS.num_sub (num_at dateArray 0) (Some 1))
                  (num_at dateArray 1).

Definition generateWAFormatDate (date : JSDate.Date) : string :=
  JS.NumberToString (JS.num_add (JSDate.getMonth date) (Some 1)) ++ "-" ++
  JS.NumberToString (JSDate.getDate date) ++ "-" ++
  JS.NumberToString (JS.num_rem (JSDate.getFullYear date) (Some 100)).

(** The caption after lines 80 to 84 of [parseAndUpdateDays]: the group of
    the pattern when it matches, the caption as it is otherwise. *)
Definition caption_schedule (caption : string) : string :=
  match JS.exec_paren caption with
  | Some inner => inner
  | None => caption
  end.

(** One turn of the loop of [parseAndUpdateDays] (lines 65 to 89): the
    fields of the [dayDocument] built for a row, [None] when the row is
    skipped by [continue]. *)
Definition dayDocument (day : CSVDay) : option DayFields :=
  if JS.includes "Semester" (Event_Caption day) then None
  else
    let date := parseVeracrossDate (Event_Date day) in
    let waDate := generateWAFormatDate date in
    Some {| day_schedule := caption_schedule (Event_Caption day);
            day_date := waDate |}.

(** The documents [parseAndUpdateDays] saves, in the order of the rows. *)
Definition dayDocuments (days : list CSVDay) : list DayFields :=
  omap dayDocument days.

Definition generateScheduleIdentifier (event : CSVEvent) : string :=
  if negb (String.eqb (Day event) "-") then
    match JS.exec_digits (Day event) with
    | None => "ORPHAN"
    | Some m => "US Day " ++ m
    end
  else Block_Schedule event.

Definition generateScheduleEvent (event : CSVEvent) : ScheduleEvent :=
  let code :=
    match JS.exec_block (Description event) with
    | Some letter => letter
    | None => Description event
    end in
  let startTime := JS.toUpperCase (Start_Time event) in
  let endTime := JS.toUpperCase (End_Time event) in
  let name := JS.remove_first " - US" (Description event) in
  {| name := name; code := code; startTime := startTime; endTime := endTime |}.

(** ** [Array.prototype.sort] with a comparator

    The comparator returns a number; [NaN] counts as 0.  The sort is stable:
    an element moves behind another only when the comparator puts it after.
    For a comparator that is a consistent ordering every stable sort gives
    this result; for an inconsistent one (here: a start time that does not
    parse) ECMAScript leaves the order to the engine, and the model gives that
    of a stable insertion sort. *)

Section ArraySort.
Context {A : Type}.
Variable compare : A -> A -> JS.Num.

(** [compare x y > 0]: [x] belongs after [y]. *)
Definition comes_after (x y : A) : bool :=
  match compare x y with
  | Some v => 0 <? v
  | None => false
  end.

Fixpoint sort_insert (x : A) (l : list A) : list A :=
  match l with
  | [] => [x]
  | y :: t => if comes_after x y then y :: sort_insert x t else x :: y :: t
  end.

Fixpoint Array_sort (l : list A) : list A :=
  match l with
  | [] => []
  | x :: t => sort_insert x (Array_sort t)
  end.
End ArraySort.

(** ** The [schedules] object of [parseAndUpdateSchedules]

    A plain object used as a dictionary from identifier to group.  Own
    properties are kept in insertion order.  A key that is not an own
    property is looked up on [Object.prototype]. *)

(** A group: the value stored under an identifier. *)
Record Schedule : Type := {
  s_name : string;
  s_friendlyName : string;
  s_schedule : list ScheduleEvent
}.

Definition Schedules_object : Type := list (string * Schedule).

(** The property names of [Object.prototype]; each holds a function, or for
    [__proto__] the prototype itself: a truthy value with no [schedule]. *)
Definition prototype_keys : list string :=
  [ "constructor"; "__defineGetter__"; "__defineSetter__"; "hasOwnProperty";
    "__lookupGetter__"; "__lookupSetter__"; "isPrototypeOf";
    "propertyIsEnumerable"; "toString"; "valueOf"; "__proto__";
    "toLocaleString" ].

Inductive Property : Type :=
| Own (g : Schedule)
| Inherited
| Undefined.

Fixpoint own_property (o : Schedules_object) (k : string) : option Schedule :=
  match o with
  | [] => None
  | (k', g) :: r => if String.eqb k' k then Some g else own_property r k
  end.

(** A key that [Object.prototype] answers. *)
Definition inherited_key (k : string) : bool := existsb (String.eqb k) prototype_keys.

(** [schedules[k]] *)
Definition get_property (o : Schedules_object) (k : string) : Property :=
  match own_property o k with
  | Some g => Own g
  | None => if inherited_key k then Inherited else Undefined
  end.

(** [schedules[k].schedule.push(e)] on an own property. *)
Fixpoint push_event (o : Schedules_object) (k : string) (e : ScheduleEvent)
  : Schedules_object :=
  match o with
  | [] => []
  | (k', g) :: r =>
      if String.eqb k' k
      then (k', {| s_name := s_name g; s_friendlyName := s_friendlyName g;
                   s_schedule := (s_schedule g ++ [e])%list |}) :: r
      else (k', g) :: push_event r k e
  end.

(** What a call throws: a [TypeError] of the language, or an error of the
    store with its code. *)
Inductive Exception : Type :=
| TypeError
| StoreError (code : Z).

Inductive Result (A : Type) : Type :=
| Returns (a : A)
| Throws (e : Exception).
Arguments Returns {A} a.
Arguments Throws {A} e.

(** One turn of the grouping loop (lines 209 to 229).  On an inherited key
    the test of line 214 succeeds and line 215 reads [schedule] of a value
    that has none: [undefined.push] throws. *)
Definition group_event (o : Schedules_object) (event : CSVEvent)
  : Result Schedules_object :=
  let identifier := generateScheduleIdentifier event in
  match get_property o identifier with
  | Own _ => Returns (push_event o identifier (generateScheduleEvent event))
  | Inherited => Throws TypeError
  | Undefined =>
      let friendlyName := JS.remove_first " - US" identifier in
      Returns (o ++ [(identifier,
                      {| s_name := identifier;
                         s_friendlyName := friendlyName;
                         s_schedule := [generateScheduleEvent event] |})])%list
  end.

Fixpoint group_events (o : Schedules_object) (events : list CSVEvent)
  : Result Schedules_object :=
  match events with
  | [] => Returns o
  | event :: rest =>
      match group_event o event with
      | Returns o' => group_events o' rest
      | Throws e => Throws e
      end
  end.

(** [Object.values]: the keys that are array indices (canonical numerals
    below 2^32 - 1) come first, in ascending order, then the other keys in
    the order of their insertion. *)
Definition array_index (k : string) : option Z :=
  match JS.read_digits 10 k false 0 with
  | Some n => if String.eqb (JS.decimal n) k && (n <? 4294967295) then Some n else None
  | None => None
  end.

Definition index_entries (o : Schedules_object) : list (Z * Schedule) :=
  omap (fun kv => match array_index (fst kv) with
                  | Some n => Some (n, snd kv)
                  | None => None
                  end) o.

Definition named_entries (o : Schedules_object) : list Schedule :=
  omap (fun kv => match array_index (fst kv) with
                  | Some _ => None
                  | None => Some (snd kv)
                  end) o.

Definition Object_values (o : Schedules_object) : list Schedule :=
  (List.map snd (Array_sort (fun a b => Some (fst a - fst b)) (index_entries o))
   ++ named_entries o)%list.

(** ** The comparator of lines 235 to 250 *)

(** [a[i]] of an array of strings; [None] is [undefined]. *)
Definition str_at (l : list string) (i : nat) : option string := nth_error l i.

(** [parseInt(x)] of a value that may be [undefined] (which reads as the
    string "undefined", not a number). *)
Definition parseInt_value (x : option string) : JS.Num :=
  match x with
  | Some s => JS.parseInt s
  | None => None
  end.

(** [x == 'PM'] *)
Definition is_PM (x : option string) : bool :=
  match x with
  | Some s => String.eqb s "PM"
  | None => false
  end.

(** [parseInt(t[0].split(':')[i])]; [t[0]] exists, [split] is never empty. *)
Definition clock_field (t : list string) (i : nat) : JS.Num :=
  parseInt_value (str_at (JS.split ":" (nth 0 t EmptyString)) i).

(** The hour as lines 239 to 243 compute it. *)
Definition sort_hour (t : list string) : JS.Num :=
  let h := clock_field t 0 in
  if is_PM (str_at t 1) && JS.num_neq h (Some 12) then JS.num_add h (Some 12) else h.

Definition compare_startTime (a b : ScheduleEvent) : JS.Num :=
  let aTime := JS.split " " (startTime a) in
  let bTime := JS.split " " (startTime b) in
  let aHour := sort_hour aTime in
  let bHour := sort_hour bTime in
  let aMinute := clock_field aTime 1 in
  let bMinute := clock_field bTime 1 in
  if JS.num_neq aHour bHour then JS.num_sub aHour bHour
  else JS.num_sub aMinute bMinute.

(** The group after line 235: its events sorted in place. *)
Definition sort_schedule (g : Schedule) : Schedule :=
  {| s_name := s_name g;
     s_friendlyName := s_friendlyName g;
     s_schedule := Array_sort compare_startTime (s_schedule g) |}.

(** The groups that lines 232 to 270 hand to [new Schedules(...)] and
    [save()], in the order of the loop: every value of the object. *)
Definition scheduleDocuments (events : list CSVEvent) : Result (list Schedule) :=
  match group_events [] events with
  | Returns o => Returns (List.map sort_schedule (Object_values o))
  | Throws e => Throws e
  end.

(** What lines 285 to 287 return once the drain is over: the event list of
    the own property [ORPHAN], which line 235 sorted in place. *)
Definition returned_warnings (o : Schedules_object) : list ScheduleEvent :=
  match get_property o "ORPHAN" with
  | Own g => s_schedule (sort_schedule g)
  | _ => []
  end.

(** ** The document store *)

(** Modelled from the spec: [./mongo.js], with the Mongoose schemas of
    [Days] and [Schedules] and the connection, is not among the sources.
    Section 6 of the specification gives what the code relies on: two
    collections, each with a uniqueness constraint on its natural key
    ([date], [name]), an insert that fails distinguishably on a uniqueness
    violation, and a find-and-update by key.  A collection is therefore a
    finite map from the natural key to the stored document.  Every stored
    document and every embedded event carries an [_id]; the model draws
    these from a counter of the collection, only their presence matters. *)
Definition ObjectId : Type := N.

Record Collection (T : Type) : Type := {
  docs : gmap string T;
  next_id : ObjectId
}.
Arguments docs {T} c.
Arguments next_id {T} c.

(** What the drain needs of a Mongoose model: the plain object the code
    builds ([Fields]), the document kept by the store ([Stored]), the update
    object of the duplicate-key branch ([Update], built by [fallback] as the
    source writes it) and the natural key.  [create] and [set_fields] say
    how the store keeps a new document and applies an update object. *)
Class Model : Type := {
  Fields : Type;
  Stored : Type;
  Update : Type;
  key : Fields -> string;
  fallback : Fields -> Update;
  create : ObjectId -> Fields -> Stored * ObjectId;
  set_fields : ObjectId -> Update -> Stored -> Stored * ObjectId
}.

Section Store.
Context `{M : Model}.

(** Modelled from the spec: the insert of [new Model(fields).save()], which
    the uniqueness constraint rejects when the key is taken; [None] is that
    rejection, with code 11000. *)
Definition insertOne (f : Fields) (c : Collection Stored) : option (Collection Stored) :=
  match docs c !! key f with
  | Some _ => None
  | None =>
      let '(d, n) := create (next_id c) f in
      Some {| docs := <[key f := d]> (docs c); next_id := n |}
  end.

(** Modelled from the spec: [Model.findOneAndUpdate({key: k}, u)], once
    executed.  An update object without operators sets the fields it names
    and leaves the others (Mongoose wraps it in [$set]); nothing happens
    when no document has the key.  The update objects of the source never
    change the key of a document. *)
Definition findOneAndUpdate (k : string) (u : Update) (c : Collection Stored)
  : Collection Stored :=
  match docs c !! k with
  | Some d =>
      let '(d', n) := set_fields (next_id c) u d in
      {| docs := <[k := d']> (docs c); next_id := n |}
  | None => c
  end.

(** Modelled from the spec: [Model.findOne({key: k})]. *)
Definition findOne (k : string) (c : Collection Stored) : option Stored :=
  docs c !! k.
End Store.

(** *** [Days]

    Modelled from the spec: the schema of a day, its [date] and its
    [schedule], is that of the DayRecord of section 3. *)

Record StoredDay : Type := {
  sd_id : ObjectId;
  sd_date : string;
  sd_schedule : string
}.

(** An update object over the fields of a day: [None] for a field the object
    does not name. *)
Record DayUpdate : Type := {
  set_date : option string;
  set_schedule : option string
}.

#[export] Instance Days : Model := {|
  Fields := DayFields;
  Stored := StoredDay;
  Update := DayUpdate;
  key := day_date;
  (* line 98: { schedule: day['Event Caption'] } *)
  fallback := fun f => {| set_date := None; set_schedule := Some (day_schedule f) |};
  create := fun n f =>
    ({| sd_id := n; sd_date := day_date f; sd_schedule := day_schedule f |}, N.succ n);
  set_fields := fun n u d =>
    ({| sd_id := sd_id d;
        sd_date := default (sd_date d) (set_date u);
        sd_schedule := default (sd_schedule d) (set_schedule u) |}, n)
|}.

(** *** [Schedules]

    Modelled from the spec: the schema of a schedule, its [name], its
    [friendlyName] and the list of its events, is that of the
    ScheduleDocument of section 3. *)

Record StoredEvent : Type := {
  se_id : ObjectId;
  se_event : ScheduleEvent
}.

Record StoredSchedule : Type := {
  ss_id : ObjectId;
  ss_name : string;
  ss_friendlyName : string;
  ss_schedule : list StoredEvent
}.

Record ScheduleUpdate : Type := {
  set_name : option string;
  set_friendlyName : option string;
  set_events : option (list ScheduleEvent)
}.

(** The embedded events of a document, each with a fresh [_id]. *)
Fixpoint embed_events (n : ObjectId) (l : list ScheduleEvent) : list StoredEvent * ObjectId :=
  match l with
  | [] => ([], n)
  | e :: r =>
      let '(r', n') := embed_events (N.succ n) r in
      ({| se_id := n; se_event := e |} :: r', n')
  end.

#[export] Instance Schedules : Model := {|
  Fields := Schedule;
  Stored := StoredSchedule;
  Update := ScheduleUpdate;
  key := s_name;
  (* line 260: the group object itself is the update *)
  fallback := fun g => {| set_name := Some (s_name g);
                          set_friendlyName := Some (s_friendlyName g);
                          set_events := Some (s_schedule g) |};
  create := fun n g =>
    let '(evs, n') := embed_events (N.succ n) (s_schedule g) in
    ({| ss_id := n; ss_name := s_name g; ss_friendlyName := s_friendlyName g;
        ss_schedule := evs |}, n');
  set_fields := fun n u d =>
    let '(evs, n') :=
      match set_events u with
      | Some l => embed_events n l
      | None => (ss_schedule d, n)
      end in
    ({| ss_id := ss_id d;
        ss_name := default (ss_name d) (set_name u);
        ss_friendlyName := default (ss_friendlyName d) (set_friendlyName u);
        ss_schedule := evs |}, n')
|}.

(** ** The upsert drain (lines 91 to 118 and 253 to 279)

    The loop over the rows calls [save()] on every document at once and
    keeps, in the array [promises], the promise of each save chained with
    its [catch] handler.  The handler of a save rejected with code 11000
    pushes an entry holding the [findOneAndUpdate] query, which Mongoose
    executes when the drain loop awaits it; any other rejection is thrown
    again.  The [while] loop pops the last entry and awaits it until the
    array is empty.  The store answers the saves in an order of its own,
    between the turns of the loop: a run is a list of events.

    Two things depend on where the code runs, and are events as well.
    - [process.stdout.clearLine] and [cursorTo] (lines 113, 114, 119 and
      120; 274, 275, 280 and 281) exist only when the standard output is a
      terminal.  Elsewhere the first of these calls throws a [TypeError]
      out of the function: the event [NotATerminal].
    - A promise of the array has no handler until the loop awaits it.  When
      line 103 (264) throws the rejection of a save again while that save is
      not the one awaited, the rejection is unhandled.  Node, left to its
      default, then ends the process: the event [UnhandledRejection].  A
      host that only reports unhandled rejections goes on, and the loop
      meets the rejection when it awaits the entry: the event [SaveReply]
      with the fault. *)

Section Drain.
Context `{M : Model}.

(** The promise of [save().catch(handler)]. *)
Inductive SaveState : Type :=
| Pending
| Saved
| DuplicateKey            (* rejected with code 11000, handler pushed the update *)
| Failed (code : Z).      (* rejected with another code, thrown again *)

(** An entry of the array [promises]. *)
Inductive Entry : Type :=
| ESave (i : nat)
| EUpdate (k : string) (u : Update).

(** Where the function is. *)
Inductive Status : Type :=
| Running
| Awaiting (e : Entry)
| Returned
| Thrown (e : Entry) (code : Z)
| TypeErrorThrown              (* [clearLine] is not a function *)
| Exited (i : nat) (code : Z). (* the process ended, save [i] rejected unhandled *)

(** A write the store carried out. *)
Inductive Write : Type :=
| Inserted (i : nat)
| Updated (k : string) (u : Update).

Record State : Type := {
  coll : Collection Stored;
  saves : list (Fields * SaveState);
  promises : list Entry;
  status : Status;
  writes : list Write
}.

Inductive Event : Type :=
| SaveReply (i : nat) (fault : option Z)
| LoopTurn
| SaveSettled
| UpdateReply (fault : option Z)
| NotATerminal
| UnhandledRejection (i : nat) (code : Z).

(** [promises.pop()] *)
Fixpoint pop (l : list Entry) : option (list Entry * Entry) :=
  match l with
  | [] => None
  | x :: r =>
      match pop r with
      | Some (r', y) => Some (x :: r', y)
      | None => Some ([], x)
      end
  end.

(** The state when the [while] loop is reached: every save is under way. *)
Definition start (batch : list Fields) (c : Collection Stored) : State :=
  {| coll := c;
     saves := List.map (fun f => (f, Pending)) batch;
     promises := List.map ESave (seq 0 (length batch));
     status := Running;
     writes := [] |}.

(** The answer of the store to the [i]-th save: a fault of its own
    ([fault], any error code), the duplicate-key error when the key is
    taken, or the insertion. *)
Definition save_reply (i : nat) (fault : option Z) (s : State) : option State :=
  match saves s !! i with
  | Some (f, Pending) =>
      let rejection :=
        match fault with
        | Some c => Some c
        | None => match insertOne f (coll s) with
                  | Some _ => None
                  | None => Some 11000
                  end
        end in
      match rejection with
      | None =>
          Some {| coll := default (coll s) (insertOne f (coll s));
                  saves := <[i := (f, Saved)]> (saves s);
                  promises := promises s;
                  status := status s;
                  writes := (writes s ++ [Inserted i])%list |}
      | Some c =>
          if c =? 11000
          then Some {| coll := coll s;
                       saves := <[i := (f, DuplicateKey)]> (saves s);
                       promises := (promises s ++ [EUpdate (key f) (fallback f)])%list;
                       status := status s;
                       writes := writes s |}
          else Some {| coll := coll s;
                       saves := <[i := (f, Failed c)]> (saves s);
                       promises := promises s;
                       status := status s;
                       writes := writes s |}
      end
  | _ => None
  end.

Definition with_status (s : State) (st : Status) : State :=
  {| coll := coll s; saves := saves s; promises := promises s;
     status := st; writes := writes s |}.

(** The test of the [while] with the standard output a terminal, where
    [clearLine], [cursorTo] and [write] return, and, when the array is not
    empty, the [pop] and the start of the [await]. *)
Definition loop_turn (s : State) : option State :=
  match status s with
  | Running =>
      match pop (promises s) with
      | None => Some (with_status s Returned)
      | Some (rest, e) =>
          Some {| coll := coll s; saves := saves s; promises := rest;
                  status := Awaiting e; writes := writes s |}
      end
  | _ => None
  end.

(** The awaited save has settled: the loop goes on, or the rejection is
    thrown out of the function. *)
Definition save_settled (s : State) : option State :=
  match status s with
  | Awaiting (ESave i) =>
      match saves s !! i with
      | Some (_, Saved) | Some (_, DuplicateKey) => Some (with_status s Running)
      | Some (_, Failed c) => Some (with_status s (Thrown (ESave i) c))
      | _ => None
      end
  | _ => None
  end.

(** The awaited query was executed: the store updated the document, or
    failed, and the failure is thrown out of the function. *)
Definition update_reply (fault : option Z) (s : State) : option State :=
  match status s with
  | Awaiting (EUpdate k u) =>
      match fault with
      | Some c => Some (with_status s (Thrown (EUpdate k u) c))
      | None =>
          Some {| coll := findOneAndUpdate k u (coll s);
                  saves := saves s;
                  promises := promises s;
                  status := Running;
                  writes := (writes s ++ [Updated k u])%list |}
      end
  | _ => None
  end.

(** The head of a turn, or the lines after the loop, with a standard
    output that is no terminal: [process.stdout.clearLine] is [undefined]
    and calling it throws a [TypeError] out of the function, the saves
    being under way and nothing awaited. *)
Definition not_a_terminal (s : State) : option State :=
  match status s with
  | Running => Some (with_status s TypeErrorThrown)
  | _ => None
  end.

(** The [i]-th save is rejected with a code other than 11000 while the
    function is under way and awaits something else, or nothing: the promise
    that line 103 rejects has no handler, and the host ends the process. *)
Definition unhandled_rejection (i : nat) (c : Z) (s : State) : option State :=
  match saves s !! i with
  | Some (f, Pending) =>
      let exit := Some {| coll := coll s;
                          saves := <[i := (f, Failed c)]> (saves s);
                          promises := promises s;
                          status := Exited i c;
                          writes := writes s |} in
      if c =? 11000 then None
      else match status s with
           | Running | Awaiting (EUpdate _ _) => exit
           | Awaiting (ESave j) => if Nat.eqb j i then None else exit
           | _ => None
           end
  | _ => None
  end.

(** One event; [None] when it cannot happen in the state. *)
Definition step (ev : Event) (s : State) : option State :=
  match ev with
  | SaveReply i fault => save_reply i fault s
  | LoopTurn => loop_turn s
  | SaveSettled => save_settled s
  | UpdateReply fault => update_reply fault s
  | NotATerminal => not_a_terminal s
  | UnhandledRejection i c => unhandled_rejection i c s
  end.

Fixpoint run (tr : list Event) (s : State) : option State :=
  match tr with
  | [] => Some s
  | ev :: r =>
      match step ev s with
      | Some s' => run r s'
      | None => None
      end
  end.

(** The function is over: it returned or threw, or the process ended. *)
Definition finished (s : State) : bool :=
  match status s with
  | Returned | Thrown _ _ | TypeErrorThrown | Exited _ _ => true
  | _ => false
  end.

Definition is_update (w : Write) : bool :=
  match w with Updated _ _ => true | Inserted _ => false end.




(** The events as a relation between states, one rule per outcome. *)
Inductive Transition (s : State) : State -> Prop :=
| T_inserted i f c' :
    saves s !! i = Some (f, Pending) ->
    insertOne f (coll s) = Some c' ->
    Transition s {| coll := c'; saves := <[i := (f, Saved)]> (saves s);
                    promises := promises s; status := status s;
                    writes := (writes s ++ [Inserted i])%list |}
| T_duplicate i f :
    saves s !! i = Some (f, Pending) ->
    Transition s {| coll := coll s; saves := <[i := (f, DuplicateKey)]> (saves s);
                    promises := (promises s ++ [EUpdate (key f) (fallback f)])%list;
                    status := status s; writes := writes s |}
| T_failed i f c :
    saves s !! i = Some (f, Pending) ->
    c <> 11000 ->
    Transition s {| coll := coll s; saves := <[i := (f, Failed c)]> (saves s);
                    promises := promises s; status := status s;
                    writes := writes s |}
| T_return :
    status s = Running -> promises s = [] ->
    Transition s (with_status s Returned)
| T_pop rest e :
    status s = Running -> promises s = (rest ++ [e])%list ->
    Transition s {| coll := coll s; saves := saves s; promises := rest;
                    status := Awaiting e; writes := writes s |}
| T_settled i f st :
    status s = Awaiting (ESave i) ->
    saves s !! i = Some (f, st) ->
    st = Saved \/ st = DuplicateKey ->
    Transition s (with_status s Running)
| T_rethrown i f c :
    status s = Awaiting (ESave i) ->
    saves s !! i = Some (f, Failed c) ->
    Transition s (with_status s (Thrown (ESave i) c))
| T_update_failed k u c :
    status s = Awaiting (EUpdate k u) ->
    Transition s (with_status s (Thrown (EUpdate k u) c))
| T_updated k u :
    status s = Awaiting (EUpdate k u) ->
    Transition s {| coll := findOneAndUpdate k u (coll s); saves := saves s;
                    promises := promises s; status := Running;
                    writes := (writes s ++ [Updated k u])%list |}
| T_no_terminal :
    status s = Running ->
    Transition s (with_status s TypeErrorThrown)
| T_unhandled i f c :
    saves s !! i = Some (f, Pending) ->
    c <> 11000 ->
    finished s = false -> status s <> Awaiting (ESave i) ->
    Transition s {| coll := coll s; saves := <[i := (f, Failed c)]> (saves s);
                    promises := promises s; status := Exited i c;
                    writes := writes s |}.

(** The function is over and did not return. *)
Definition aborted (s : State) : Prop :=
  finished s = true /\ status s <> Returned.

(** What holds of every state of a run. *)
Record Invariant (s : State) : Prop := {
  inv_index : forall i,
    ESave i ∈ promises s \/ status s = Awaiting (ESave i) ->
    (i < length (saves s))%nat;
  inv_duplicate : forall i f,
    saves s !! i = Some (f, DuplicateKey) ->
    EUpdate (key f) (fallback f) ∈ promises s
    \/ status s = Awaiting (EUpdate (key f) (fallback f))
    \/ Updated (key f) (fallback f) ∈ writes s
    \/ aborted s;
  inv_failed : forall i f c,
    saves s !! i = Some (f, Failed c) -> c <> 11000;
  inv_thrown : forall i c,
    status s = Thrown (ESave i) c -> exists f, saves s !! i = Some (f, Failed c);
  inv_awaited : forall i f st,
    saves s !! i = Some (f, st) ->
    ESave i ∈ promises s \/ status s = Awaiting (ESave i)
    \/ st = Saved \/ st = DuplicateKey \/ aborted s;
  inv_returned : status s = Returned -> promises s = []
}.

(** An event that is no duplicate-key error made up by the environment: the
    store signals code 11000 only when the key is taken. *)
Definition genuine (ev : Event) : Prop :=
  match ev with
  | SaveReply _ (Some c) => c <> 11000
  | _ => True
  end.



(** What the collection holds for the saves answered so far, when no two
    documents of the batch share a key; [reflects f d] reads: the stored
    document [d] holds the fields of [f]. *)
Record Upserted (reflects : Fields -> Stored -> Prop) (s : State) : Prop := {
  up_saved : forall i f,
    saves s !! i = Some (f, Saved) ->
    exists d, docs (coll s) !! key f = Some d /\ reflects f d;
  up_duplicate : forall i f,
    saves s !! i = Some (f, DuplicateKey) ->
    is_Some (docs (coll s) !! key f)
    /\ (Updated (key f) (fallback f) ∈ writes s ->
        exists d, docs (coll s) !! key f = Some d /\ reflects f d);
  up_queued : forall k u,
    EUpdate k u ∈ promises s \/ status s = Awaiting (EUpdate k u) ->
    exists j f, saves s !! j = Some (f, DuplicateKey) /\ k = key f /\ u = fallback f;
  up_written : forall k u,
    Updated k u ∈ writes s ->
    exists j f, saves s !! j = Some (f, DuplicateKey) /\ k = key f /\ u = fallback f;
  up_keys : forall i j f g st st',
    saves s !! i = Some (f, st) -> saves s !! j = Some (g, st') ->
    key f = key g -> i = j
}.
End Drain.

(** ** The exported functions *)

(** [parseAndUpdateDays(csv)], from the rows the CSV parser returns, the
    collection and the events of the run: what the caller gets and the
    collection at that moment; [None] when the events are not a run that
    ends the function, or end the process: the caller gets nothing then. *)
Definition parseAndUpdateDays (days : list CSVDay) (c : Collection StoredDay)
  (tr : list Event) : option (Result unit * Collection StoredDay) :=
  match run (M := Days) tr (start (M := Days) (dayDocuments days) c) with
  | Some s =>
      match status s with
      | Returned => Some (Returns tt, coll s)
      | Thrown _ code => Some (Throws (StoreError code), coll s)
      | TypeErrorThrown => Some (Throws TypeError, coll s)
      | _ => None
      end
  | None => None
  end.

(** [parseAndUpdateSchedules(csv)], likewise.  A [TypeError] of the grouping
    loop is thrown before anything is saved. *)
Definition parseAndUpdateSchedules (events : list CSVEvent)
  (c : Collection StoredSchedule) (tr : list Event)
  : option (Result (list ScheduleEvent) * Collection StoredSchedule) :=
  match group_events [] events with
  | Throws e => Some (Throws e, c)
  | Returns o =>
      match run (M := Schedules) tr
              (start (M := Schedules) (List.map sort_schedule (Object_values o)) c) with
      | Some s =>
          match status s with
          | Returned => Some (Returns (returned_warnings o), coll s)
          | Thrown _ code => Some (Throws (StoreError code), coll s)
          | TypeErrorThrown => Some (Throws TypeError, coll s)
          | _ => None
          end
      | None => None
      end
  end.

(** *** [getScheduleList] *)

Definition hex_char (d : N) : ascii :=
  ascii_of_N (if (d <? 10)%N then 48 + d else 87 + d)%N.

(** The [k] lowest hexadecimal digits of [n]. *)
Fixpoint hex (k : nat) (n : N) (acc : string) : string :=
  match k with
  | O => acc
  | S k' => hex k' (n / 16)%N (String (hex_char (n mod 16)%N) acc)
  end.

(** [_id.toString()]: the 24 hexadecimal digits of the identifier. *)
Definition ObjectId_toString (n : ObjectId) : string := hex 24 n EmptyString.

(** An event and a schedule as [getScheduleList] returns them: the [_id] is
    a string; the document returned for a missing schedule has none. *)
Record EventView : Type := {
  ev_id : string;
  ev_event : ScheduleEvent
}.

Record ScheduleView : Type := {
  v_id : option string;
  v_name : string;
  v_friendlyName : string;
  v_schedule : list EventView
}.

(** [getScheduleList(name)], once the connection is there. *)
Definition getScheduleList (name : string) (c : Collection StoredSchedule) : ScheduleView :=
  match findOne (M := Schedules) name c with
  | Some sch =>
      {| v_id := Some (ObjectId_toString (ss_id sch));
         v_name := ss_name sch;
         v_friendlyName := ss_friendlyName sch;
         v_schedule :=
           List.map (fun e => {| ev_id := ObjectId_toString (se_id e);
                                 ev_event := se_event e |})
                    (ss_schedule sch) |}
  | None =>
      {| v_id := None;
         v_name := "NONE";
         v_friendlyName := "No School Day";
         v_schedule := [] |}
  end.

(** An empty collection. *)
Definition empty_collection {T : Type} : Collection T :=
  {| docs := ∅; next_id := 0%N |}.

(** The stored day holds the schedule of the row. *)
Definition day_stored (f : DayFields) (d : StoredDay) : Prop :=
  sd_schedule d = day_schedule f.

(** The stored schedule holds the names and the events of the group. *)
Definition schedule_stored (g : Schedule) (d : StoredSchedule) : Prop :=
  ss_name d = s_name g
  /\ ss_friendlyName d = s_friendlyName g
  /\ List.map se_event (ss_schedule d) = s_schedule g.

(** ** Vocabulary of the statements *)

(** [p] occurs in [s] at offset [n]. *)
Definition occurs_at (p s : string) (n : nat) : Prop :=
  exists a t, s = a ++ p ++ t /\ String.length a = n.

(** [p] occurs in [s]. *)
Definition occurs (p s : string) : Prop := exists n, occurs_at p s n.

(** The pattern of [generateScheduleEvent], the word [Block], a space and an
    upper-case letter [l], matches [s] at offset [n]. *)
Definition block_at (s : string) (n : nat) (l : ascii) : Prop :=
  exists a t, s = a ++ "Block " ++ String l t /\ String.length a = n
              /\ JS.is_upper l = true.

(** Every character of [s] satisfies [P]. *)
Fixpoint all_chars (P : ascii -> bool) (s : string) : bool :=
  match s with
  | EmptyString => true
  | String c r => P c && all_chars P r
  end.

Definition no_digit (s : string) : bool := all_chars (fun c => negb (JS.is_digit c)) s.
Definition all_digits (s : string) : bool := all_chars JS.is_digit s.
Definition single_line (s : string) : bool :=
  all_chars (fun c => negb (JS.is_line_terminator c)) s.
Definition no_char (x : ascii) (s : string) : bool :=
  all_chars (fun c => negb (Ascii.eqb c x)) s.

(** [s] is empty or starts with a character that is no digit. *)
Definition ends_digits (s : string) : bool :=
  match s with
  | EmptyString => true
  | String c _ => negb (JS.is_digit c)
  end.

(** *** The order of the events of a group *)

(** The pair the comparator of line 235 compares: the hour as the code
    reads it (12 added to an hour of the afternoon other than 12, the hour
    12 of the night left at 12) and the minute; [None] when one of them does
    not parse. *)
Definition sort_key (e : ScheduleEvent) : option (Z * Z) :=
  let t := JS.split " " (startTime e) in
  match sort_hour t, clock_field t 1 with
  | Some h, Some m => Some (h, m)
  | _, _ => None
  end.

(** The lexicographic order of two such pairs. *)
Definition key_le (a b : Z * Z) : Prop :=
  fst a < fst b \/ (fst a = fst b /\ snd a <= snd b).

(** *** The rows of a group *)

(** The rows of the file whose identifier is [k], in the order of the file. *)
Definition rows_of (k : string) (events : list CSVEvent) : list CSVEvent :=
  List.filter (fun e => String.eqb (generateScheduleIdentifier e) k) events.

(** The group of the identifier [k]: none when no row has it. *)
Definition group_of (events : list CSVEvent) (k : string) : option Schedule :=
  match rows_of k events with
  | [] => None
  | l => Some {| s_name := k;
                 s_friendlyName := JS.remove_first " - US" k;
                 s_schedule := List.map generateScheduleEvent l |}
  end.

(** The object after the rows [seen] holds, under every identifier, the
    events of the rows that have it. *)
Definition Grouped (seen : list CSVEvent) (o : Schedules_object) : Prop :=
  forall k, own_property o k = group_of seen k.

(** *** The wording of the specification, where the code differs *)

(** The specification's words for the name of an event, "the description
    with any [ - US] substring removed": every occurrence, from left to
    right. *)
Fixpoint remove_every_fuel (fuel : nat) (p s : string) : string :=
  match fuel with
  | O => s
  | S f =>
      if JS.starts_with p s then remove_every_fuel f p (JS.drop (String.length p) s)
      else match s with
           | EmptyString => EmptyString
           | String c r => String c (remove_every_fuel f p r)
           end
  end.

Definition remove_every (p s : string) : string :=
  remove_every_fuel (S (String.length s)) p s.

Definition name_as_specified : Prop :=
  forall event : CSVEvent,
    name (generateScheduleEvent event) = remove_every " - US" (Description event).

(** The specification's words for the schedule of a day, "inner text of a
    parenthesized group when present, else the caption unchanged", read in
    the widest sense: any text between an opening and a later closing
    parenthesis counts as the inner text of a group. *)
Definition inner_of_group (s m : string) : Prop :=
  exists a t, s = a ++ "(" ++ m ++ ")" ++ t.

Definition has_group (s : string) : Prop := exists m, inner_of_group s m.

Definition schedule_as_specified : Prop :=
  forall (day : CSVDay) (f : DayFields),
    dayDocument day = Some f ->
    (has_group (Event_Caption day) -> inner_of_group (Event_Caption day) (day_schedule f))
    /\ (~ has_group (Event_Caption day) -> day_schedule f = Event_Caption day).

(** *** Dates of the calendar *)

(** Day [d] of month [m] of the year 2000 + [y] exists. *)
Definition calendar_date (y m d : Z) : Prop :=
  0 <= y <= 99 /\ 1 <= m <= 12 /\ 1 <= d <= JSDate.days_in_month (2000 + y) m.

(** The ways a field of MM/DD/YY writes [n]: its numeral, and below ten
    also the numeral after a zero. *)
Definition numerals (n : Z) : list string :=
  if n <? 10 then [JS.decimal n; "0" ++ JS.decimal n] else [JS.decimal n].

(** The key M-D-YY of a date, no field padded. *)
Definition date_key (y m d : Z) : string :=
  JS.decimal m ++ "-" ++ JS.decimal d ++ "-" ++ JS.decimal y.

(** The specification's words for the keys, "month 1-12, day 1-31, YY in
    00-99": every such date, each field written with or without its leading
    zero, keeps its month, its day and its year. *)
Definition date_key_as_specified : Prop :=
  forall (y m d : Z) (fm fd fy : string),
    0 <= y <= 99 -> 1 <= m <= 12 -> 1 <= d <= 31 ->
    In fm (numerals m) -> In fd (numerals d) -> In fy (numerals y) ->
    generateWAFormatDate (parseVeracrossDate (fm ++ "/" ++ fd ++ "/" ++ fy))
    = date_key y m d.

Definition num_is (n : JS.Num) (z : Z) : bool :=
  match n with
  | Some v => v =? z
  | None => false
  end.

(** A way of writing [n] holds no slash and parses to [n]. *)
Definition numeral_check (n : Z) : bool :=
  forallb (fun f => no_char "/" f && num_is (JS.parseInt f) n) (numerals n).

(** The date built from the numbers of the three fields reads as its own
    year, month and day. *)
Definition date_check (y m d : Z) : bool :=
  match JSDate.new_Date (JS.num_add (Some y) (Some 2000))
                        (JS.num_sub (Some m) (Some 1)) (Some d) with
  | JSDate.DateDay day =>
      let '(yy, mm, dd) := JSDate.civil day in
      (yy =? 2000 + y) && (mm =? m - 1) && (dd =? d)
  | JSDate.InvalidDate => false
  end.

Definition range (lo : Z) (n : nat) : list Z :=
  List.map (fun i => lo + Z.of_nat i) (seq 0 n).

(** *** Times of the clock *)

(** The start time of hour [h] and minute [m], before or after noon, as
    [generateScheduleEvent] leaves it: the two numbers, each with or without
    a leading zero, a colon between them, a space, and AM or PM. *)
Definition clock_time (h m : Z) (pm : bool) (s : string) : Prop :=
  exists fh fm, In fh (numerals h) /\ In fm (numerals m)
                /\ s = fh ++ ":" ++ fm ++ " " ++ (if pm then "PM" else "AM").

(** The pair by which such a time is ordered: 12 is added to the hours of
    the afternoon other than 12; the hour 12 of the night stays 12. *)
Definition clock_key (h m : Z) (pm : bool) : Z * Z :=
  (if pm && negb (h =? 12) then h + 12 else h, m).

(** The event starts at a time of the clock, hours from 0 to 23 and minutes
    from 0 to 59, whose pair is [k]. *)
Definition starts_on (e : ScheduleEvent) (k : Z * Z) : Prop :=
  exists h m pm, 0 <= h <= 23 /\ 0 <= m <= 59
                 /\ clock_time h m pm (startTime e) /\ k = clock_key h m pm.

Definition on_the_clock (e : ScheduleEvent) : Prop := exists k, starts_on e k.

(** [a] does not start after [b]. *)
Definition no_later (a b : ScheduleEvent) : Prop :=
  exists ka kb, starts_on a ka /\ starts_on b kb /\ key_le ka kb.

(** The comparator reads the pair of every way of writing the time. *)
Definition clock_check (h m : Z) : bool :=
  forallb (fun pm : bool =>
    forallb (fun fh =>
      forallb (fun fm =>
        match sort_key {| name := ""; code := ""; endTime := "";
                          startTime := fh ++ ":" ++ fm ++ " "
                                       ++ (if pm then "PM" else "AM") |} with
        | Some k => (fst k =? fst (clock_key h m pm)) && (snd k =? snd (clock_key h m pm))
        | None => false
        end) (numerals m)) (numerals h)) [true; false].

(** ** The upload endpoints (src/pages/api/upload)

    The two handlers of the API routes.  The CSV parser of the package
    [csv-parse] is no code of the repository: a handler takes it as the
    function [parse], from the text to the rows or to the error the parser
    throws.  [console.error] is left out. *)

(** What a handler reads of [req]: [req.method], the headers [content-type]
    and [authorization] and [req.body]; [None] is [undefined]. *)
Record Request : Type := {
  method : string;
  content_type : option string;
  authorization : option string;
  body : option string
}.

(** A warning of the schedules endpoint: the properties of the event, spread,
    and the message. *)
Record Warning : Type := {
  w_event : ScheduleEvent;
  w_message : string
}.

(** The object given to [send]. *)
Inductive Payload : Type :=
| send_error (message : string)              (* {error: message} *)
| send_success                              (* {success: true} *)
| send_warnings (warnings : list Warning).  (* {success: true, warnings} *)

(** [res.status(code).send(payload)] *)
Record Response : Type := {
  res_status : Z;
  res_sent : Payload
}.

(** [x !== s] for a header [x] *)
Definition strict_ne (x : option string) (s : string) : bool :=
  match x with
  | Some v => negb (String.eqb v s)
  | None => true
  end.

(** [!body] *)
Definition falsy (x : option string) : bool :=
  match x with
  | Some v => String.eqb v ""
  | None => true
  end.

(** The template literal of line 18, [process.env.UPLOAD_KEY] being a string
    or [undefined]. *)
Definition bearer (UPLOAD_KEY : option string) : string :=
  "Bearer " ++ match UPLOAD_KEY with
               | Some k => k
               | None => "undefined"
               end.

(** Modelled from the spec: [dbConnect()] of mongo.js resolves when the
    connection to the store is there and rejects otherwise; its outcome is
    the argument [dbConnect] of the handlers. *)
Definition Connection : Type := Result unit.

(** A request that passes the four checks of a handler, and its body. *)
Definition accepted (UPLOAD_KEY : option string) (req : Request) (csv : string) : Prop :=
  method req = "POST" /\ content_type req = Some "text/csv"
  /\ body req = Some csv /\ csv <> ""
  /\ authorization req = Some (bearer UPLOAD_KEY).

Module UploadDays.

(** pages/api/upload/days.js, lines 11 to 28.  The collection is returned
    with the response; [None] when the events are not a run that ends
    [parseAndUpdateDays]. *)
Definition handler (parse : string -> Result (list CSVDay)) (UPLOAD_KEY : option string)
  (dbConnect : Connection) (req : Request) (c : Collection StoredDay) (tr : list Event)
  : option (Response * Collection StoredDay) :=
  if negb (String.eqb (method req) "POST")
  then Some ({| res_status := 405; res_sent := send_error "Method not allowed" |}, c)
  else if strict_ne (content_type req) "text/csv"
  then Some ({| res_status := 400; res_sent := send_error "Content type must be text/csv" |}, c)
  else if falsy (body req)
  then Some ({| res_status := 400; res_sent := send_error "No body provided" |}, c)
  else if strict_ne (authorization req) (bearer UPLOAD_KEY)
  then Some ({| res_status := 401; res_sent := send_error "Unauthorized" |}, c)
  else
    let failure := {| res_status := 500; res_sent := send_error "Internal server error" |} in
    match dbConnect with
    | Throws _ => Some (failure, c)
    | Returns _ =>
        match parse (default "" (body req)) with
        | Throws _ => Some (failure, c)
        | Returns days =>
            match parseAndUpdateDays days c tr with
            | Some (Returns _, c') =>
                Some ({| res_status := 200; res_sent := send_success |}, c')
            | Some (Throws _, c') => Some (failure, c')
            | None => None
            end
        end
    end.

End UploadDays.

Module UploadSchedules.

(** Lines 24 to 29: every warning is the event with the message added. *)
Definition warning (e : ScheduleEvent) : Warning :=
  {| w_event := e;
     w_message := "This element was not added because it was not formatted correctly." |}.

(** pages/api/upload/schedules.js, lines 11 to 34. *)
Definition handler (parse : string -> Result (list CSVEvent)) (UPLOAD_KEY : option string)
  (dbConnect : Connection) (req : Request) (c : Collection StoredSchedule)
  (tr : list Event) : option (Response * Collection StoredSchedule) :=
  if negb (String.eqb (method req) "POST")
  then Some ({| res_status := 405; res_sent := send_error "Method not allowed" |}, c)
  else if strict_ne (content_type req) "text/csv"
  then Some ({| res_status := 400; res_sent := send_error "Content type must be text/csv" |}, c)
  else if falsy (body req)
  then Some ({| res_status := 400; res_sent := send_error "No body provided" |}, c)
  else if strict_ne (authorization req) (bearer UPLOAD_KEY)
  then Some ({| res_status := 401; res_sent := send_error "Unauthorized" |}, c)
  else
    let failure := {| res_status := 500; res_sent := send_error "Internal server error" |} in
    match dbConnect with
    | Throws _ => Some (failure, c)
    | Returns _ =>
        match parse (default "" (body req)) with
        | Throws _ => Some (failure, c)
        | Returns events =>
            match parseAndUpdateSchedules events c tr with
            | Some (Returns warnings, c') =>
                if (0 <? Z.of_nat (length warnings))
                then Some ({| res_status := 200;
                              res_sent := send_warnings (List.map warning warnings) |}, c')
                else Some ({| res_status := 200; res_sent := send_success |}, c')
            | Some (Throws _, c') => Some (failure, c')
            | None => None
            end
        end
    end.

End UploadSchedules.

(** The revision of days.js in which the authentication is still to be
    added (lines 39 to 55). *)
Module UploadDaysOpen.

Definition handler (parse : string -> Result (list CSVDay))
  (dbConnect : Connection) (req : Request) (c : Collection StoredDay) (tr : list Event)
  : option (Response * Collection StoredDay) :=
  if negb (String.eqb (method req) "POST")
  then Some ({| res_status := 405; res_sent := send_error "Method not allowed" |}, c)
  else if strict_ne (content_type req) "text/csv"
  then Some ({| res_status := 400; res_sent := send_error "Content type must be text/csv" |}, c)
  else if falsy (body req)
  then Some ({| res_status := 400; res_sent := send_error "No body provided" |}, c)
  else
    let failure := {| res_status := 500; res_sent := send_error "Internal server error" |} in
    match dbConnect with
    | Throws _ => Some (failure, c)
    | Returns _ =>
        match parse (default "" (body req)) with
        | Throws _ => Some (failure, c)
        | Returns days =>
            match parseAndUpdateDays days c tr with
            | Some (Returns _, c') =>
                Some ({| res_status := 200; res_sent := send_success |}, c')
            | Some (Throws _, c') => Some (failure, c')
            | None => None
            end
        end
    end.

End UploadDaysOpen.

(** The revision of schedules.js in which the authentication is still to be
    added (src/unnamed/part_000, lines 12 to 34). *)
Module UploadSchedulesOpen.

Definition handler (parse : string -> Result (list CSVEvent))
  (dbConnect : Connection) (req : Request) (c : Collection StoredSchedule)
  (tr : list Event) : option (Response * Collection StoredSchedule) :=
  if negb (String.eqb (method req) "POST")
  then Some ({| res_status := 405; res_sent := send_error "Method not allowed" |}, c)
  else if strict_ne (content_type req) "text/csv"
  then Some ({| res_status := 400; res_sent := send_error "Content type must be text/csv" |}, c)
  else if falsy (body req)
  then Some ({| res_status := 400; res_sent := send_error "No body provided" |}, c)
  else
    let failure := {| res_status := 500; res_sent := send_error "Internal server error" |} in
    match dbConnect with
    | Throws _ => Some (failure, c)
    | Returns _ =>
        match parse (default "" (body req)) with
        | Throws _ => Some (failure, c)
        | Returns events =>
            match parseAndUpdateSchedules events c tr with
            | Some (Returns warnings, c') =>
                if (0 <? Z.of_nat (length warnings))
                then Some ({| res_status := 200;
                              res_sent :=
                                send_warnings
                                  (List.map UploadSchedules.warning warnings) |}, c')
                else Some ({| res_status := 200; res_sent := send_success |}, c')
            | Some (Throws _, c') => Some (failure, c')
            | None => None
            end
        end
    end.

End UploadSchedulesOpen.

(** ** What the drain writes to the standard output (lines 101, 111 to 121
       and 272 to 283)

    One string per write to the stream: the calls of [process.stdout.write]
    and [console.log], and on a terminal the control sequences that
    [clearLine(0)] and [cursorTo(0)] send.  With a standard output that is
    no terminal the function throws at the first of these calls, after the
    opening line and before any line of progress (the event
    [NotATerminal]). *)

Section Progress.
Context `{M : Model}.

(** The word of the messages, "days" or "schedules", and whether the
    handler of a rejected save calls [console.log()] (line 101; the
    handler of the schedules does not). *)
Variable noun : string.
Variable logs_duplicate : bool.

Definition newline : string := String "010"%char EmptyString.

(** [clearLine(0)] erases the whole line: ESC [ 2 K; [cursorTo(0)] moves
    to the first column: ESC [ 1 G. *)
Definition clear_line : string := String "027"%char "[2K".
Definition cursor_home : string := String "027"%char "[1G".

(** The label of an entry (lines 99 and 106, 261 and 267): the key of the
    document, followed by " (update)" for a query. *)
Definition label (s : State) (e : Entry) : string :=
  match e with
  | ESave i =>
      match saves s !! i with
      | Some (f, _) => key f
      | None => "undefined"
      end
  | EUpdate k _ => k ++ " (update)"
  end.

(** Line 115 (276), written before the [pop] of the last entry [e]. *)
Definition progress (initialLength : nat) (s : State) (e : Entry) : string :=
  JS.NumberToString
    (Some (Z.of_nat initialLength - Z.of_nat (length (promises s)) + 1))
  ++ " / " ++ JS.NumberToString (Some (Z.of_nat initialLength))
  ++ " " ++ noun ++ " saved - Working on " ++ label s e.

(** Line 121 (283). *)
Definition all_saved (initialLength : nat) : string :=
  "All " ++ JS.NumberToString (Some (Z.of_nat initialLength))
  ++ " " ++ noun ++ " saved" ++ newline.

(** What an event writes, from the state [s] before it and the state [s']
    after it. *)
Definition written (initialLength : nat) (ev : Event) (s s' : State) : list string :=
  match ev with
  | LoopTurn =>
      match pop (promises s) with
      | Some (_, e) => [clear_line; cursor_home; progress initialLength s e]
      | None => [clear_line; cursor_home; all_saved initialLength]
      end
  | SaveReply i _ =>
      match saves s' !! i with
      | Some (_, DuplicateKey) => if logs_duplicate then [newline] else []
      | _ => []
      end
  | _ => []
  end.

(** What the events of a run write, one after the other. *)
Fixpoint output (initialLength : nat) (tr : list Event) (s : State) : list string :=
  match tr with
  | [] => []
  | ev :: r =>
      match step ev s with
      | Some s' => (written initialLength ev s s' ++ output initialLength r s')%list
      | None => []
      end
  end.
End Progress.

(** The standard output of [parseAndUpdateDays]: line 54, then the drain;
    [initialLength] is the number of documents. *)
Definition parseAndUpdateDays_output (days : list CSVDay) (c : Collection StoredDay)
  (tr : list Event) : list string :=
  ("Parsing and uploading days..." ++ newline)
  :: output (M := Days) "days" true (length (dayDocuments days)) tr
       (start (M := Days) (dayDocuments days) c).





(** The queries queued or awaited are for keys of the batch. *)
Definition queued_in `{M : Model} (batch : list Fields) (s : State) : Prop :=
  forall k u,
    EUpdate k u ∈ promises s \/ status s = Awaiting (EUpdate k u) ->
    In k (List.map key batch).

(** The number of characters [c] in [s]. *)
Fixpoint count_char (c : ascii) (s : string) : nat :=
  match s with
  | EmptyString => O
  | String x r => ((if Ascii.eqb x c then 1 else 0) + count_char c r)%nat
  end.

(** A four-digit numeral of the years 2000 to 2099 holds no slash and
    parses to its number. *)
Definition year_numeral_check (y : Z) : bool :=
  no_char "/" (JS.decimal (2000 + y))
  && num_is (JS.parseInt (JS.decimal (2000 + y))) (2000 + y).

(** What the collection holds for the saves answered so far, whether or not
    documents of the batch share a key: a document stored under a key of
    the batch holds the fields of some document of the batch with that
    key. *)
Record Settled `{M : Model} (reflects : Fields -> Stored -> Prop) (batch : list Fields)
  (s : State) : Prop := {
  st_fields : List.map fst (saves s) = batch;
  st_saved : forall i f,
    saves s !! i = Some (f, Saved) ->
    exists d g, docs (coll s) !! key f = Some d
                /\ In g batch /\ key g = key f /\ reflects g d;
  st_queued : forall k u,
    EUpdate k u ∈ promises s \/ status s = Awaiting (EUpdate k u) ->
    is_Some (docs (coll s) !! k)
    /\ exists g, In g batch /\ k = key g /\ u = fallback g;
  st_written : forall k u,
    Updated k u ∈ writes s ->
    exists d g, docs (coll s) !! k = Some d /\ In g batch /\ key g = k /\ reflects g d
}.

(** ** Strings: the primitives meet their descriptions *)

Lemma length_append (a b : string) :
  String.length (a ++ b) = (String.length a + String.length b)%nat.
Proof. induction a as [|x a IH]; simpl; [reflexivity | now rewrite IH]. Qed.

Lemma starts_with_spec (p s : string) :
  JS.starts_with p s = true <-> exists t, s = p ++ t.
Proof.
  revert s; induction p as [|a p IH]; intros s; simpl.
  - split; [intros _; now exists s | reflexivity].
  - destruct s as [|b s].
    + split; [discriminate | intros [t Ht]; discriminate].
    + rewrite andb_true_iff, IH, Ascii.eqb_eq. split.
      * intros [-> [t ->]]. now exists t.
      * intros [t Ht]. injection Ht as -> ->. split; [reflexivity | now exists t].
Qed.

Lemma starts_with_append (p t : string) : JS.starts_with p (p ++ t) = true.
Proof. apply starts_with_spec. now exists t. Qed.

Lemma drop_append (p t : string) : JS.drop (String.length p) (p ++ t) = t.
Proof. induction p as [|a p IH]; simpl; [now destruct t | exact IH]. Qed.

Lemma includes_spec (p s : string) : JS.includes p s = true <-> occurs p s.
Proof.
  induction s as [|c s IH].
  - simpl. rewrite orb_false_r, starts_with_spec. split.
    + intros [t Ht]. exists 0%nat, "", t. now split.
    + intros (n & a & t & Ht & _). destruct a; [now exists t | discriminate].
  - cbn [JS.includes]. rewrite orb_true_iff, IH, starts_with_spec. split.
    + intros [[t Ht] | (n & a & t & Ht & Hn)].
      * exists 0%nat, "", t. now split.
      * exists (S n), (String c a), t. simpl. now rewrite Ht, Hn.
    + intros (n & a & t & Ht & Hn). destruct a as [|x a].
      * left. now exists t.
      * right. injection Ht as -> ->. exists (String.length a), a, t. now split.
Qed.

Lemma includes_false (p s : string) : JS.includes p s = false <-> ~ occurs p s.
Proof. rewrite <- includes_spec. now destruct (JS.includes p s). Qed.

(** *** [remove_first] *)

Lemma remove_first_unfold (p s : string) :
  JS.remove_first p s =
  if JS.starts_with p s then JS.drop (String.length p) s
  else match s with
       | EmptyString => EmptyString
       | String c r => String c (JS.remove_first p r)
       end.
Proof. destruct s; reflexivity. Qed.

Lemma remove_first_absent (p s : string) :
  ~ occurs p s -> JS.remove_first p s = s.
Proof.
  induction s as [|c s IH]; intros H; rewrite remove_first_unfold.
  - destruct (JS.starts_with p "") eqn:E; [|reflexivity].
    exfalso. apply H. apply includes_spec. simpl. now rewrite E.
  - destruct (JS.starts_with p (String c s)) eqn:E.
    + exfalso. apply H, includes_spec. cbn [JS.includes]. now rewrite E.
    + f_equal. apply IH. intros (n & a & t & Ht & Hn). apply H.
      exists (S n), (String c a), t. simpl. now rewrite Ht, Hn.
Qed.

Lemma remove_first_leftmost (p a t : string) :
  (forall m, (m < String.length a)%nat -> ~ occurs_at p (a ++ p ++ t) m) ->
  JS.remove_first p (a ++ p ++ t) = a ++ t.
Proof.
  induction a as [|c a IH]; intros H.
  - change ("" ++ p ++ t) with (p ++ t). change ("" ++ t) with t.
    rewrite remove_first_unfold, starts_with_append. apply drop_append.
  - change (String c a ++ p ++ t) with (String c (a ++ p ++ t)) in *.
    rewrite remove_first_unfold.
    destruct (JS.starts_with p (String c (a ++ p ++ t))) eqn:E.
    + exfalso. apply starts_with_spec in E as [u Hu].
      apply (H 0%nat); [simpl; lia|]. exists "", u. split; [exact Hu | reflexivity].
    + change (String c a ++ t) with (String c (a ++ t)). f_equal.
      apply IH. intros m Hm (a' & t' & Ht & Hn).
      apply (H (S m)); [simpl; lia|].
      exists (String c a'), t'. simpl. now rewrite Ht, Hn.
Qed.

(** *** The digits of the day column *)

Lemma exec_digits_none (s : string) :
  no_digit s = true -> JS.exec_digits s = None.
Proof.
  induction s as [|c s IH]; simpl; [reflexivity|].
  unfold no_digit in *. simpl. rewrite andb_true_iff, negb_true_iff.
  intros [-> H]. now apply IH.
Qed.

Lemma take_digits_run (ds r : string) :
  all_digits ds = true -> ends_digits r = true -> JS.take_digits (ds ++ r) = ds.
Proof.
  unfold all_digits. induction ds as [|c ds IH]; simpl.
  - intros _. destruct r as [|x r]; simpl; [reflexivity|].
    rewrite negb_true_iff. now intros ->.
  - rewrite andb_true_iff. intros [-> H] Hr. now rewrite IH.
Qed.

Lemma exec_digits_first_run (p ds r : string) :
  no_digit p = true -> all_digits ds = true -> ds <> "" -> ends_digits r = true ->
  JS.exec_digits (p ++ ds ++ r) = Some ds.
Proof.
  intros Hp Hds Hne Hr. induction p as [|c p IH].
  - destruct ds as [|d ds]; [contradiction|].
    change ("" ++ String d ds ++ r) with (String d (ds ++ r)).
    pose proof (take_digits_run (String d ds) r Hds Hr) as Ht.
    unfold all_digits in Hds. simpl in Hds. apply andb_true_iff in Hds as [Hd _].
    cbn [JS.exec_digits]. rewrite Hd. f_equal. exact Ht.
  - unfold no_digit in Hp. simpl in Hp.
    apply andb_true_iff in Hp as [Hc Hp]. apply negb_true_iff in Hc.
    cbn [append JS.exec_digits]. rewrite Hc. now apply IH.
Qed.

(** Every string has no digit or splits around its first run of digits. *)
Lemma first_run_exists (s : string) :
  no_digit s = true \/
  exists p ds r, s = p ++ ds ++ r /\ no_digit p = true /\ all_digits ds = true
                 /\ ds <> "" /\ ends_digits r = true.
Proof.
  induction s as [|c s IH]; [now left|].
  destruct (JS.is_digit c) eqn:Hc.
  - right. destruct IH as [Hs | (p & ds & r & -> & Hp & Hds & Hne & Hr)].
    + exists "", (String c ""), s. simpl. unfold all_digits. simpl. rewrite Hc.
      repeat split; try easy. destruct s as [|x s]; [reflexivity|].
      unfold no_digit in Hs. simpl in Hs |- *. now apply andb_true_iff in Hs as [-> _].
    + destruct p as [|x p].
      * exists "", (String c ds), r. simpl. unfold all_digits in *. simpl.
        rewrite Hc, Hds. repeat split; easy.
      * exists "", (String c ""), (String x p ++ ds ++ r). simpl.
        unfold all_digits, no_digit in *. simpl in *. rewrite Hc.
        apply andb_true_iff in Hp as [-> _]. repeat split; easy.
  - destruct IH as [Hs | (p & ds & r & -> & Hp & Hds & Hne & Hr)].
    + left. unfold no_digit in *. simpl. now rewrite Hc, Hs.
    + right. exists (String c p), ds, r. unfold no_digit in *. simpl.
      rewrite Hc, Hp. repeat split; easy.
Qed.

(** *** The block letter *)

Lemma block_at_here (s : string) (l : ascii) :
  block_at s 0 l <-> JS.starts_with "Block " s = true
                     /\ (exists t, JS.drop 6 s = String l t) /\ JS.is_upper l = true.
Proof.
  split.
  - intros (a & t & -> & Ha & Hl). destruct a; [|discriminate].
    split; [reflexivity | split; [now exists t | exact Hl]].
  - intros (Hs & [t Ht] & Hl). apply starts_with_spec in Hs as [u ->].
    change 6%nat with (String.length "Block ") in Ht. rewrite drop_append in Ht.
    subst u. exists "", t. split; [reflexivity | split; [reflexivity | exact Hl]].
Qed.

Lemma block_at_tail (c : ascii) (s : string) (n : nat) (l : ascii) :
  block_at (String c s) (S n) l <-> block_at s n l.
Proof.
  split.
  - intros (a & t & Hs & Ha & Hl). destruct a as [|x a]; [discriminate|].
    injection Hs as -> ->. exists a, t. simpl in Ha. split; [reflexivity | split; [lia | exact Hl]].
  - intros (a & t & -> & Ha & Hl). exists (String c a), t. simpl.
    split; [reflexivity | split; [now rewrite Ha | exact Hl]].
Qed.

Lemma exec_block_none (s : string) :
  (forall n l, ~ block_at s n l) -> JS.exec_block s = None.
Proof.
  induction s as [|c s IH]; intros H; [reflexivity|].
  assert (IH' : JS.exec_block s = None).
  { apply IH. intros n l Hb. apply (H (S n) l). now apply block_at_tail. }
  cbn [JS.exec_block].
  destruct (JS.starts_with "Block " (String c s)) eqn:Hs; [|exact IH'].
  destruct (JS.drop 6 (String c s)) as [|l t] eqn:Hd; [exact IH'|].
  destruct (JS.is_upper l) eqn:Hl; [|exact IH'].
  exfalso. apply (H 0%nat l). apply block_at_here. split; [exact Hs | split; [now exists t | exact Hl]].
Qed.

Lemma exec_block_leftmost (a t : string) (l : ascii) :
  JS.is_upper l = true ->
  (forall m l', (m < String.length a)%nat -> ~ block_at (a ++ "Block " ++ String l t) m l') ->
  JS.exec_block (a ++ "Block " ++ String l t) = Some (String l "").
Proof.
  intros Hl. induction a as [|c a IH]; intros H.
  - simpl. now rewrite Hl.
  - change (String c a ++ "Block " ++ String l t)
      with (String c (a ++ "Block " ++ String l t)) in *.
    assert (IH' : JS.exec_block (a ++ "Block " ++ String l t) = Some (String l "")).
    { apply IH. intros m l' Hm Hb. apply (H (S m) l'); [simpl; lia|].
      now apply block_at_tail. }
    cbn [JS.exec_block].
    destruct (JS.starts_with "Block " (String c (a ++ "Block " ++ String l t))) eqn:Hs;
      [|exact IH'].
    destruct (JS.drop 6 (String c (a ++ "Block " ++ String l t))) as [|l' t'] eqn:Hd;
      [exact IH'|].
    destruct (JS.is_upper l') eqn:Hl'; [|exact IH'].
    exfalso. apply (H 0%nat l'); [simpl; lia|]. apply block_at_here.
    split; [exact Hs | split; [now exists t' | exact Hl']].
Qed.

(** *** The parenthesised group of a caption *)

Lemma first_line_single (m r : string) :
  single_line m = true -> JS.first_line (m ++ r) = m ++ JS.first_line r.
Proof.
  unfold single_line. induction m as [|c m IH]; simpl; [reflexivity|].
  rewrite andb_true_iff, negb_true_iff. intros [-> H]. now rewrite IH.
Qed.

Lemma first_line_broken (a r : string) :
  single_line a = false -> JS.first_line (a ++ r) = JS.first_line a.
Proof.
  unfold single_line. induction a as [|c a IH]; simpl; [discriminate|].
  destruct (JS.is_line_terminator c); simpl; [reflexivity|].
  intros H. now rewrite IH.
Qed.

Lemma up_to_last_none (c : ascii) (s : string) :
  no_char c s = true -> JS.up_to_last c s = None.
Proof.
  unfold no_char. induction s as [|x s IH]; simpl; [reflexivity|].
  rewrite andb_true_iff, negb_true_iff. intros [-> H]. now rewrite IH.
Qed.

Lemma up_to_last_found (c : ascii) (m r : string) :
  no_char c r = true -> JS.up_to_last c (m ++ String c r) = Some m.
Proof.
  intros Hr. induction m as [|x m IH]; simpl.
  - rewrite (up_to_last_none _ _ Hr). now rewrite Ascii.eqb_refl.
  - now rewrite IH.
Qed.

Lemma exec_paren_none (s : string) :
  (forall a1 a2, s = a1 ++ "(" ++ a2 -> no_char ")" (JS.first_line a2) = true) ->
  JS.exec_paren s = None.
Proof.
  induction s as [|c s IH]; intros H; [reflexivity|].
  assert (IH' : JS.exec_paren s = None).
  { apply IH. intros a1 a2 ->. apply (H (String c a1) a2). reflexivity. }
  cbn [JS.exec_paren]. destruct (Ascii.eqb c "(") eqn:Hc; [|exact IH'].
  apply Ascii.eqb_eq in Hc as ->.
  rewrite (up_to_last_none _ _ (H "" s eq_refl)). exact IH'.
Qed.

Lemma exec_paren_leftmost (a m t : string) :
  single_line m = true ->
  no_char ")" (JS.first_line t) = true ->
  (forall a1 a2, a = a1 ++ "(" ++ a2 ->
                 single_line a2 = false /\ no_char ")" (JS.first_line a2) = true) ->
  JS.exec_paren (a ++ "(" ++ m ++ ")" ++ t) = Some m.
Proof.
  intros Hm Ht. induction a as [|c a IH]; intros H.
  - change ("" ++ "(" ++ m ++ ")" ++ t) with (String "(" (m ++ String ")" t)).
    cbn [JS.exec_paren]. rewrite Ascii.eqb_refl, first_line_single by exact Hm.
    cbn [JS.first_line]. change (JS.is_line_terminator ")") with false. cbn iota.
    now rewrite up_to_last_found.
  - change (String c a ++ "(" ++ m ++ ")" ++ t)
      with (String c (a ++ "(" ++ m ++ ")" ++ t)).
    assert (IH' : JS.exec_paren (a ++ "(" ++ m ++ ")" ++ t) = Some m).
    { apply IH. intros a1 a2 ->. apply (H (String c a1) a2). reflexivity. }
    cbn [JS.exec_paren]. destruct (Ascii.eqb c "(") eqn:Hc; [|exact IH'].
    apply Ascii.eqb_eq in Hc as ->. destruct (H "" a eq_refl) as [Hb Hn].
    rewrite first_line_broken by exact Hb.
    rewrite (up_to_last_none _ _ Hn). exact IH'.
Qed.

(** ** The identifier of a schedule row *)

(** C8: for a row whose Day field is not "-", the identifier is "US Day "
    followed by the first run of digits of the field, and the sentinel
    "ORPHAN" when the field has no digit; a row whose Day field is "-" takes
    its Block Schedule field as identifier.  Every Day field is of one of
    the two kinds. *)
Theorem generateScheduleIdentifier_spec (event : CSVEvent) :
  (Day event = "-" -> generateScheduleIdentifier event = Block_Schedule event) /\
  (Day event <> "-" ->
   (forall p ds r,
       Day event = p ++ ds ++ r ->
       no_digit p = true -> all_digits ds = true -> ds <> "" -> ends_digits r = true ->
       generateScheduleIdentifier event = "US Day " ++ ds) /\
   (no_digit (Day event) = true -> generateScheduleIdentifier event = "ORPHAN")) /\
  (no_digit (Day event) = true \/
   exists p ds r, Day event = p ++ ds ++ r /\ no_digit p = true /\ all_digits ds = true
                  /\ ds <> "" /\ ends_digits r = true).
Proof.
  unfold generateScheduleIdentifier. split; [|split].
  - intros ->. reflexivity.
  - intros Hne. apply String.eqb_neq in Hne. rewrite Hne. cbn [negb]. split.
    + intros p ds r -> Hp Hds Hnil Hr.
      now rewrite (exec_digits_first_run p ds r Hp Hds Hnil Hr).
    + intros Hn. now rewrite (exec_digits_none _ Hn).
  - apply first_run_exists.
Qed.

(** The example of the specification: "US D4" gives "US Day 4". *)
Lemma generateScheduleIdentifier_US_D4 :
  generateScheduleIdentifier
    {| Description := "Block C - US"; End_Time := "9:45 AM"; Start_Time := "9:00 AM";
       Block_Schedule := "X Day - US"; Day := "US D4" |} = "US Day 4".
Proof.
  refine (proj1 (proj1 (proj2 (generateScheduleIdentifier_spec _)) _)
                "US D" "4" "" _ _ _ _ _); simpl; try reflexivity; discriminate.
Defined.

(** ** The event of a schedule row *)

(** C9, as the specification words it, fails: the description
    "A - US - US" keeps its second " - US", the code removes the first
    occurrence only. *)
Lemma name_as_specified_fails :
  name (generateScheduleEvent
          {| Description := "A - US - US"; End_Time := "2:00 pm";
             Start_Time := "1:00 pm"; Block_Schedule := ""; Day := "D1" |}) = "A - US"
  /\ remove_every " - US" "A - US - US" = "A"
  /\ ~ name_as_specified.
Proof.
  split; [reflexivity | split; [reflexivity|]].
  intros H.
  specialize (H {| Description := "A - US - US"; End_Time := "2:00 pm";
                   Start_Time := "1:00 pm"; Block_Schedule := ""; Day := "D1" |}).
  discriminate H.
Qed.

(** C9, amended: the code of the event is the letter of the leftmost match
    of the pattern (the word Block, a space, an upper-case letter) in the
    description, and the whole description when the pattern does not match;
    the name is the description without its leftmost " - US" (what follows,
    a further " - US" included, is kept), and the description itself when it
    has none; the start and end times are the fields of the row with every
    lower-case letter replaced by its upper-case letter. *)
Theorem generateScheduleEvent_spec (event : CSVEvent) :
  let e := generateScheduleEvent event in
  let d := Description event in
  (forall a l t,
      d = a ++ "Block " ++ String l t -> JS.is_upper l = true ->
      (forall m l', (m < String.length a)%nat -> ~ block_at d m l') ->
      code e = String l "") /\
  ((forall n l, ~ block_at d n l) -> code e = d) /\
  (forall a t,
      d = a ++ " - US" ++ t ->
      (forall m, (m < String.length a)%nat -> ~ occurs_at " - US" d m) ->
      name e = a ++ t) /\
  (~ occurs " - US" d -> name e = d) /\
  list_ascii_of_string (startTime e)
    = List.map JS.upper_char (list_ascii_of_string (Start_Time event)) /\
  list_ascii_of_string (endTime e)
    = List.map JS.upper_char (list_ascii_of_string (End_Time event)).
Proof.
  assert (Hup : forall s, list_ascii_of_string (JS.toUpperCase s)
                          = List.map JS.upper_char (list_ascii_of_string s)).
  { induction s as [|c s IH]; simpl; [reflexivity | now rewrite IH]. }
  cbn zeta. unfold generateScheduleEvent. cbn [code name startTime endTime].
  split; [|split; [|split; [|split; [|split]]]].
  - intros a l t Hd Hl Hleft. rewrite Hd in Hleft |- *.
    now rewrite (exec_block_leftmost a t l Hl Hleft).
  - intros Hnone. now rewrite (exec_block_none _ Hnone).
  - intros a t Hd Hleft. rewrite Hd in Hleft |- *.
    now apply remove_first_leftmost.
  - apply remove_first_absent.
  - apply Hup.
  - apply Hup.
Qed.

Lemma generateScheduleEvent_Block_C :
  let e := generateScheduleEvent
             {| Description := "Block C - US"; End_Time := "9:45 am";
                Start_Time := "9:00 am"; Block_Schedule := "X Day - US"; Day := "-" |} in
  code e = "C" /\ name e = "Block C".
Proof.
  pose proof (generateScheduleEvent_spec
                {| Description := "Block C - US"; End_Time := "9:45 am";
                   Start_Time := "9:00 am"; Block_Schedule := "X Day - US";
                   Day := "-" |}) as (Hcode & _ & Hname & _).
  split.
  - apply (Hcode "" "C"%char " - US"); [reflexivity | reflexivity |].
    intros m l' Hm. simpl in Hm. lia.
  - apply (Hname "Block C" ""); [reflexivity|].
    intros m Hm (a & t & Ht & Ha). simpl in Hm.
    cbn [Description] in Ht.
    do 7 (destruct a as [|? a]; [discriminate Ht|]; injection Ht as _ Ht;
          simpl in Ha; destruct m as [|m]; [discriminate Ha|]; injection Ha as Ha);
    lia.
Defined.

(** ** The date key *)

Lemma range_In (lo : Z) (n : nat) (z : Z) :
  lo <= z < lo + Z.of_nat n -> In z (range lo n).
Proof.
  intros H. unfold range. apply in_map_iff. exists (Z.to_nat (z - lo)). split.
  - lia.
  - apply in_seq. lia.
Qed.

Lemma split_field (sep : ascii) (a r : string) :
  no_char sep a = true -> JS.split sep (a ++ String sep r) = a :: JS.split sep r.
Proof.
  unfold no_char. induction a as [|c a IH]; simpl.
  - intros _. now rewrite Ascii.eqb_refl.
  - rewrite andb_true_iff, negb_true_iff. intros [-> H]. now rewrite IH.
Qed.

Lemma split_whole (sep : ascii) (a : string) :
  no_char sep a = true -> JS.split sep a = [a].
Proof.
  unfold no_char. induction a as [|c a IH]; simpl; [reflexivity|].
  rewrite andb_true_iff, negb_true_iff. intros [-> H]. now rewrite IH.
Qed.

Lemma numerals_checked : forallb numeral_check (range 0 100) = true.
Proof. vm_compute. reflexivity. Qed.

Lemma numeral_parses (n : Z) (f : string) :
  0 <= n <= 99 -> In f (numerals n) ->
  no_char "/" f = true /\ JS.parseInt f = Some n.
Proof.
  intros Hn Hf. pose proof numerals_checked as H.
  rewrite forallb_forall in H. specialize (H n (range_In 0 100 n ltac:(lia))).
  unfold numeral_check in H. rewrite forallb_forall in H. specialize (H f Hf).
  apply andb_true_iff in H as [Hs Hp]. split; [exact Hs|].
  destruct (JS.parseInt f) as [v|]; simpl in Hp; [|discriminate].
  apply Z.eqb_eq in Hp. now subst.
Qed.

Lemma century_checked :
  forallb (fun y =>
    forallb (fun m =>
      forallb (fun d => date_check y m d)
              (range 1 (Z.to_nat (JSDate.days_in_month (2000 + y) m))))
            (range 1 12))
          (range 0 100) = true.
Proof. vm_compute. reflexivity. Qed.

Lemma date_checked (y m d : Z) : calendar_date y m d -> date_check y m d = true.
Proof.
  intros (Hy & Hm & Hd). pose proof century_checked as H.
  rewrite forallb_forall in H. specialize (H y (range_In 0 100 y ltac:(lia))).
  rewrite forallb_forall in H. specialize (H m (range_In 1 12 m ltac:(lia))).
  rewrite forallb_forall in H. apply H. apply range_In. lia.
Qed.

(** C5, amended: for a date of the calendar written MM/DD/YY (the month
    from 1 to 12, the day from 1 to the number of days that this month has
    in the year 2000 + YY, YY from 00 to 99, each field with or without its
    leading zero), the key built from the parsed date is M-D-YY with the
    same month and day, un-padded, and the same two-digit year; the parsed
    date is that day of the year 2000 + YY. *)
Theorem date_key_roundtrip (y m d : Z) (fm fd fy : string) :
  calendar_date y m d ->
  In fm (numerals m) -> In fd (numerals d) -> In fy (numerals y) ->
  let date := parseVeracrossDate (fm ++ "/" ++ fd ++ "/" ++ fy) in
  generateWAFormatDate date = date_key y m d
  /\ JSDate.getFullYear date = Some (2000 + y)
  /\ JSDate.getMonth date = Some (m - 1)
  /\ JSDate.getDate date = Some d.
Proof.
  intros Hdate Hm Hd Hy.
  assert (Hbound : 1 <= d <= 31).
  { destruct Hdate as (_ & Hmm & Hdd). split; [lia|].
    assert (JSDate.days_in_month (2000 + y) m <= 31); [|lia].
    unfold JSDate.days_in_month.
    destruct (JSDate.InLeapYear (2000 + y));
      assert (m = 1 \/ m = 2 \/ m = 3 \/ m = 4 \/ m = 5 \/ m = 6 \/ m = 7 \/ m = 8
              \/ m = 9 \/ m = 10 \/ m = 11 \/ m = 12) as Hcase by lia;
      repeat (destruct Hcase as [-> | Hcase]; [vm_compute; discriminate|]);
      subst m; vm_compute; discriminate. }
  destruct (numeral_parses m fm ltac:(destruct Hdate; lia) Hm) as [Hsm Hpm].
  destruct (numeral_parses d fd ltac:(lia) Hd) as [Hsd Hpd].
  destruct (numeral_parses y fy ltac:(destruct Hdate; lia) Hy) as [Hsy Hpy].
  assert (Hparse : parseVeracrossDate (fm ++ "/" ++ fd ++ "/" ++ fy)
                   = JSDate.new_Date (JS.num_add (Some y) (Some 2000))
                                     (JS.num_sub (Some m) (Some 1)) (Some d)).
  { unfold parseVeracrossDate.
    change (fm ++ "/" ++ fd ++ "/" ++ fy) with (fm ++ String "/" (fd ++ String "/" fy)).
    rewrite (split_field _ _ _ Hsm), (split_field _ _ _ Hsd), (split_whole _ _ Hsy).
    cbn [List.map num_at nth_error]. now rewrite Hpm, Hpd, Hpy. }
  cbn zeta. rewrite Hparse.
  pose proof (date_checked y m d Hdate) as H. unfold date_check in H.
  destruct (JSDate.new_Date (JS.num_add (Some y) (Some 2000))
                            (JS.num_sub (Some m) (Some 1)) (Some d)) as [|day];
    [discriminate H|].
  unfold generateWAFormatDate, date_key, JSDate.getFullYear, JSDate.getMonth, JSDate.getDate.
  destruct (JSDate.civil day) as [[yy mm] dd]. cbn [fst snd].
  repeat rewrite andb_true_iff in H. destruct H as [[Hyear Hmonth] Hday].
  apply Z.eqb_eq in Hyear, Hmonth, Hday. subst yy mm dd.
  split; [|split; [reflexivity | split; reflexivity]].
  cbn [JS.num_add JS.num_rem JS.NumberToString]. change (100 =? 0) with false. cbv iota.
  replace (m - 1 + 1) with m by lia.
  replace (Z.rem (2000 + y) 100) with y; [reflexivity|].
  destruct Hdate as (Hy' & _). rewrite Z.rem_mod_nonneg by lia.
  apply (Z.mod_unique_pos _ _ 20); lia.
Qed.

(** 09/05/24 gives the key 9-5-24; 12/31/99 gives 12-31-99. *)
Lemma date_key_roundtrip_example :
  generateWAFormatDate (parseVeracrossDate "09/05/24") = "9-5-24".
Proof.
  refine (proj1 (date_key_roundtrip 24 9 5 "09" "05" "24" _ _ _ _)).
  - unfold calendar_date. vm_compute. intuition discriminate.
  - simpl. right. left. reflexivity.
  - simpl. right. left. reflexivity.
  - simpl. left. reflexivity.
Defined.

(** C5, as the specification words it, fails: the day 31 is within 1-31,
    and [Date] rolls a day that the month does not have over into the next
    month, so that 02/31/24 is keyed as the second of March, the key of
    03/02/24. *)
Lemma date_key_as_specified_fails :
  generateWAFormatDate (parseVeracrossDate "02/31/24") = "3-2-24"
  /\ generateWAFormatDate (parseVeracrossDate "03/02/24") = "3-2-24"
  /\ date_key 24 2 31 = "2-31-24"
  /\ ~ date_key_as_specified.
Proof.
  split; [vm_compute; reflexivity|]. split; [vm_compute; reflexivity|].
  split; [vm_compute; reflexivity|].
  intros H.
  specialize (H 24 2 31 "02" "31" "24").
  assert (Hkey : generateWAFormatDate (parseVeracrossDate "02/31/24") = date_key 24 2 31).
  { apply H; try lia.
    - simpl. right. left. reflexivity.
    - simpl. left. reflexivity.
    - simpl. left. reflexivity. }
  vm_compute in Hkey. discriminate Hkey.
Qed.

(** ** The record of a day row *)

(** C4, as the specification words it, fails.  A group that spans two lines
    is present and the caption stays unchanged; and of two groups on a line
    the code takes the text from the first opening to the last closing
    parenthesis. *)
Lemma schedule_as_specified_fails :
  ~ schedule_as_specified
  /\ dayDocument {| Event_Date := "9/5/24"; Event_Caption := "A (b) (c)";
                    Event_Description := "" |}
     = Some {| day_schedule := "b) (c"; day_date := "9-5-24" |}.
Proof.
  split; [|vm_compute; reflexivity].
  intros H.
  set (caption := "A (b" ++ String "010"%char "c)").
  destruct (H {| Event_Date := "9/5/24"; Event_Caption := caption; Event_Description := "" |}
              {| day_schedule := caption; day_date := "9-5-24" |}) as [Hgroup _].
  { vm_compute. reflexivity. }
  cbn [Event_Caption day_schedule] in Hgroup.
  destruct Hgroup as (a & t & Heq).
  { exists ("b" ++ String "010"%char "c"), "A ", "". reflexivity. }
  apply (f_equal String.length) in Heq.
  rewrite !length_append in Heq. simpl in Heq. lia.
Qed.

(** C4, amended: a row whose caption contains "Semester" gives no record.
    Any other row gives one record; its date is the key built from the
    parsed Event Date; its schedule is the text between the leftmost opening
    parenthesis of the caption that is followed on its line by a closing
    one and the last closing parenthesis of that line, and the caption
    unchanged when no opening parenthesis is followed on its line by a
    closing one. *)
Theorem dayDocument_spec (day : CSVDay) :
  let caption := Event_Caption day in
  (occurs "Semester" caption -> dayDocument day = None) /\
  (~ occurs "Semester" caption ->
   exists f,
     dayDocument day = Some f
     /\ day_date f = generateWAFormatDate (parseVeracrossDate (Event_Date day))
     /\ (forall a m t,
            caption = a ++ "(" ++ m ++ ")" ++ t ->
            single_line m = true ->
            no_char ")" (JS.first_line t) = true ->
            (forall a1 a2, a = a1 ++ "(" ++ a2 ->
                           single_line a2 = false /\ no_char ")" (JS.first_line a2) = true) ->
            day_schedule f = m)
     /\ ((forall a1 a2, caption = a1 ++ "(" ++ a2 -> no_char ")" (JS.first_line a2) = true) ->
         day_schedule f = caption)).
Proof.
  cbn zeta. unfold dayDocument. split.
  - intros H. apply includes_spec in H. now rewrite H.
  - intros H. apply includes_false in H. rewrite H.
    eexists. split; [reflexivity|]. cbn [day_date day_schedule]. split; [reflexivity|].
    unfold caption_schedule. split.
    + intros a m t -> Hm Ht Ha. now rewrite (exec_paren_leftmost a m t Hm Ht Ha).
    + intros Hnone. now rewrite (exec_paren_none _ Hnone).
Qed.

(** The rows of the specification: "US Day 2" on 9/5/24 is stored as it is,
    "US Day 2 (X Day - US)" as "X Day - US". *)
Lemma dayDocument_examples :
  (exists f, dayDocument {| Event_Date := "9/5/24"; Event_Caption := "US Day 2";
                            Event_Description := "" |} = Some f
             /\ day_date f = "9-5-24" /\ day_schedule f = "US Day 2")
  /\ (exists f, dayDocument {| Event_Date := "9/5/24";
                               Event_Caption := "US Day 2 (X Day - US)";
                               Event_Description := "" |} = Some f
                /\ day_schedule f = "X Day - US").
Proof.
  split.
  - destruct (proj2 (dayDocument_spec {| Event_Date := "9/5/24"; Event_Caption := "US Day 2";
                                         Event_Description := "" |}))
      as (f & Hf & Hdate & _ & Hplain).
    { apply includes_false. reflexivity. }
    exists f. split; [exact Hf | split].
    + rewrite Hdate. vm_compute. reflexivity.
    + apply Hplain. intros a1 a2 Heq. exfalso. cbn [Event_Caption] in Heq.
      do 8 (destruct a1 as [|? a1]; [discriminate Heq | injection Heq as _ Heq]).
      destruct a1; discriminate Heq.
  - destruct (proj2 (dayDocument_spec {| Event_Date := "9/5/24";
                                         Event_Caption := "US Day 2 (X Day - US)";
                                         Event_Description := "" |}))
      as (f & Hf & _ & Hgroup & _).
    { apply includes_false. reflexivity. }
    exists f. split; [exact Hf|].
    apply (Hgroup "US Day 2 " "X Day - US" ""); try reflexivity.
    intros a1 a2 Heq. exfalso.
    do 9 (destruct a1 as [|? a1]; [discriminate Heq | injection Heq as _ Heq]).
    destruct a1; discriminate Heq.
Defined.

(** ** The groups of a schedules file *)

(** C1: on the rows of the specification's own example the code does not
    give the order the claim states.  The comparator adds 12 to the hours of
    the afternoon but leaves the hour 12 of "12:30 AM" as it is, so the
    half hour after midnight sorts after noon: the events come out as
    9:00 AM, 12:00 PM, 12:30 AM, 1:15 PM. *)
Theorem sort_example_midnight :
  let row := fun start =>
    {| Description := "Block A - US"; End_Time := ""; Start_Time := start;
       Block_Schedule := "X Day - US"; Day := "US D1" |} in
  sort_hour (JS.split " " "12:30 AM") = Some 12
  /\ (exists g,
        scheduleDocuments [row "1:15 PM"; row "9:00 AM"; row "12:00 PM"; row "12:30 AM"]
        = Returns [g]
        /\ s_name g = "US Day 1"
        /\ List.map startTime (s_schedule g)
           = ["9:00 AM"; "12:00 PM"; "12:30 AM"; "1:15 PM"])
  /\ ["9:00 AM"; "12:00 PM"; "12:30 AM"; "1:15 PM"]
     <> ["12:30 AM"; "9:00 AM"; "12:00 PM"; "1:15 PM"].
Proof.
  cbn zeta. split; [reflexivity | split; [|discriminate]].
  eexists. split; [vm_compute; reflexivity|]. split; reflexivity.
Qed.

(** C2: a row whose Day field has no digit is grouped under "ORPHAN", the
    loop of lines 232 to 270 saves every group of the object, and after a
    run without fault the collection holds a document named "ORPHAN". *)
Theorem orphan_group_is_saved :
  let rows := [ {| Description := "Assembly"; End_Time := "9:45 am";
                   Start_Time := "9:00 am"; Block_Schedule := "X Day - US";
                   Day := "abc" |} ] in
  (exists g, scheduleDocuments rows = Returns [g] /\ s_name g = "ORPHAN")
  /\ match parseAndUpdateSchedules rows empty_collection
             [LoopTurn; SaveReply 0 None; SaveSettled; LoopTurn] with
     | Some (Returns _, c) => option_map ss_name (findOne (M := Schedules) "ORPHAN" c)
     | _ => None
     end = Some "ORPHAN".
Proof.
  cbn zeta. split.
  - eexists. split; [vm_compute; reflexivity | reflexivity].
  - vm_compute. reflexivity.
Qed.

(** C3: what the function returns are the events built by
    [generateScheduleEvent] for the group "ORPHAN", sorted by start time,
    not the rows of the file: the objects have the fields name, code,
    startTime and endTime, the name and the times differ from the columns
    of the row, and a row whose Day field is "-" and whose Block Schedule is
    "ORPHAN" is among them. *)
Theorem warnings_are_mapped_events :
  let rows := [ {| Description := "Block C - US"; End_Time := "2:00 pm";
                   Start_Time := "1:00 pm"; Block_Schedule := ""; Day := "abc" |};
                {| Description := "Lunch"; End_Time := "12:00 pm";
                   Start_Time := "11:00 am"; Block_Schedule := "ORPHAN"; Day := "-" |} ] in
  match parseAndUpdateSchedules rows empty_collection
          [LoopTurn; SaveReply 0 None; SaveSettled; LoopTurn] with
  | Some (Returns warnings, _) => Some warnings
  | _ => None
  end
  = Some [ {| name := "Lunch"; code := "Lunch";
              startTime := "11:00 AM"; endTime := "12:00 PM" |};
           {| name := "Block C"; code := "C";
              startTime := "1:00 PM"; endTime := "2:00 PM" |} ].
Proof.
  cbn zeta. vm_compute. reflexivity.
Qed.

(** ** The order of the events of a group *)

Section SortFacts.
Context {A : Type}.
Variable compare : A -> A -> JS.Num.
Variable P : A -> Prop.
Variable le : A -> A -> Prop.
Hypothesis le_trans : forall a b c, P a -> P b -> P c -> le a b -> le b c -> le a c.
Hypothesis le_total : forall a b, P a -> P b -> le a b \/ le b a.
Hypothesis le_after : forall a b, P a -> P b -> (le a b <-> comes_after compare a b = false).

Lemma sort_insert_Permutation (x : A) (l : list A) :
  Permutation (x :: l) (sort_insert compare x l).
Proof.
  induction l as [|y l IH]; simpl; [reflexivity|].
  destruct (comes_after compare x y); [|reflexivity].
  rewrite perm_swap. now apply perm_skip.
Qed.

Lemma Array_sort_Permutation (l : list A) : Permutation l (Array_sort compare l).
Proof.
  induction l as [|x l IH]; simpl; [reflexivity|].
  rewrite <- sort_insert_Permutation. now apply perm_skip.
Qed.

Lemma sort_insert_Forall (Q : A -> Prop) (x : A) (l : list A) :
  Q x -> List.Forall Q l -> List.Forall Q (sort_insert compare x l).
Proof.
  intros Hx Hl. eapply Permutation_Forall; [apply sort_insert_Permutation|].
  now constructor.
Qed.

Lemma sort_insert_sorted (x : A) (l : list A) :
  P x -> List.Forall P l -> StronglySorted le l ->
  StronglySorted le (sort_insert compare x l).
Proof.
  intros Hx Hl Hs. induction Hs as [|y l Hs IH Hy]; simpl.
  - constructor; constructor.
  - apply Forall_cons_iff in Hl as [Py Pl].
    destruct (comes_after compare x y) eqn:Hc.
    + constructor; [now apply IH|].
      apply sort_insert_Forall; [|exact Hy].
      destruct (le_total x y Hx Py) as [Hxy | Hyx]; [|exact Hyx].
      apply le_after in Hxy; [congruence | assumption..].
    + assert (Hxy : le x y) by now apply le_after.
      constructor; [now constructor|]. constructor; [exact Hxy|].
      rewrite List.Forall_forall in Hy, Pl |- *. intros z Hz.
      apply (le_trans x y z); auto.
Qed.

Lemma Array_sort_sorted (l : list A) :
  List.Forall P l -> StronglySorted le (Array_sort compare l).
Proof.
  induction l as [|x l IH]; simpl; intros Hl; [constructor|].
  apply Forall_cons_iff in Hl as [Px Pl].
  apply sort_insert_sorted; [exact Px| |now apply IH].
  eapply Permutation_Forall; [apply Array_sort_Permutation | exact Pl].
Qed.

(** Stability: the elements that a test selects keep their order, when the
    test selects elements that the order does not tell apart. *)
Lemma sort_insert_stable (Q : A -> bool) (x : A) (l : list A) :
  P x -> List.Forall P l ->
  (forall a b, P a -> P b -> Q a = true -> Q b = true -> le a b) ->
  List.filter Q (sort_insert compare x l) = List.filter Q (x :: l).
Proof.
  intros Px Pl Hq. induction l as [|y l IH]; [reflexivity|].
  apply Forall_cons_iff in Pl as [Py Pl]. cbn [sort_insert].
  destruct (comes_after compare x y) eqn:Hc; [|reflexivity].
  cbn [List.filter] in *. rewrite (IH Pl).
  destruct (Q x) eqn:Qx; [|reflexivity].
  destruct (Q y) eqn:Qy; [|reflexivity].
  exfalso. pose proof (Hq x y Px Py Qx Qy) as Hxy.
  apply le_after in Hxy; [congruence | assumption..].
Qed.

Lemma Array_sort_stable (Q : A -> bool) (l : list A) :
  List.Forall P l ->
  (forall a b, P a -> P b -> Q a = true -> Q b = true -> le a b) ->
  List.filter Q (Array_sort compare l) = List.filter Q l.
Proof.
  intros Pl Hq. induction l as [|x l IH]; [reflexivity|].
  apply Forall_cons_iff in Pl as [Px Pl]. cbn [Array_sort].
  rewrite sort_insert_stable; [|exact Px| |exact Hq].
  - cbn [List.filter]. now rewrite (IH Pl).
  - eapply Permutation_Forall; [apply Array_sort_Permutation | exact Pl].
Qed.
End SortFacts.

(** *** The comparator of the source on start times that parse *)

Lemma key_le_trans (a b c : Z * Z) : key_le a b -> key_le b c -> key_le a c.
Proof. unfold key_le. lia. Qed.

Lemma key_le_total (a b : Z * Z) : key_le a b \/ key_le b a.
Proof. unfold key_le. lia. Qed.

Lemma compare_startTime_key (a b : ScheduleEvent) (ka kb : Z * Z) :
  sort_key a = Some ka -> sort_key b = Some kb ->
  (key_le ka kb <-> comes_after compare_startTime a b = false).
Proof.
  unfold sort_key, comes_after, compare_startTime, key_le.
  destruct (sort_hour (JS.split " " (startTime a))) as [h1|]; [|discriminate].
  destruct (clock_field (JS.split " " (startTime a)) 1) as [m1|]; [|discriminate].
  destruct (sort_hour (JS.split " " (startTime b))) as [h2|]; [|discriminate].
  destruct (clock_field (JS.split " " (startTime b)) 1) as [m2|]; [|discriminate].
  intros [= <-] [= <-]. cbn [fst snd JS.num_neq JS.num_sub].
  destruct (h1 =? h2) eqn:Hh; cbn [negb].
  - apply Z.eqb_eq in Hh. rewrite Z.ltb_ge. lia.
  - apply Z.eqb_neq in Hh. rewrite Z.ltb_ge. lia.
Qed.


Lemma clocks_checked :
  forallb (fun h => forallb (fun m => clock_check h m) (range 0 60)) (range 0 24) = true.
Proof. vm_compute. reflexivity. Qed.

Lemma starts_on_sort_key (e : ScheduleEvent) (k : Z * Z) :
  starts_on e k -> sort_key e = Some k.
Proof.
  intros (h & m & pm & Hh & Hm & (fh & fm & Hfh & Hfm & Hs) & ->).
  pose proof clocks_checked as H.
  rewrite forallb_forall in H. specialize (H h (range_In 0 24 h ltac:(lia))).
  rewrite forallb_forall in H. specialize (H m (range_In 0 60 m ltac:(lia))).
  unfold clock_check in H.
  rewrite forallb_forall in H. specialize (H pm ltac:(destruct pm; simpl; tauto)).
  rewrite forallb_forall in H. specialize (H fh Hfh).
  rewrite forallb_forall in H. specialize (H fm Hfm).
  unfold sort_key in H |- *. cbn [startTime] in H. rewrite Hs.
  destruct (sort_hour _) as [hh|]; [|discriminate H].
  destruct (clock_field _ 1) as [mm|]; [|discriminate H].
  apply andb_true_iff in H as [H1 H2]. apply Z.eqb_eq in H1, H2. cbn [fst snd] in H1, H2.
  rewrite (surjective_pairing (clock_key h m pm)). congruence.
Qed.

Lemma no_later_trans (a b c : ScheduleEvent) :
  no_later a b -> no_later b c -> no_later a c.
Proof.
  intros (ka & kb & Ha & Hb & Hab) (kb' & kc & Hb' & Hc & Hbc).
  assert (kb' = kb).
  { apply starts_on_sort_key in Hb, Hb'. congruence. }
  subst kb'. exists ka, kc. split; [exact Ha|]. split; [exact Hc|].
  eapply key_le_trans; eauto.
Qed.

Lemma no_later_total (a b : ScheduleEvent) :
  on_the_clock a -> on_the_clock b -> no_later a b \/ no_later b a.
Proof.
  intros [ka Ha] [kb Hb]. destruct (key_le_total ka kb); [left | right]; red; eauto.
Qed.

Lemma no_later_compare (a b : ScheduleEvent) :
  on_the_clock a -> on_the_clock b ->
  (no_later a b <-> comes_after compare_startTime a b = false).
Proof.
  intros [ka Ha] [kb Hb].
  rewrite <- (compare_startTime_key a b ka kb)
    by (now apply starts_on_sort_key). split.
  - intros (ka' & kb' & Ha' & Hb' & Hle).
    apply starts_on_sort_key in Ha, Ha', Hb, Hb'. congruence.
  - intros Hle. red. eauto.
Qed.

(** X1: the events of a group that all start at a time of the clock (an
    hour from 0 to 23, a colon, a minute from 0 to 59, a space and AM or PM)
    are, after line 235, the same events in ascending order of the pair
    (hour, minute), where 12 is added to the hours of the afternoon other
    than 12 and the hour 12 of the night stays 12, so the half hour after
    midnight comes after noon.  Events with the same pair keep the order of
    the rows. *)
Theorem sort_schedule_spec (g : Schedule) :
  List.Forall on_the_clock (s_schedule g) ->
  let sorted := s_schedule (sort_schedule g) in
  Permutation (s_schedule g) sorted
  /\ StronglySorted no_later sorted
  /\ forall (Q : ScheduleEvent -> bool) (k : Z * Z),
       (forall e, In e (s_schedule g) -> Q e = true -> starts_on e k) ->
       List.filter Q sorted = List.filter Q (s_schedule g).
Proof.
  intros Hclock. cbn zeta. cbn [sort_schedule s_schedule].
  split; [apply Array_sort_Permutation | split].
  - apply (Array_sort_sorted compare_startTime on_the_clock no_later).
    + intros a b c _ _ _. apply no_later_trans.
    + apply no_later_total.
    + apply no_later_compare.
    + exact Hclock.
  - intros Q k Hk.
    set (P := fun e => on_the_clock e /\ (Q e = true -> starts_on e k)).
    apply (Array_sort_stable compare_startTime P no_later).
    + intros a b [Ha _] [Hb _]. now apply no_later_compare.
    + rewrite List.Forall_forall in Hclock |- *. intros e He. split; [auto|].
      now apply Hk.
    + intros a b [_ Ha] [_ Hb] Qa Qb. exists k, k.
      split; [auto|]. split; [auto|]. unfold key_le. lia.
Qed.

(** The example of the specification: the four events are put in the order
    9:00 AM, 12:00 PM, 12:30 AM, 1:15 PM, which is ascending for the pairs
    (9, 0), (12, 0), (12, 30), (13, 15). *)
Lemma sort_schedule_example :
  let ev := fun start => {| name := "Block A"; code := "A"; startTime := start;
                            endTime := "" |} in
  let g := {| s_name := "US Day 1"; s_friendlyName := "US Day 1";
              s_schedule := [ev "1:15 PM"; ev "9:00 AM"; ev "12:00 PM"; ev "12:30 AM"] |} in
  List.map startTime (s_schedule (sort_schedule g))
  = ["9:00 AM"; "12:00 PM"; "12:30 AM"; "1:15 PM"]
  /\ starts_on (ev "12:30 AM") (12, 30) /\ starts_on (ev "12:00 PM") (12, 0)
  /\ StronglySorted no_later (s_schedule (sort_schedule g)).
Proof.
  intros ev g.
  assert (H1 : starts_on (ev "1:15 PM") (13, 15)).
  { exists 1, 15, true. split; [lia|]. split; [lia|]. split; [|reflexivity].
    exists "1", "15". split; [now left|]. split; [now left | reflexivity]. }
  assert (H2 : starts_on (ev "9:00 AM") (9, 0)).
  { exists 9, 0, false. split; [lia|]. split; [lia|]. split; [|reflexivity].
    exists "9", "00". split; [now left|]. split; [right; now left | reflexivity]. }
  assert (H3 : starts_on (ev "12:00 PM") (12, 0)).
  { exists 12, 0, true. split; [lia|]. split; [lia|]. split; [|reflexivity].
    exists "12", "00". split; [now left|]. split; [right; now left | reflexivity]. }
  assert (H4 : starts_on (ev "12:30 AM") (12, 30)).
  { exists 12, 30, false. split; [lia|]. split; [lia|]. split; [|reflexivity].
    exists "12", "30". split; [now left|]. split; [now left | reflexivity]. }
  split; [vm_compute; reflexivity|]. split; [exact H4|]. split; [exact H3|].
  refine (proj1 (proj2 (sort_schedule_spec g _))).
  cbn [s_schedule g]. repeat constructor; red; eauto.
Defined.

(** ** The groups and what the function returns *)

Lemma own_property_push (o : Schedules_object) (k k' : string) (x : ScheduleEvent) :
  own_property (push_event o k x) k'
  = match own_property o k' with
    | Some g => if String.eqb k k'
                then Some {| s_name := s_name g; s_friendlyName := s_friendlyName g;
                             s_schedule := (s_schedule g ++ [x])%list |}
                else Some g
    | None => None
    end.
Proof.
  induction o as [|[k0 g0] o IH]; simpl; [reflexivity|].
  destruct (String.eqb k0 k) eqn:E0.
  - apply String.eqb_eq in E0 as ->. simpl.
    destruct (String.eqb k k') eqn:E; [reflexivity|]. now destruct (own_property o k').
  - simpl. destruct (String.eqb k0 k') eqn:E1.
    + apply String.eqb_eq in E1 as ->. rewrite String.eqb_sym, E0. reflexivity.
    + exact IH.
Qed.

Lemma own_property_app (o : Schedules_object) (k k' : string) (g : Schedule) :
  own_property (o ++ [(k, g)])%list k'
  = match own_property o k' with
    | Some g' => Some g'
    | None => if String.eqb k k' then Some g else None
    end.
Proof.
  induction o as [|[k0 g0] o IH]; simpl; [reflexivity|].
  destruct (String.eqb k0 k'); [reflexivity | exact IH].
Qed.

Lemma rows_of_app (k : string) (l1 l2 : list CSVEvent) :
  rows_of k (l1 ++ l2)%list = (rows_of k l1 ++ rows_of k l2)%list.
Proof. apply List.filter_app. Qed.

Lemma group_of_snoc (seen : list CSVEvent) (e : CSVEvent) (k : string) :
  group_of (seen ++ [e])%list k
  = if String.eqb (generateScheduleIdentifier e) k
    then Some {| s_name := k;
                 s_friendlyName := JS.remove_first " - US" k;
                 s_schedule := (List.map generateScheduleEvent (rows_of k seen)
                                ++ [generateScheduleEvent e])%list |}
    else group_of seen k.
Proof.
  unfold group_of. rewrite rows_of_app.
  assert (Hlast : rows_of k [e]
                  = if String.eqb (generateScheduleIdentifier e) k then [e] else [])
    by reflexivity.
  rewrite Hlast. destruct (String.eqb (generateScheduleIdentifier e) k).
  - destruct (rows_of k seen) as [|r rs]; [reflexivity|].
    simpl. now rewrite List.map_app.
  - now rewrite app_nil_r.
Qed.

Lemma group_of_Some (seen : list CSVEvent) (k : string) (g : Schedule) :
  group_of seen k = Some g ->
  g = {| s_name := k; s_friendlyName := JS.remove_first " - US" k;
         s_schedule := List.map generateScheduleEvent (rows_of k seen) |}
  /\ rows_of k seen <> [].
Proof.
  unfold group_of. destruct (rows_of k seen); [discriminate|].
  intros [= <-]. split; [reflexivity | discriminate].
Qed.

Lemma group_of_None (seen : list CSVEvent) (k : string) :
  group_of seen k = None -> rows_of k seen = [].
Proof. unfold group_of. now destruct (rows_of k seen). Qed.

Lemma group_event_Grouped (seen : list CSVEvent) (o o' : Schedules_object)
  (e : CSVEvent) :
  Grouped seen o -> group_event o e = Returns o' -> Grouped (seen ++ [e])%list o'.
Proof.
  intros Hg. unfold group_event, get_property.
  destruct (own_property o (generateScheduleIdentifier e)) as [g|] eqn:Hown;
    rewrite (Hg _) in Hown.
  - intros [= <-] k. rewrite own_property_push, (Hg k), group_of_snoc.
    destruct (String.eqb (generateScheduleIdentifier e) k) eqn:E.
    + apply String.eqb_eq in E as <-. rewrite Hown.
      apply group_of_Some in Hown as [-> _]. reflexivity.
    + now destruct (group_of seen k).
  - destruct (inherited_key (generateScheduleIdentifier e)); [discriminate|].
    intros [= <-] k. rewrite own_property_app, (Hg k), group_of_snoc.
    destruct (String.eqb (generateScheduleIdentifier e) k) eqn:E.
    + apply String.eqb_eq in E as <-. rewrite Hown.
      apply group_of_None in Hown as ->. reflexivity.
    + now destruct (group_of seen k).
Qed.

Lemma group_events_Grouped (seen events : list CSVEvent) (o o' : Schedules_object) :
  Grouped seen o -> group_events o events = Returns o' ->
  Grouped (seen ++ events)%list o'.
Proof.
  revert seen o. induction events as [|e events IH]; intros seen o Hg; simpl.
  - intros [= <-]. now rewrite app_nil_r.
  - destruct (group_event o e) as [o1|] eqn:He; [|discriminate].
    intros Hrest. replace (seen ++ e :: events)%list with ((seen ++ [e]) ++ events)%list
      by now rewrite <- app_assoc.
    eapply IH; [|exact Hrest]. eapply group_event_Grouped; eauto.
Qed.

Lemma group_events_spec (events : list CSVEvent) (o : Schedules_object) :
  group_events [] events = Returns o -> Grouped events o.
Proof.
  intros H. apply (group_events_Grouped [] events [] o); [|exact H].
  intros k. reflexivity.
Qed.

(** *** The keys of the object *)

Lemma own_property_In (o : Schedules_object) (k : string) (g : Schedule) :
  own_property o k = Some g -> In (k, g) o.
Proof.
  induction o as [|[k0 g0] o IH]; simpl; [discriminate|].
  destruct (String.eqb k0 k) eqn:E.
  - apply String.eqb_eq in E as ->. intros [= ->]. now left.
  - intros H. right. now apply IH.
Qed.

Lemma own_property_None (o : Schedules_object) (k : string) :
  own_property o k = None -> ~ In k (List.map fst o).
Proof.
  induction o as [|[k0 g0] o IH]; simpl; [tauto|].
  destruct (String.eqb k0 k) eqn:E; [discriminate|].
  apply String.eqb_neq in E. intros H [Heq | Hin]; [congruence | now apply IH].
Qed.

Lemma In_own_property (o : Schedules_object) (k : string) (g : Schedule) :
  NoDup (List.map fst o) -> In (k, g) o -> own_property o k = Some g.
Proof.
  induction o as [|[k0 g0] o IH]; simpl; [tauto|].
  intros Hnd [Heq | Hin].
  - injection Heq as -> ->. now rewrite String.eqb_refl.
  - apply NoDup_cons_iff in Hnd as [Hnotin Hnd].
    destruct (String.eqb k0 k) eqn:E.
    + apply String.eqb_eq in E as ->. exfalso. apply Hnotin.
      apply in_map_iff. now exists (k, g).
    + now apply IH.
Qed.

Lemma push_event_keys (o : Schedules_object) (k : string) (x : ScheduleEvent) :
  List.map fst (push_event o k x) = List.map fst o.
Proof.
  induction o as [|[k0 g0] o IH]; simpl; [reflexivity|].
  destruct (String.eqb k0 k); simpl; [reflexivity | now rewrite IH].
Qed.

Lemma group_events_NoDup (events : list CSVEvent) (o o' : Schedules_object) :
  NoDup (List.map fst o) -> group_events o events = Returns o' ->
  NoDup (List.map fst o').
Proof.
  revert o. induction events as [|e events IH]; intros o Hnd; simpl.
  - now intros [= <-].
  - destruct (group_event o e) as [o1|] eqn:He; [|discriminate].
    apply IH. unfold group_event, get_property in He.
    destruct (own_property o (generateScheduleIdentifier e)) as [g|] eqn:Hown.
    + injection He as <-. now rewrite push_event_keys.
    + destruct (inherited_key _); [discriminate|]. injection He as <-.
      rewrite List.map_app. cbn [List.map fst].
      apply NoDup_app; [exact Hnd | repeat constructor; intros [] |].
      intros k Hin [<- | []]. now apply (own_property_None _ _ Hown).
Qed.

(** The grouping loop throws only on an identifier that is a property of
    the prototype. *)
Lemma group_events_returns (events : list CSVEvent) (o : Schedules_object) :
  (forall e, In e events ->
             inherited_key (generateScheduleIdentifier e) = false) ->
  exists o', group_events o events = Returns o'.
Proof.
  revert o. induction events as [|e events IH]; intros o Hok; simpl; [eauto|].
  assert (exists o1, group_event o e = Returns o1) as [o1 ->].
  { unfold group_event, get_property.
    destruct (own_property o (generateScheduleIdentifier e)); [eauto|].
    rewrite (Hok e (or_introl eq_refl)). eauto. }
  apply IH. intros e' He'. apply Hok. now right.
Qed.

Lemma Object_values_In (o : Schedules_object) (g : Schedule) :
  In g (Object_values o) <-> exists k, In (k, g) o.
Proof.
  unfold Object_values. rewrite in_app_iff, in_map_iff. split.
  - intros [([n g'] & Heq & Hin) | Hin].
    + simpl in Heq. subst g'.
      apply (Permutation_in _ (Permutation_sym (Array_sort_Permutation _ _))) in Hin.
      unfold index_entries in Hin.
      apply list_elem_of_In, list_elem_of_omap in Hin as ([k g'] & Hin & Hf).
      simpl in Hf. destruct (array_index k); [|discriminate]. injection Hf as <- <-.
      exists k. now apply list_elem_of_In.
    + unfold named_entries in Hin.
      apply list_elem_of_In, list_elem_of_omap in Hin as ([k g'] & Hin & Hf).
      simpl in Hf. destruct (array_index k); [discriminate|]. injection Hf as <-.
      exists k. now apply list_elem_of_In.
  - intros [k Hin]. destruct (array_index k) as [n|] eqn:E.
    + left. exists (n, g). split; [reflexivity|].
      apply (Permutation_in _ (Array_sort_Permutation _ _)).
      apply list_elem_of_In, list_elem_of_omap. exists (k, g).
      split; [now apply list_elem_of_In|]. simpl. now rewrite E.
    + right. apply list_elem_of_In, list_elem_of_omap. exists (k, g).
      split; [now apply list_elem_of_In|]. simpl. now rewrite E.
Qed.

Lemma identifier_ORPHAN (e : CSVEvent) :
  generateScheduleIdentifier e = "ORPHAN"
  <-> (Day e <> "-" /\ no_digit (Day e) = true)
      \/ (Day e = "-" /\ Block_Schedule e = "ORPHAN").
Proof.
  unfold generateScheduleIdentifier.
  destruct (String.eqb (Day e) "-") eqn:E; cbn [negb].
  - apply String.eqb_eq in E. split.
    + intros H. right. now split.
    + intros [[Hne _] | [_ H]]; [contradiction | exact H].
  - apply String.eqb_neq in E. split.
    + intros H. left. split; [exact E|].
      destruct (first_run_exists (Day e))
        as [Hn | (p & ds & r & Hd & Hp & Hds & Hne & Hr)]; [exact Hn|].
      rewrite Hd, (exec_digits_first_run p ds r Hp Hds Hne Hr) in H. discriminate H.
    + intros [[_ Hn] | [Hd _]]; [|contradiction].
      now rewrite (exec_digits_none _ Hn).
Qed.

(** In the model, the warnings returned are the events of the rows of the
    identifier ORPHAN, as [Array_sort] orders them. *)
Lemma returned_warnings_rows (events : list CSVEvent) (c c' : Collection StoredSchedule)
  (tr : list Event) (warnings : list ScheduleEvent) :
  parseAndUpdateSchedules events c tr = Some (Returns warnings, c') ->
  warnings = Array_sort compare_startTime
               (List.map generateScheduleEvent (rows_of "ORPHAN" events)).
Proof.
  intros Hrun. unfold parseAndUpdateSchedules in Hrun.
  destruct (group_events [] events) as [o|] eqn:Hgroup; [|discriminate].
  destruct (run _ _) as [s|]; [|discriminate].
  assert (Hw : warnings = returned_warnings o).
  { destruct (status s); congruence. }
  rewrite Hw. unfold returned_warnings, get_property.
  rewrite (group_events_spec events o Hgroup "ORPHAN").
  destruct (group_of events "ORPHAN") as [g|] eqn:Hg.
  - apply group_of_Some in Hg as [-> _]. reflexivity.
  - apply group_of_None in Hg as ->. reflexivity.
Qed.

Lemma clocks_sorted (l : list ScheduleEvent) :
  List.Forall on_the_clock l -> StronglySorted no_later (Array_sort compare_startTime l).
Proof.
  apply (Array_sort_sorted compare_startTime on_the_clock no_later).
  - intros a b c _ _ _. apply no_later_trans.
  - apply no_later_total.
  - apply no_later_compare.
Qed.

(** X2: when [parseAndUpdateSchedules] returns, the list it returns holds
    one event, built by [generateScheduleEvent], for every row whose
    identifier is "ORPHAN", and is empty when there is no such row; when
    these events all start at a time of the clock, they are in the order
    of the comparator of line 235, ascending.  The rows with that identifier
    are those whose Day field is not "-" and has no digit, and those whose
    Day field is "-" and whose Block Schedule field is "ORPHAN". *)
Theorem parseAndUpdateSchedules_returns (events : list CSVEvent)
  (c c' : Collection StoredSchedule) (tr : list Event) (warnings : list ScheduleEvent) :
  parseAndUpdateSchedules events c tr = Some (Returns warnings, c') ->
  let orphans := List.map generateScheduleEvent (rows_of "ORPHAN" events) in
  Permutation warnings orphans
  /\ (rows_of "ORPHAN" events = [] -> warnings = [])
  /\ (List.Forall on_the_clock orphans ->
      warnings = Array_sort compare_startTime orphans
      /\ StronglySorted no_later warnings)
  /\ (forall e, In e (rows_of "ORPHAN" events) <->
                In e events
                /\ ((Day e <> "-" /\ no_digit (Day e) = true)
                    \/ (Day e = "-" /\ Block_Schedule e = "ORPHAN"))).
Proof.
  intros Hrun. cbn zeta.
  pose proof (returned_warnings_rows events c c' tr warnings Hrun) as Hw.
  split; [|split; [|split]].
  - rewrite Hw. symmetry. apply Array_sort_Permutation.
  - intros Hnil. now rewrite Hw, Hnil.
  - intros Hclock. split; [exact Hw|]. rewrite Hw. now apply clocks_sorted.
  - intros e. unfold rows_of. rewrite filter_In, String.eqb_eq, identifier_ORPHAN.
    reflexivity.
Qed.

Lemma parseAndUpdateSchedules_returns_example :
  exists c,
    parseAndUpdateSchedules
      [ {| Description := "Block C - US"; End_Time := "2:00 pm";
           Start_Time := "1:00 pm"; Block_Schedule := ""; Day := "abc" |};
        {| Description := "Block D - US"; End_Time := "10:00 am";
           Start_Time := "9:00 am"; Block_Schedule := ""; Day := "D1" |} ]
      empty_collection
      [LoopTurn; SaveReply 1 None; SaveSettled; LoopTurn; SaveReply 0 None;
       SaveSettled; LoopTurn]
    = Some (Returns [ {| name := "Block C"; code := "C"; startTime := "1:00 PM";
                         endTime := "2:00 PM" |} ], c).
Proof.
  destruct (parseAndUpdateSchedules _ _ _) as [[[warnings | ex] c]|] eqn:Hrun;
    [|vm_compute in Hrun; discriminate Hrun..].
  exists c.
  destruct (parseAndUpdateSchedules_returns _ _ _ _ _ Hrun) as (_ & _ & Hsorted & _).
  destruct Hsorted as [-> _]; [|reflexivity].
  repeat constructor. exists (13, 0), 1, 0, true.
  split; [lia|]. split; [lia|]. split; [|reflexivity].
  exists "1", "00". split; [now left|]. split; [right; now left | reflexivity].
Defined.

(** In the model, the documents are the groups of the identifiers, their
    events as [Array_sort] orders them. *)
Lemma scheduleDocuments_members (events : list CSVEvent) (documents : list Schedule) :
  scheduleDocuments events = Returns documents ->
  forall d, In d documents <->
    exists k, rows_of k events <> []
      /\ d = {| s_name := k;
                s_friendlyName := JS.remove_first " - US" k;
                s_schedule :=
                  Array_sort compare_startTime
                    (List.map generateScheduleEvent (rows_of k events)) |}.
Proof.
  intros Hdocs. unfold scheduleDocuments in Hdocs.
  destruct (group_events [] events) as [o|] eqn:Hgroup; [|discriminate].
  injection Hdocs as <-.
  pose proof (group_events_spec events o Hgroup) as Hg.
  pose proof (group_events_NoDup events [] o (NoDup_nil _) Hgroup) as Hnd.
  intros d. rewrite in_map_iff. split.
  - intros (g & <- & Hin). apply Object_values_In in Hin as [k Hin].
    apply (In_own_property _ _ _ Hnd) in Hin. rewrite (Hg k) in Hin.
    apply group_of_Some in Hin as [-> Hne]. exists k. split; [exact Hne | reflexivity].
  - intros (k & Hne & ->).
    exists {| s_name := k; s_friendlyName := JS.remove_first " - US" k;
              s_schedule := List.map generateScheduleEvent (rows_of k events) |}.
    split; [reflexivity|]. apply Object_values_In. exists k.
    apply own_property_In. rewrite (Hg k). unfold group_of.
    destruct (rows_of k events); [contradiction | reflexivity].
Qed.

(** X3: the documents that [parseAndUpdateSchedules] saves are the groups of
    all the identifiers of the rows, the sentinel "ORPHAN" among them: a
    document for every identifier, named after it, with the friendly name
    and the events of its rows; when these events all start at a time of
    the clock they are in the order of the comparator, ascending.  The
    grouping returns whenever no identifier is a property name of
    [Object.prototype]. *)
Theorem scheduleDocuments_spec (events : list CSVEvent) :
  ((forall e, In e events ->
      inherited_key (generateScheduleIdentifier e) = false) ->
   exists documents, scheduleDocuments events = Returns documents)
  /\ (forall documents,
        scheduleDocuments events = Returns documents ->
        (forall k, rows_of k events <> [] <-> exists d, In d documents /\ s_name d = k)
        /\ (forall d, In d documents ->
              let mapped := List.map generateScheduleEvent (rows_of (s_name d) events) in
              s_friendlyName d = JS.remove_first " - US" (s_name d)
              /\ Permutation (s_schedule d) mapped
              /\ (List.Forall on_the_clock mapped ->
                  s_schedule d = Array_sort compare_startTime mapped
                  /\ StronglySorted no_later (s_schedule d)))
        /\ ((exists e, In e events /\ generateScheduleIdentifier e = "ORPHAN") ->
            exists d, In d documents /\ s_name d = "ORPHAN")).
Proof.
  split.
  - intros Hok. unfold scheduleDocuments.
    destruct (group_events_returns events [] Hok) as [o ->]. eauto.
  - intros documents Hdocs.
    pose proof (scheduleDocuments_members events documents Hdocs) as Hmem.
    assert (Hnames : forall k, rows_of k events <> [] <->
                               exists d, In d documents /\ s_name d = k).
    { intros k. split.
      - intros Hne. eexists. split; [apply Hmem; eauto | reflexivity].
      - intros (d & Hd & <-). apply Hmem in Hd as (k & Hne & ->). exact Hne. }
    split; [exact Hnames|]. split.
    + intros d Hd. apply Hmem in Hd as (k & Hne & ->). cbn zeta.
      cbn [s_name s_friendlyName s_schedule]. split; [reflexivity|]. split.
      * symmetry. apply Array_sort_Permutation.
      * intros Hclock. split; [reflexivity | now apply clocks_sorted].
    + intros (e & Hin & Hid). apply Hnames.
      intros Hnil. assert (In e (rows_of "ORPHAN" events)) as Hrow.
      { apply filter_In. split; [exact Hin | now apply String.eqb_eq]. }
      rewrite Hnil in Hrow. exact Hrow.
Qed.

Lemma scheduleDocuments_example :
  exists documents,
    scheduleDocuments
      [ {| Description := "Assembly"; End_Time := "9:45 am"; Start_Time := "9:00 am";
           Block_Schedule := "X Day - US"; Day := "abc" |} ] = Returns documents
    /\ exists d, In d documents /\ s_name d = "ORPHAN".
Proof.
  destruct (scheduleDocuments_spec
              [ {| Description := "Assembly"; End_Time := "9:45 am";
                   Start_Time := "9:00 am"; Block_Schedule := "X Day - US";
                   Day := "abc" |} ]) as [Hreturns Hdocs].
  destruct Hreturns as [documents Hrun].
  { intros e [<- | []]. reflexivity. }
  exists documents. split; [exact Hrun|].
  apply (proj2 (proj2 (Hdocs documents Hrun))). eexists. split; [now left | reflexivity].
Defined.

Lemma group_event_keys (o o' : Schedules_object) (e : CSVEvent) :
  List.Forall (fun k => inherited_key k = false) (List.map fst o) ->
  group_event o e = Returns o' ->
  List.Forall (fun k => inherited_key k = false) (List.map fst o').
Proof.
  intros Ho. unfold group_event, get_property.
  destruct (own_property o (generateScheduleIdentifier e)) as [g|] eqn:Hown.
  - intros [= <-]. now rewrite push_event_keys.
  - fold (inherited_key (generateScheduleIdentifier e)).
    destruct (inherited_key (generateScheduleIdentifier e)) eqn:Hp; [discriminate|].
    intros [= <-]. rewrite List.map_app. apply Forall_app. split; [exact Ho|].
    now repeat constructor.
Qed.

Lemma own_property_not_inherited (o : Schedules_object) (k : string) :
  List.Forall (fun k => inherited_key k = false) (List.map fst o) ->
  inherited_key k = true -> own_property o k = None.
Proof.
  intros Ho Hk. destruct (own_property o k) as [g|] eqn:Hown; [|reflexivity].
  apply own_property_In, (in_map fst) in Hown. rewrite List.Forall_forall in Ho.
  specialize (Ho _ Hown). simpl in Ho. congruence.
Qed.

Lemma group_events_throws (events : list CSVEvent) (o : Schedules_object) :
  List.Forall (fun k => inherited_key k = false) (List.map fst o) ->
  (exists e, In e events /\ inherited_key (generateScheduleIdentifier e) = true) ->
  group_events o events = Throws TypeError.
Proof.
  revert o. induction events as [|e events IH]; intros o Ho (e' & Hin & He').
  - destruct Hin.
  - cbn [group_events].
    destruct (inherited_key (generateScheduleIdentifier e)) eqn:He.
    + unfold group_event, get_property.
      rewrite (own_property_not_inherited o _ Ho He).
      fold (inherited_key (generateScheduleIdentifier e)). now rewrite He.
    + destruct Hin as [<- | Hin]; [congruence|].
      destruct (group_event o e) as [o1 | ex] eqn:Hstep.
      * apply IH; [eapply group_event_keys; eauto | eauto].
      * unfold group_event, get_property in Hstep.
        destruct (own_property o (generateScheduleIdentifier e)); [discriminate|].
        fold (inherited_key (generateScheduleIdentifier e)) in Hstep.
        rewrite He in Hstep. discriminate.
Qed.

(** X4: when the identifier of some row is a property name of
    [Object.prototype] (a row whose Day field is "-" and whose Block Schedule
    field is, say, "constructor"), the function throws a TypeError with the
    collection as it was, whatever the store and the standard output do: the
    test of line 214 finds the inherited property, line 215 calls [push] on
    its missing [schedule], and no document is handed to [save]. *)
Theorem parseAndUpdateSchedules_throws (events : list CSVEvent)
  (c : Collection StoredSchedule) (tr : list Event) :
  (exists e, In e events /\ inherited_key (generateScheduleIdentifier e) = true) ->
  parseAndUpdateSchedules events c tr = Some (Throws TypeError, c)
  /\ scheduleDocuments events = Throws TypeError.
Proof.
  intros Hrow. unfold parseAndUpdateSchedules, scheduleDocuments.
  now rewrite (group_events_throws events [] (List.Forall_nil _) Hrow).
Qed.

Lemma parseAndUpdateSchedules_throws_example :
  parseAndUpdateSchedules
    [ {| Description := "Assembly"; End_Time := "9:45 am"; Start_Time := "9:00 am";
         Block_Schedule := "constructor"; Day := "-" |} ]
    empty_collection [] = Some (Throws TypeError, empty_collection).
Proof.
  refine (proj1 (parseAndUpdateSchedules_throws _ _ _ _)).
  eexists. split; [now left | reflexivity].
Defined.

(** ** Reading a schedule *)

(** C10: for a name under which no schedule is stored, [getScheduleList]
    returns the document named "NONE" with the friendly name "No School Day"
    and no event; for a stored schedule it returns the stored name, friendly
    name and events, in their order, each [_id] as its string. *)
Theorem getScheduleList_spec (n : string) (c : Collection StoredSchedule) :
  (docs c !! n = None ->
   getScheduleList n c
   = {| v_id := None; v_name := "NONE"; v_friendlyName := "No School Day";
        v_schedule := [] |})
  /\ (forall d, docs c !! n = Some d ->
        let r := getScheduleList n c in
        v_name r = ss_name d
        /\ v_friendlyName r = ss_friendlyName d
        /\ List.map ev_event (v_schedule r) = List.map se_event (ss_schedule d)
        /\ List.map ev_id (v_schedule r)
           = List.map (fun e => ObjectId_toString (se_id e)) (ss_schedule d)
        /\ v_id r = Some (ObjectId_toString (ss_id d))).
Proof.
  unfold getScheduleList.
  change (findOne (M := Schedules) n c) with (docs c !! n). split.
  - intros ->. reflexivity.
  - intros d ->. cbn zeta. cbn [v_name v_friendlyName v_schedule v_id].
    rewrite !List.map_map. cbn [ev_event ev_id].
    repeat split; reflexivity.
Qed.

(** A schedule that an upload stored is read back; another name gives the
    document "NONE". *)
Lemma getScheduleList_examples :
  let stored :=
    {| ss_id := 10%N; ss_name := "US Day 1"; ss_friendlyName := "US Day 1";
       ss_schedule := [ {| se_id := 11%N;
                           se_event := {| name := "Block C"; code := "C";
                                          startTime := "9:00 AM";
                                          endTime := "9:45 AM" |} |} ] |} in
  let c := {| docs := {[ "US Day 1" := stored ]}; next_id := 12%N |} in
  v_name (getScheduleList "X Day" c) = "NONE"
  /\ v_schedule (getScheduleList "X Day" c) = []
  /\ v_name (getScheduleList "US Day 1" c) = "US Day 1"
  /\ List.map ev_event (v_schedule (getScheduleList "US Day 1" c))
     = [ {| name := "Block C"; code := "C"; startTime := "9:00 AM";
            endTime := "9:45 AM" |} ].
Proof.
  cbn zeta.
  set (stored := {| ss_id := 10%N; ss_name := "US Day 1"; ss_friendlyName := "US Day 1";
                    ss_schedule := [ {| se_id := 11%N;
                                        se_event := {| name := "Block C"; code := "C";
                                                       startTime := "9:00 AM";
                                                       endTime := "9:45 AM" |} |} ] |}).
  set (c := {| docs := {[ "US Day 1" := stored ]}; next_id := 12%N |}).
  destruct (getScheduleList_spec "X Day" c) as [Hnone _].
  destruct (getScheduleList_spec "US Day 1" c) as [_ Hsome].
  assert (Habsent : docs c !! "X Day" = None) by (vm_compute; reflexivity).
  assert (Hthere : docs c !! "US Day 1" = Some stored) by (vm_compute; reflexivity).
  specialize (Hnone Habsent). specialize (Hsome stored Hthere).
  cbn zeta in Hsome. destruct Hsome as (Hn & _ & He & _).
  rewrite Hnone, Hn, He. repeat split; reflexivity.
Defined.

(** ** The update of the duplicate-key branch *)

Lemma embed_events_events (n : ObjectId) (l : list ScheduleEvent) :
  List.map se_event (fst (embed_events n l)) = l.
Proof.
  revert n. induction l as [|e l IH]; intros n; simpl; [reflexivity|].
  specialize (IH (N.succ n)). destruct (embed_events (N.succ n) l) as [r n'].
  simpl in *. now rewrite IH.
Qed.

Lemma findOneAndUpdate_found `{M : Model} (k : string) (u : Update)
  (c : Collection Stored) (d : Stored) :
  docs c !! k = Some d ->
  docs (findOneAndUpdate k u c) !! k = Some (fst (set_fields (next_id c) u d))
  /\ forall k', k' <> k -> docs (findOneAndUpdate k u c) !! k' = docs c !! k'.
Proof.
  intros Hd. unfold findOneAndUpdate. rewrite Hd.
  destruct (set_fields (next_id c) u d) as [d' n]. cbn [docs fst]. split.
  - apply lookup_insert_eq.
  - intros k' Hk. now apply lookup_insert_ne.
Qed.



(** ** The drain: every run *)

Section DrainFacts.
Context `{M : Model}.

Lemma pop_None (l : list Entry) : pop l = None -> l = [].
Proof.
  destruct l as [|x r]; [reflexivity|]. simpl.
  destruct (pop r) as [[r' y]|]; discriminate.
Qed.

Lemma pop_Some (l rest : list Entry) (e : Entry) :
  pop l = Some (rest, e) -> l = (rest ++ [e])%list.
Proof.
  revert rest. induction l as [|x r IH]; intros rest; simpl; [discriminate|].
  destruct (pop r) as [[r' y]|] eqn:E.
  - intros [= <- <-]. simpl. f_equal. now apply IH.
  - intros [= <- <-]. apply pop_None in E. now subst.
Qed.

(** Every event that can happen is one of the rules. *)
Lemma step_Transition (ev : Event) (s s' : State) :
  step ev s = Some s' -> Transition s s'.
Proof.
  destruct ev as [i fault| | |fault| |i c]; simpl.
  - unfold save_reply. destruct (saves s !! i) as [[f st]|] eqn:Hi; [|discriminate].
    destruct st; try discriminate.
    destruct fault as [c|].
    + destruct (c =? 11000) eqn:Hc.
      * intros [= <-]. now apply T_duplicate.
      * intros [= <-]. apply T_failed; [exact Hi|]. now apply Z.eqb_neq.
    + destruct (insertOne f (coll s)) as [c'|] eqn:Hins.
      * intros [= <-]. now apply T_inserted.
      * cbn [Z.eqb Pos.eqb]. intros [= <-]. now apply T_duplicate.
  - unfold loop_turn. destruct (status s) eqn:Hst; try discriminate.
    destruct (pop (promises s)) as [[rest e]|] eqn:Hpop.
    + intros [= <-]. apply T_pop; [exact Hst|]. now apply pop_Some.
    + intros [= <-]. apply T_return; [exact Hst|]. now apply pop_None.
  - unfold save_settled. destruct (status s) as [|[i|k u]| | | |] eqn:Hst; try discriminate.
    destruct (saves s !! i) as [[f st]|] eqn:Hi; [|discriminate].
    destruct st; try discriminate.
    + intros [= <-]. eapply T_settled; eauto.
    + intros [= <-]. eapply T_settled; eauto.
    + intros [= <-]. eapply T_rethrown; eauto.
  - unfold update_reply. destruct (status s) as [|[i|k u]| | | |] eqn:Hst; try discriminate.
    destruct fault as [c|]; intros [= <-].
    + now apply T_update_failed.
    + now apply T_updated.
  - unfold not_a_terminal. destruct (status s) eqn:Hst; try discriminate.
    intros [= <-]. now apply T_no_terminal.
  - unfold unhandled_rejection.
    destruct (saves s !! i) as [[f st]|] eqn:Hi; [|discriminate].
    destruct st; try discriminate. cbn zeta.
    destruct (c =? 11000) eqn:Hc; [discriminate|]. apply Z.eqb_neq in Hc.
    destruct (status s) as [|[j|k u]| | | |] eqn:Hst; try discriminate.
    + intros [= <-]. apply T_unhandled; try assumption.
      * unfold finished. now rewrite Hst.
      * congruence.
    + destruct (Nat.eqb j i) eqn:Hj; [discriminate|]. apply Nat.eqb_neq in Hj.
      intros [= <-]. apply T_unhandled; try assumption.
      * unfold finished. now rewrite Hst.
      * congruence.
    + intros [= <-]. apply T_unhandled; try assumption.
      * unfold finished. now rewrite Hst.
      * congruence.
Qed.


End DrainFacts.

Section DrainInvariant.
Context `{M : Model}.

Lemma insert_lookup_cases {A : Type} (l : list A) (i j : nat) (a x y : A) :
  l !! i = Some a -> <[i := x]> l !! j = Some y ->
  (j = i /\ y = x) \/ (j <> i /\ l !! j = Some y).
Proof.
  intros Hi Hj. destruct (decide (i = j)) as [->|Hne].
  - rewrite list_lookup_insert_eq in Hj by (eapply lookup_lt_Some; eauto).
    left. split; [reflexivity | congruence].
  - rewrite list_lookup_insert_ne in Hj by exact Hne. right. split; [congruence | exact Hj].
Qed.

Lemma start_lookup (batch : list Fields) (i : nat) (f : Fields) (st : SaveState) :
  List.map (fun f => (f, Pending)) batch !! i = Some (f, st) ->
  st = Pending /\ (i < length batch)%nat.
Proof.
  revert i. induction batch as [|x batch IH]; intros [|i]; simpl; try discriminate.
  - intros [= <- <-]. split; [reflexivity | lia].
  - intros H. destruct (IH i H) as [-> Hlt]. split; [reflexivity | lia].
Qed.

Lemma start_Invariant (batch : list Fields) (c : Collection Stored) :
  Invariant (start batch c).
Proof.
  constructor; cbn [start saves promises status writes].
  - intros i [Hin | Hst]; [|discriminate].
    apply list_elem_of_In, in_map_iff in Hin as (j & [= <-] & Hj).
    apply in_seq in Hj. rewrite length_map. lia.
  - intros i f H. apply start_lookup in H as [H _]. discriminate.
  - intros i f c' H. apply start_lookup in H as [H _]. discriminate.
  - discriminate.
  - intros i f st H. apply start_lookup in H as [_ Hlt]. left.
    apply list_elem_of_In, in_map_iff. exists i. split; [reflexivity|].
    apply in_seq. lia.
  - discriminate.
Qed.

(** A lookup in the saves after one of them was rewritten. *)
Ltac at_save Hi Hj :=
  let Heq := fresh "Heq" in
  destruct (insert_lookup_cases _ _ _ _ _ _ Hi Hj) as [[-> Heq] | [Hne Hold]];
  [simplify_eq | clear Hj].

Ltac members :=
  rewrite ?elem_of_app, ?list_elem_of_singleton, ?elem_of_nil in *.

Lemma Transition_Invariant (s s' : State) :
  Invariant s -> Transition s s' -> Invariant s'.
Proof.
  intros [I1 I2 I3 I4 I5 I6] Ht.
  destruct Ht as [i f c' Hi Hins | i f Hi | i f c Hi Hc | Hst Hp | rest e Hst Hp
                 | i f st Hst Hi Hok | i f c Hst Hi | k u c Hst | k u Hst
                 | Hst | i f c Hi Hc Hfin Hst];
    constructor; cbn [saves promises status writes coll with_status];
    unfold aborted, finished in *; cbn [status] in *; try rewrite Hst in *.
  - intros j Hj. rewrite length_insert. now apply I1.
  - intros j g Hj. at_save Hi Hj. specialize (I2 j g Hold). members. tauto.
  - intros j g c Hj. at_save Hi Hj. eauto.
  - intros j c Hj. destruct (I4 j c Hj) as [g Hg]. exists g.
    rewrite list_lookup_insert_ne; [exact Hg | congruence].
  - intros j g st Hj. at_save Hi Hj; [tauto | eauto].
  - exact I6.
  - intros j Hj. rewrite length_insert. apply I1. members.
    destruct Hj as [[Hj | Hj] | Hj]; [tauto | discriminate | tauto].
  - intros j g Hj. at_save Hi Hj.
    + left. members. now right.
    + specialize (I2 j g Hold). members. tauto.
  - intros j g c Hj. at_save Hi Hj. eauto.
  - intros j c Hj. destruct (I4 j c Hj) as [g Hg]. exists g.
    rewrite list_lookup_insert_ne; [exact Hg | congruence].
  - intros j g st Hj. at_save Hi Hj; [tauto|].
    specialize (I5 j g st Hold). members. tauto.
  - intros Hr. exfalso. specialize (I5 _ _ _ Hi). rewrite (I6 Hr) in I5. members.
    destruct I5 as [? | [? | [? | [? | [? ?]]]]]; congruence.
  - intros j Hj. rewrite length_insert. now apply I1.
  - intros j g Hj. at_save Hi Hj. eauto.
  - intros j g c0 Hj. at_save Hi Hj; [exact Hc | eauto].
  - intros j c0 Hj. destruct (I4 j c0 Hj) as [g Hg]. exists g.
    rewrite list_lookup_insert_ne; [exact Hg | congruence].
  - intros j g st Hj. at_save Hi Hj; [|eauto].
    destruct (I5 _ _ _ Hi) as [? | [? | [? | [? | ?]]]]; try discriminate; tauto.
  - exact I6.
  - intros j [Hj | Hj]; [|discriminate]. apply I1. now left.
  - intros j g Hj.
    destruct (I2 j g Hj) as [? | [? | [? | [? ?]]]]; try congruence; tauto.
  - exact I3.
  - discriminate.
  - intros j g st Hj.
    destruct (I5 j g st Hj) as [? | [? | [? | [? | [? ?]]]]]; try congruence; tauto.
  - intros _. exact Hp.
  - intros j Hj. apply I1. left. rewrite Hp. members.
    destruct Hj as [Hj | [= <-]]; tauto.
  - intros j g Hj.
    destruct (I2 j g Hj) as [Hin | [? | [? | [? ?]]]]; try congruence; [|tauto].
    rewrite Hp in Hin. members. destruct Hin as [? | ->]; tauto.
  - exact I3.
  - discriminate.
  - intros j g st Hj.
    destruct (I5 j g st Hj) as [Hin | [? | [? | [? | [? ?]]]]];
      try congruence; [|tauto|tauto].
    rewrite Hp in Hin. members. destruct Hin as [? | ->]; tauto.
  - discriminate.
  - intros j [Hj | Hj]; [|discriminate]. apply I1. now left.
  - intros j g Hj.
    destruct (I2 j g Hj) as [? | [? | [? | [? ?]]]]; try congruence; tauto.
  - exact I3.
  - discriminate.
  - intros j g st' Hj.
    destruct (I5 j g st' Hj) as [? | [Hw | [? | [? | [? ?]]]]];
      try congruence; try tauto.
    injection Hw as <-. rewrite Hi in Hj. injection Hj as <- <-. tauto.
  - discriminate.
  - intros j [Hj | Hj]; [|discriminate]. apply I1. now left.
  - intros j g Hj. right. right. right. eauto.
  - exact I3.
  - intros j c0 [= <- <-]. eauto.
  - intros j g st Hj. right. right. right. right. eauto.
  - discriminate.
  - intros j [Hj | Hj]; [|discriminate]. apply I1. now left.
  - intros j g Hj. right. right. right. eauto.
  - exact I3.
  - discriminate.
  - intros j g st Hj. right. right. right. right. eauto.
  - discriminate.
  - intros j [Hj | Hj]; [|discriminate]. apply I1. now left.
  - intros j g Hj. members.
    destruct (I2 j g Hj) as [? | [Hw | [? | [? ?]]]]; try congruence; try tauto.
    injection Hw as <- <-. tauto.
  - exact I3.
  - discriminate.
  - intros j g st Hj.
    destruct (I5 j g st Hj) as [? | [? | [? | [? | [? ?]]]]]; try congruence; tauto.
  - discriminate.
  - intros j [Hj | Hj]; [|discriminate]. apply I1. now left.
  - intros j g Hj. right. right. right. split; [reflexivity | discriminate].
  - exact I3.
  - discriminate.
  - intros j g st Hj. right. right. right. right. split; [reflexivity | discriminate].
  - discriminate.
  - intros j [Hj | Hj]; [|discriminate]. rewrite length_insert. apply I1. now left.
  - intros j g Hj. right. right. right. split; [reflexivity | discriminate].
  - intros j g c0 Hj. at_save Hi Hj; [exact Hc | eauto].
  - discriminate.
  - intros j g st Hj. right. right. right. right. split; [reflexivity | discriminate].
  - discriminate.
Qed.

Lemma run_Invariant (tr : list Event) (s s' : State) :
  Invariant s -> run tr s = Some s' -> Invariant s'.
Proof.
  revert s. induction tr as [|ev tr IH]; intros s Hinv; simpl.
  - now intros [= <-].
  - destruct (step ev s) as [s1|] eqn:Hstep; [|discriminate].
    apply IH. eapply Transition_Invariant; [exact Hinv|]. eapply step_Transition; eauto.
Qed.

(** *** The loop ends *)






(** *** Nothing is undone, and nothing is written after a failure *)

Lemma Transition_kept (s s' : State) :
  Transition s s' ->
  dom (docs (coll s)) ⊆ dom (docs (coll s'))
  /\ (finished s = true ->
      status s' = status s
      /\ List.filter is_update (writes s') = List.filter is_update (writes s)).
Proof.
  intros Ht.
  destruct Ht as [i f c' Hi Hins | i f Hi | i f c Hi Hc | Hst Hp | rest e Hst Hp
                 | i f st Hst Hi Hok | i f c Hst Hi | k u c Hst | k u Hst
                 | Hst | i f c Hi Hc Hfin Hst];
    cbn [coll status writes with_status];
    (split; [|intros Hover; unfold finished in *;
              try (rewrite Hst in Hover; discriminate Hover);
              try (rewrite Hfin in Hover; discriminate Hover)]);
    try reflexivity; try (now split).
  - unfold insertOne in Hins. destruct (docs (coll s) !! key f); [discriminate|].
    destruct (create (next_id (coll s)) f) as [d n]. injection Hins as <-.
    cbn [docs]. apply dom_insert_subseteq.
  - split; [reflexivity|]. rewrite List.filter_app. simpl. now rewrite app_nil_r.
  - unfold findOneAndUpdate. destruct (docs (coll s) !! k) as [d0|]; [|reflexivity].
    destruct (set_fields (next_id (coll s)) u d0) as [d n]. cbn [docs].
    apply dom_insert_subseteq.
Qed.

Lemma run_kept (tr : list Event) (s s' : State) :
  run tr s = Some s' ->
  dom (docs (coll s)) ⊆ dom (docs (coll s'))
  /\ (finished s = true ->
      status s' = status s
      /\ List.filter is_update (writes s') = List.filter is_update (writes s)).
Proof.
  revert s. induction tr as [|ev tr IH]; intros s; simpl.
  - intros [= <-]. split; [reflexivity | now intros].
  - destruct (step ev s) as [s1|] eqn:Hstep; [|discriminate]. intros Hrun.
    destruct (Transition_kept s s1 (step_Transition ev s s1 Hstep)) as [Hd Ht].
    destruct (IH s1 Hrun) as [Hd' Ht']. split; [etransitivity; eassumption|].
    intros Hover. destruct (Ht Hover) as [Hs1 Hw1].
    assert (Hover1 : finished s1 = true) by (unfold finished in *; now rewrite Hs1).
    destruct (Ht' Hover1) as [Hs' Hw']. split; congruence.
Qed.
End DrainInvariant.

(** ** What the collection holds when the function returns *)

Section FinalState.
Context `{M : Model}.

(** The stored document [d] holds the fields of [f]. *)
Variable reflects : Fields -> Stored -> Prop.
Hypothesis create_reflects : forall n f, reflects f (fst (create n f)).
Hypothesis update_reflects : forall n f d, reflects f (fst (set_fields n (fallback f) d)).


Lemma duplicate_taken (ev : Event) (s s' : State) (i : nat) (f : Fields) :
  genuine ev -> step ev s = Some s' ->
  saves s !! i = Some (f, Pending) -> saves s' !! i = Some (f, DuplicateKey) ->
  is_Some (docs (coll s) !! key f).
Proof.
  intros Hgen Hstep Hi Hi'. destruct ev as [j fault| | |fault| |j c]; simpl in Hstep.
  - unfold save_reply in Hstep.
    destruct (saves s !! j) as [[g st]|] eqn:Hj; [|discriminate].
    destruct st; try discriminate.
    destruct (decide (j = i)) as [-> | Hne].
    + rewrite Hi in Hj. injection Hj as <-.
      destruct fault as [c|].
      * simpl in Hgen. apply Z.eqb_neq in Hgen. rewrite Hgen in Hstep.
        injection Hstep as <-. cbn [saves] in Hi'.
        rewrite list_lookup_insert_eq in Hi' by (eapply lookup_lt_Some; eauto).
        discriminate.
      * unfold insertOne in Hstep. destruct (docs (coll s) !! key f) eqn:Hd; [eauto|].
        destruct (create (next_id (coll s)) f). injection Hstep as <-.
        cbn [saves] in Hi'.
        rewrite list_lookup_insert_eq in Hi' by (eapply lookup_lt_Some; eauto).
        discriminate.
    + assert (saves s' !! i = saves s !! i) as Hsame.
      { destruct fault as [c|]; [destruct (c =? 11000)|destruct (insertOne g (coll s))];
          injection Hstep as <-; cbn [saves]; now apply list_lookup_insert_ne. }
      congruence.
  - unfold loop_turn in Hstep. destruct (status s); try discriminate.
    destruct (pop (promises s)) as [[rest e]|]; injection Hstep as <-;
      cbn [saves with_status] in Hi'; congruence.
  - unfold save_settled in Hstep. destruct (status s) as [|[k|k u]| | | |]; try discriminate.
    destruct (saves s !! k) as [[g st]|]; [|discriminate].
    destruct st; try discriminate; injection Hstep as <-;
      cbn [saves with_status] in Hi'; congruence.
  - unfold update_reply in Hstep. destruct (status s) as [|[k|k u]| | | |]; try discriminate.
    destruct fault; injection Hstep as <-; cbn [saves with_status] in Hi'; congruence.
  - unfold not_a_terminal in Hstep. destruct (status s); try discriminate.
    injection Hstep as <-. cbn [saves with_status] in Hi'. congruence.
  - unfold unhandled_rejection in Hstep.
    destruct (saves s !! j) as [[g st]|] eqn:Hj; [|discriminate].
    destruct st; try discriminate. cbn zeta in Hstep.
    destruct (c =? 11000); [discriminate|].
    assert (Hexit : saves s' = <[j := (g, Failed c)]> (saves s)).
    { destruct (status s) as [|[k|k u]| | | |]; try discriminate;
        [|destruct (Nat.eqb k j); [discriminate|]|]; injection Hstep as <-; reflexivity. }
    rewrite Hexit in Hi'.
    destruct (insert_lookup_cases _ _ _ _ _ _ Hj Hi') as [[_ [=]] | [_ Hold]]. congruence.
Qed.

Lemma insertOne_Some (f : Fields) (c c' : Collection Stored) :
  insertOne f c = Some c' ->
  docs c' !! key f = Some (fst (create (next_id c) f))
  /\ forall k, k <> key f -> docs c' !! k = docs c !! k.
Proof.
  unfold insertOne. destruct (docs c !! key f); [discriminate|].
  destruct (create (next_id c) f) as [d n]. intros [= <-]. cbn [docs fst]. split.
  - apply lookup_insert_eq.
  - intros k Hk. apply lookup_insert_ne. congruence.
Qed.

Lemma findOneAndUpdate_lookup (k k' : string) (u : Update) (c : Collection Stored) :
  docs (findOneAndUpdate k u c) !! k'
  = if decide (k' = k)
    then option_map (fun d => fst (set_fields (next_id c) u d)) (docs c !! k)
    else docs c !! k'.
Proof.
  destruct (docs c !! k) as [d|] eqn:Hd; cbn [option_map].
  - destruct (findOneAndUpdate_found k u c d Hd) as [Hk Hother].
    destruct (decide (k' = k)) as [-> | Hne]; [exact Hk | now apply Hother].
  - unfold findOneAndUpdate. rewrite Hd.
    destruct (decide (k' = k)) as [-> | Hne]; [exact Hd | reflexivity].
Qed.

Lemma insert_fields (l : list (Fields * SaveState)) (i j : nat) (f g : Fields)
  (st0 st st' : SaveState) :
  l !! i = Some (f, st0) -> <[i := (f, st)]> l !! j = Some (g, st') ->
  exists st'', l !! j = Some (g, st'').
Proof.
  intros Hi Hj. destruct (decide (i = j)) as [<- | Hne].
  - rewrite list_lookup_insert_eq in Hj by (eapply lookup_lt_Some; eauto).
    injection Hj as <- <-. eauto.
  - rewrite list_lookup_insert_ne in Hj by exact Hne. eauto.
Qed.

Lemma insert_other (l : list (Fields * SaveState)) (i j : nat) (f g : Fields)
  (st st' : SaveState) :
  l !! i = Some (f, Pending) -> st' <> Pending -> l !! j = Some (g, st') ->
  <[i := (f, st)]> l !! j = Some (g, st').
Proof.
  intros Hi Hne Hj. rewrite list_lookup_insert_ne; [exact Hj|]. congruence.
Qed.

Ltac at_entry Hi Hj :=
  let Heq := fresh "Heq" in
  destruct (insert_lookup_cases _ _ _ _ _ _ Hi Hj) as [[-> Heq] | [Hne Hold]];
  [simplify_eq | clear Hj].

Lemma step_Upserted (ev : Event) (s s' : State) :
  genuine ev -> Upserted reflects s -> step ev s = Some s' -> Upserted reflects s'.
Proof.
  intros Hgen [K1 K2 K3 K5 K4] Hstep.
  pose proof (step_Transition ev s s' Hstep) as Ht.
  destruct Ht as [i f c' Hi Hins | i f Hi | i f c Hi Hc | Hst Hp | rest e Hst Hp
                 | i f st Hst Hi Hok | i f c Hst Hi | k u c Hst | k u Hst
                 | Hst | i f c Hi Hc Hfin Hst].
  - destruct (insertOne_Some f _ _ Hins) as [Hnew Hother].
    constructor; cbn [saves promises status writes coll].
    + intros j g Hj. at_entry Hi Hj.
      * eexists. split; [exact Hnew | apply create_reflects].
      * destruct (K1 j g Hold) as (d & Hd & Hr). exists d. split; [|exact Hr].
        rewrite Hother; [exact Hd|]. intros Hk. apply Hne. eapply K4; eauto.
    + intros j g Hj. at_entry Hi Hj.
      assert (Hk : key g <> key f) by (intros Hk; apply Hne; eapply K4; eauto).
      destruct (K2 j g Hold) as [Hsome Hupd]. rewrite (Hother _ Hk). split; [exact Hsome|].
      rewrite elem_of_app, list_elem_of_singleton. intros [Hw | [=]]. now apply Hupd.
    + intros k u Hq. destruct (K3 k u Hq) as (j & g & Hj & -> & ->).
      exists j, g. split; [|now split]. eapply insert_other; [exact Hi | discriminate | exact Hj].
    + intros k u. rewrite elem_of_app, list_elem_of_singleton. intros [Hw | [=]].
      destruct (K5 k u Hw) as (j & g & Hj & -> & ->).
      exists j, g. split; [|now split]. eapply insert_other; [exact Hi | discriminate | exact Hj].
    + intros i1 j1 f1 g1 st1 st1' H1 H2.
      destruct (insert_fields _ _ _ _ _ _ _ _ Hi H1) as [? H1'].
      destruct (insert_fields _ _ _ _ _ _ _ _ Hi H2) as [? H2']. eapply K4; eauto.
  - constructor; cbn [saves promises status writes coll].
    + intros j g Hj. at_entry Hi Hj. now apply (K1 j g).
    + intros j g Hj. at_entry Hi Hj.
      * split.
        -- eapply (duplicate_taken ev s); eauto.
        -- intros Hw. exfalso. destruct (K5 _ _ Hw) as (j0 & g0 & Hj0 & Hk & _).
           assert (j0 = i) by (eapply K4; eauto). subst j0. congruence.
      * now apply (K2 j g).
    + intros k u. rewrite elem_of_app, list_elem_of_singleton. intros [[Hq | Hq] | Hq].
      * destruct (K3 k u (or_introl Hq)) as (j & g & Hj & -> & ->).
        exists j, g. split; [|now split]. eapply insert_other; [exact Hi | discriminate | exact Hj].
      * injection Hq as -> ->. exists i, f. split; [|now split].
        apply list_lookup_insert_eq. eapply lookup_lt_Some; eauto.
      * destruct (K3 k u (or_intror Hq)) as (j & g & Hj & -> & ->).
        exists j, g. split; [|now split]. eapply insert_other; [exact Hi | discriminate | exact Hj].
    + intros k u Hw. destruct (K5 k u Hw) as (j & g & Hj & -> & ->).
      exists j, g. split; [|now split]. eapply insert_other; [exact Hi | discriminate | exact Hj].
    + intros i1 j1 f1 g1 st1 st1' H1 H2.
      destruct (insert_fields _ _ _ _ _ _ _ _ Hi H1) as [? H1'].
      destruct (insert_fields _ _ _ _ _ _ _ _ Hi H2) as [? H2']. eapply K4; eauto.
  - constructor; cbn [saves promises status writes coll].
    + intros j g Hj. at_entry Hi Hj. now apply (K1 j g).
    + intros j g Hj. at_entry Hi Hj. now apply (K2 j g).
    + intros k u Hq. destruct (K3 k u Hq) as (j & g & Hj & -> & ->).
      exists j, g. split; [|now split]. eapply insert_other; [exact Hi | discriminate | exact Hj].
    + intros k u Hw. destruct (K5 k u Hw) as (j & g & Hj & -> & ->).
      exists j, g. split; [|now split]. eapply insert_other; [exact Hi | discriminate | exact Hj].
    + intros i1 j1 f1 g1 st1 st1' H1 H2.
      destruct (insert_fields _ _ _ _ _ _ _ _ Hi H1) as [? H1'].
      destruct (insert_fields _ _ _ _ _ _ _ _ Hi H2) as [? H2']. eapply K4; eauto.
  - constructor; cbn [saves promises status writes coll with_status]; try assumption.
    intros k u [Hq | Hq]; [|discriminate]. apply K3. now left.
  - constructor; cbn [saves promises status writes coll with_status]; try assumption.
    intros k u Hq. apply K3. left. rewrite Hp, elem_of_app, list_elem_of_singleton.
    destruct Hq as [Hq | [= ->]]; [now left | now right].
  - constructor; cbn [saves promises status writes coll with_status]; try assumption.
    intros k u [Hq | Hq]; [|discriminate]. apply K3. now left.
  - constructor; cbn [saves promises status writes coll with_status]; try assumption.
    intros k u [Hq | Hq]; [|discriminate]. apply K3. now left.
  - constructor; cbn [saves promises status writes coll with_status]; try assumption.
    intros k0 u0 [Hq | Hq]; [|discriminate]. apply K3. now left.
  - destruct (K3 k u (or_intror Hst)) as (j0 & f0 & Hj0 & -> & ->).
    destruct (K2 j0 f0 Hj0) as [[d0 Hd0] _].
    constructor; cbn [saves promises status writes coll].
    + intros j g Hj. destruct (K1 j g Hj) as (d & Hd & Hr). exists d. split; [|exact Hr].
      rewrite findOneAndUpdate_lookup.
      destruct (decide (key g = key f0)) as [Hk | Hk]; [|exact Hd].
      assert (j = j0) by (eapply K4; eauto). subst j. congruence.
    + intros j g Hj. rewrite findOneAndUpdate_lookup.
      destruct (decide (key g = key f0)) as [Hk | Hk].
      * assert (j = j0) by (eapply K4; eauto). subst j.
        rewrite Hj0 in Hj. injection Hj as <-. rewrite Hd0. cbn [option_map].
        split; [eauto|]. intros _. eexists. split; [reflexivity | apply update_reflects].
      * destruct (K2 j g Hj) as [Hsome Hupd]. split; [exact Hsome|].
        rewrite elem_of_app, list_elem_of_singleton. intros [Hw | [= Hk' _]];
          [now apply Hupd | contradiction].
    + intros k u [Hq | Hq]; [|discriminate]. apply K3. now left.
    + intros k u. rewrite elem_of_app, list_elem_of_singleton. intros [Hw | [= -> ->]].
      * now apply K5.
      * eauto.
    + exact K4.
  - constructor; cbn [saves promises status writes coll with_status]; try assumption.
    intros k u [Hq | Hq]; [|discriminate]. apply K3. now left.
  - constructor; cbn [saves promises status writes coll].
    + intros j g Hj. at_entry Hi Hj. now apply (K1 j g).
    + intros j g Hj. at_entry Hi Hj. now apply (K2 j g).
    + intros k u [Hq | Hq]; [|discriminate].
      destruct (K3 k u (or_introl Hq)) as (j & g & Hj & -> & ->).
      exists j, g. split; [|now split]. eapply insert_other; [exact Hi | discriminate | exact Hj].
    + intros k u Hw. destruct (K5 k u Hw) as (j & g & Hj & -> & ->).
      exists j, g. split; [|now split]. eapply insert_other; [exact Hi | discriminate | exact Hj].
    + intros i1 j1 f1 g1 st1 st1' H1 H2.
      destruct (insert_fields _ _ _ _ _ _ _ _ Hi H1) as [? H1'].
      destruct (insert_fields _ _ _ _ _ _ _ _ Hi H2) as [? H2']. eapply K4; eauto.
Qed.

Lemma start_keys (batch : list Fields) (i j : nat) (f g : Fields) (st st' : SaveState) :
  NoDup (List.map key batch) ->
  List.map (fun f => (f, Pending)) batch !! i = Some (f, st) ->
  List.map (fun f => (f, Pending)) batch !! j = Some (g, st') ->
  key f = key g -> i = j.
Proof.
  intros Hnd. revert i j. induction batch as [|x batch IH]; intros i j; [now destruct i|].
  inversion Hnd as [|? ? Hx Hnd']; subst. specialize (IH Hnd').
  assert (Hin : forall n h st0,
             List.map (fun f => (f, Pending)) batch !! n = Some (h, st0) ->
             In (key h) (List.map key batch)).
  { intros n h st0 Hn. apply in_map_iff. exists h. split; [reflexivity|].
    apply list_elem_of_In, list_elem_of_lookup_2 with (i := n).
    clear -Hn. revert n Hn. induction batch as [|y batch IH]; intros [|n]; simpl;
      try discriminate.
    - now intros [= <- _].
    - apply IH. }
  destruct i as [|i], j as [|j]; simpl.
  - reflexivity.
  - intros [= <- _] Hj Hk. exfalso. apply Hx. rewrite Hk. eapply Hin; eauto.
  - intros Hi [= <- _] Hk. exfalso. apply Hx. rewrite <- Hk. eapply Hin; eauto.
  - intros Hi Hj Hk. f_equal. eapply IH; eauto.
Qed.

Lemma start_Upserted (batch : list Fields) (c : Collection Stored) :
  NoDup (List.map key batch) -> Upserted reflects (start batch c).
Proof.
  intros Hnd. constructor; cbn [start saves promises status writes coll].
  - intros i f H. apply start_lookup in H as [H _]. discriminate.
  - intros i f H. apply start_lookup in H as [H _]. discriminate.
  - intros k u [Hin | Hst]; [|discriminate].
    apply list_elem_of_In, in_map_iff in Hin as (j & [=] & _).
  - intros k u Hin. now apply elem_of_nil in Hin.
  - intros i j f g st st'. now apply start_keys.
Qed.

Lemma run_Upserted (tr : list Event) (s s' : State) :
  Forall genuine tr -> Upserted reflects s -> run tr s = Some s' -> Upserted reflects s'.
Proof.
  revert s. induction tr as [|ev tr IH]; intros s Hgen Hup; simpl.
  - now intros [= <-].
  - inversion Hgen as [|? ? Hev Hgen']; subst.
    destruct (step ev s) as [s1|] eqn:Hstep; [|discriminate].
    apply IH; [exact Hgen'|]. eapply step_Upserted; eauto.
Qed.

(** The documents of the saves never change. *)
Lemma Transition_fields (s s' : State) :
  Transition s s' -> List.map fst (saves s') = List.map fst (saves s).
Proof.
  assert (Hins : forall l i f st0 st, l !! i = Some (f, st0) ->
             List.map fst (<[i := (f, st)]> l) = List.map fst (l : list (Fields * SaveState))).
  { intros l. induction l as [|x l IH]; intros [|i] f st0 st; simpl; try discriminate.
    - now intros [= ->].
    - intros Hi. f_equal. eapply IH; eauto. }
  intros Ht.
  destruct Ht as [i f c' Hi Hins' | i f Hi | i f c Hi Hc | Hst Hp | rest e Hst Hp
                 | i f st Hst Hi Hok | i f c Hst Hi | k u c Hst | k u Hst
                 | Hst | i f c Hi Hc Hfin Hst];
    cbn [saves with_status]; eauto.
Qed.

Lemma run_fields (tr : list Event) (batch : list Fields) (c : Collection Stored)
  (s : State) :
  run tr (start batch c) = Some s -> List.map fst (saves s) = batch.
Proof.
  assert (Hgen : forall s0, run tr s0 = Some s ->
             List.map fst (saves s) = List.map fst (saves s0)).
  { induction tr as [|ev tr IH]; intros s0; simpl.
    - now intros [= <-].
    - destruct (step ev s0) as [s1|] eqn:Hstep; [|discriminate]. intros Hrun.
      rewrite (IH s1 Hrun). apply Transition_fields. eapply step_Transition; eauto. }
  intros Hrun. rewrite (Hgen _ Hrun). cbn [start saves].
  rewrite List.map_map. cbn [fst]. apply List.map_id.
Qed.

Lemma run_reflected (batch : list Fields) (c0 : Collection Stored) (tr : list Event)
  (s : State) :
  NoDup (List.map key batch) -> Forall genuine tr ->
  run tr (start batch c0) = Some s -> status s = Returned ->
  forall f, In f batch -> exists d, docs (coll s) !! key f = Some d /\ reflects f d.
Proof.
  intros Hnd Hgen Hrun Hret f Hin.
  pose proof (run_Invariant tr _ s (start_Invariant batch c0) Hrun) as Hinv.
  pose proof (run_Upserted tr _ s Hgen (start_Upserted batch c0 Hnd) Hrun) as Hup.
  rewrite <- (run_fields tr batch c0 s Hrun) in Hin.
  apply in_map_iff in Hin as ([f' st] & Hf & Hin). cbn [fst] in Hf. subst f'.
  apply list_elem_of_In, list_elem_of_lookup_1 in Hin as [i Hi].
  pose proof (inv_returned s Hinv Hret) as Hp.
  destruct (inv_awaited s Hinv i f st Hi) as [Hq | [Hw | [-> | [-> | [_ Hth]]]]].
  - rewrite Hp in Hq. now apply elem_of_nil in Hq.
  - congruence.
  - exact (up_saved reflects s Hup i f Hi).
  - destruct (up_duplicate reflects s Hup i f Hi) as [_ Hdone]. apply Hdone.
    destruct (inv_duplicate s Hinv i f Hi) as [Hq | [Hw | [Hd | [_ Hth]]]].
    + rewrite Hp in Hq. now apply elem_of_nil in Hq.
    + congruence.
    + exact Hd.
    + congruence.
  - congruence.
Qed.
End FinalState.

Lemma Object_values_Permutation (o : Schedules_object) :
  Permutation (Object_values o) (List.map snd o).
Proof.
  unfold Object_values.
  rewrite <- (Array_sort_Permutation _ (index_entries o)).
  induction o as [|[k g] o IH]; [reflexivity|].
  unfold index_entries, named_entries in *. cbn [omap list_omap fst snd List.map].
  destruct (array_index k) as [n|]; cbn [List.map snd app].
  - now apply perm_skip.
  - rewrite <- Permutation_middle. now apply perm_skip.
Qed.

Lemma scheduleDocuments_NoDup (events : list CSVEvent) (documents : list Schedule) :
  scheduleDocuments events = Returns documents -> NoDup (List.map s_name documents).
Proof.
  unfold scheduleDocuments.
  destruct (group_events [] events) as [o|] eqn:Hgroup; [|discriminate].
  intros [= <-].
  pose proof (group_events_spec events o Hgroup) as Hg.
  pose proof (group_events_NoDup events [] o (NoDup_nil _) Hgroup) as Hnd.
  rewrite List.map_map. cbn [sort_schedule s_name].
  apply (Permutation_NoDup (l := List.map s_name (List.map snd o))).
  - apply Permutation_map, Permutation_sym, Object_values_Permutation.
  - rewrite List.map_map.
    rewrite (map_ext_in (fun x => s_name (snd x)) fst); [exact Hnd|].
    intros [k g] Hin. apply (In_own_property _ _ _ Hnd) in Hin. rewrite (Hg k) in Hin.
    apply group_of_Some in Hin as [-> _]. reflexivity.
Qed.

Lemma Schedules_create_stored (n : ObjectId) (g : Schedule) :
  schedule_stored g (fst (create (Model := Schedules) n g)).
Proof.
  cbn [create Schedules].
  pose proof (embed_events_events (N.succ n) (s_schedule g)) as He.
  destruct (embed_events (N.succ n) (s_schedule g)) as [evs n']. cbn [fst] in *.
  now repeat split.
Qed.

Lemma Schedules_update_stored (n : ObjectId) (g : Schedule) (d : StoredSchedule) :
  schedule_stored g
    (fst (set_fields (Model := Schedules) n (fallback (Model := Schedules) g) d)).
Proof.
  cbn [set_fields fallback Schedules set_events set_name set_friendlyName].
  pose proof (embed_events_events n (s_schedule g)) as He.
  destruct (embed_events n (s_schedule g)) as [evs n']. cbn [fst] in *.
  now repeat split.
Qed.

(** The schedule stored under an identifier of the rows, once the upload
    returned. *)
Lemma uploaded_schedule (events : list CSVEvent) (c c' : Collection StoredSchedule)
  (tr : list Event) (warnings : list ScheduleEvent) (k : string) :
  Forall genuine tr ->
  parseAndUpdateSchedules events c tr = Some (Returns warnings, c') ->
  rows_of k events <> [] ->
  exists d,
    docs c' !! k = Some d
    /\ ss_name d = k
    /\ ss_friendlyName d = JS.remove_first " - US" k
    /\ List.map se_event (ss_schedule d)
       = Array_sort compare_startTime (List.map generateScheduleEvent (rows_of k events)).
Proof.
  intros Hgen Hrun Hrows. unfold parseAndUpdateSchedules in Hrun.
  destruct (group_events [] events) as [o|] eqn:Hgroup; [|discriminate].
  pose proof (group_events_spec events o Hgroup) as Hg.
  assert (Hnd : NoDup (List.map s_name (List.map sort_schedule (Object_values o)))).
  { apply (scheduleDocuments_NoDup events). unfold scheduleDocuments. now rewrite Hgroup. }
  destruct (run _ _) as [s|] eqn:Hs; [|discriminate].
  destruct (status s) eqn:Hst; try discriminate. injection Hrun as _ <-.
  set (g := {| s_name := k; s_friendlyName := JS.remove_first " - US" k;
               s_schedule := List.map generateScheduleEvent (rows_of k events) |}).
  assert (Hin : In (sort_schedule g) (List.map sort_schedule (Object_values o))).
  { apply in_map, Object_values_In. exists k. apply own_property_In.
    rewrite (Hg k). unfold group_of. fold g.
    destruct (rows_of k events); [contradiction | reflexivity]. }
  destruct (run_reflected (M := Schedules) schedule_stored
              Schedules_create_stored Schedules_update_stored
              _ c tr s Hnd Hgen Hs Hst _ Hin) as (d & Hd & Hname & Hfriendly & Hevents).
  exists d. now repeat split.
Qed.

(** X5: when [parseAndUpdateDays] returns and no two rows give the same date
    key, the collection holds, under the key of every row kept, a day with
    the schedule of that row; when [parseAndUpdateSchedules] returns, it
    holds, under every identifier of the rows, a schedule with that name,
    its friendly name and the events of the rows of the identifier, and
    when these events all start at a time of the clock they are stored in
    the order of the comparator, ascending.  This is for runs where the
    store rejects a save with code 11000 only when the key is taken. *)
Theorem uploads_are_stored :
  (forall days c tr c',
      NoDup (List.map day_date (dayDocuments days)) -> Forall genuine tr ->
      parseAndUpdateDays days c tr = Some (Returns tt, c') ->
      forall f, In f (dayDocuments days) ->
        exists d, docs c' !! day_date f = Some d /\ day_stored f d)
  /\ (forall events c tr warnings c',
        Forall genuine tr ->
        parseAndUpdateSchedules events c tr = Some (Returns warnings, c') ->
        forall k, rows_of k events <> [] ->
          let mapped := List.map generateScheduleEvent (rows_of k events) in
          exists d,
            docs c' !! k = Some d
            /\ ss_name d = k
            /\ ss_friendlyName d = JS.remove_first " - US" k
            /\ Permutation (List.map se_event (ss_schedule d)) mapped
            /\ (List.Forall on_the_clock mapped ->
                List.map se_event (ss_schedule d) = Array_sort compare_startTime mapped
                /\ StronglySorted no_later (List.map se_event (ss_schedule d)))).
Proof.
  split.
  - intros days c tr c' Hnd Hgen Hrun f Hin. unfold parseAndUpdateDays in Hrun.
    destruct (run _ _) as [s|] eqn:Hs; [|discriminate].
    destruct (status s) eqn:Hst; try discriminate. injection Hrun as <-.
    apply (run_reflected (M := Days) day_stored) with (batch := dayDocuments days)
      (c0 := c) (tr := tr); try assumption.
    + intros n f0. reflexivity.
    + intros n f0 d. reflexivity.
  - intros events c tr warnings c' Hgen Hrun k Hrows. cbn zeta.
    destruct (uploaded_schedule events c c' tr warnings k Hgen Hrun Hrows)
      as (d & Hd & Hname & Hfriendly & Hevents).
    exists d. split; [exact Hd|]. split; [exact Hname|]. split; [exact Hfriendly|].
    rewrite Hevents. split.
    + symmetry. apply Array_sort_Permutation.
    + intros Hclock. split; [reflexivity | now apply clocks_sorted].
Qed.

(** A day already stored and a new one, uploaded together. *)
Lemma uploads_are_stored_example :
  let days := [ {| Event_Date := "09/05/24"; Event_Caption := "US Day 2 (X Day - US)";
                   Event_Description := "" |};
                {| Event_Date := "09/06/24"; Event_Caption := "US Day 3";
                   Event_Description := "" |} ] in
  let stored := {| sd_id := 7%N; sd_date := "9-5-24"; sd_schedule := "US Day 2" |} in
  let c0 := {| docs := {[ "9-5-24" := stored ]}; next_id := 8%N |} in
  let tr := [LoopTurn; SaveReply 1 None; SaveSettled; LoopTurn; SaveReply 0 None;
             SaveSettled; LoopTurn; UpdateReply None; LoopTurn] in
  exists c',
    parseAndUpdateDays days c0 tr = Some (Returns tt, c')
    /\ (exists d, docs c' !! "9-5-24" = Some d /\ sd_schedule d = "X Day - US")
    /\ (exists d, docs c' !! "9-6-24" = Some d /\ sd_schedule d = "US Day 3").
Proof.
  cbn zeta.
  match goal with
  | |- exists c', parseAndUpdateDays ?days ?c0 ?tr = _ /\ _ =>
      set (rows := days); set (c := c0); set (events := tr)
  end.
  destruct (parseAndUpdateDays rows c events) as [[[[] | ex] c']|] eqn:Hrun;
    [|vm_compute in Hrun; discriminate Hrun..].
  exists c'. split; [reflexivity|].
  assert (Hnd : NoDup (List.map day_date (dayDocuments rows))).
  { vm_compute. repeat constructor; simpl; intuition discriminate. }
  assert (Hgen : Forall genuine events) by (repeat constructor).
  pose proof (proj1 uploads_are_stored rows c events c' Hnd Hgen Hrun) as Hall.
  split.
  - apply (Hall {| day_schedule := "X Day - US"; day_date := "9-5-24" |}).
    vm_compute. now left.
  - apply (Hall {| day_schedule := "US Day 3"; day_date := "9-6-24" |}).
    vm_compute. right. now left.
Defined.

(** ** Dates that are not MM/DD/YY *)

Lemma split_length (sep : ascii) (s : string) :
  length (JS.split sep s) = S (count_char sep s).
Proof.
  induction s as [|c s IH]; simpl; [reflexivity|].
  destruct (Ascii.eqb c sep); simpl; [now rewrite IH|].
  destruct (JS.split sep s); simpl in *; congruence.
Qed.

Lemma new_Date_NaN (y m d : JS.Num) :
  y = None \/ m = None \/ d = None -> JSDate.new_Date y m d = JSDate.InvalidDate.
Proof.
  destruct y as [y|], m as [m|], d as [d|]; try reflexivity.
  intros [H | [H | H]]; discriminate H.
Qed.

Lemma num_at_map (l : list string) (i : nat) :
  num_at (List.map JS.parseInt l) i = parseInt_value (str_at l i).
Proof.
  unfold num_at, str_at. rewrite nth_error_map. now destruct (nth_error l i).
Qed.

(** X6: a date with fewer than two slashes, or one of whose first three
    fields [parseInt] reads no number from, makes an invalid [Date], and its
    key is NaN-NaN-NaN: every row with such a date gets this one key. *)
Theorem date_key_malformed (date : string) :
  (count_char "/" date < 2)%nat
  \/ (exists i f, (i < 3)%nat /\ nth_error (JS.split "/" date) i = Some f
                  /\ JS.parseInt f = None) ->
  parseVeracrossDate date = JSDate.InvalidDate
  /\ generateWAFormatDate (parseVeracrossDate date) = "NaN-NaN-NaN"
  /\ forall day f,
       Event_Date day = date -> dayDocument day = Some f ->
       day_date f = "NaN-NaN-NaN".
Proof.
  intros H.
  assert (Hmiss : exists i, (i < 3)%nat
            /\ num_at (List.map JS.parseInt (JS.split "/" date)) i = None).
  { destruct H as [Hfew | (i & f & Hi & Hf & Hp)].
    - exists 2%nat. split; [lia|]. rewrite num_at_map. unfold str_at.
      assert (Hnone : nth_error (JS.split "/" date) 2 = None).
      { apply nth_error_None. rewrite split_length. lia. }
      now rewrite Hnone.
    - exists i. split; [exact Hi|]. rewrite num_at_map. unfold str_at. now rewrite Hf. }
  assert (Hinv : parseVeracrossDate date = JSDate.InvalidDate).
  { unfold parseVeracrossDate. apply new_Date_NaN.
    destruct Hmiss as (i & Hi & Hn).
    assert (i = 0 \/ i = 1 \/ i = 2)%nat as [-> | [-> | ->]] by lia; rewrite Hn; auto. }
  split; [exact Hinv|]. split.
  - rewrite Hinv. reflexivity.
  - intros day f Hday Hdoc. unfold dayDocument in Hdoc.
    destruct (JS.includes "Semester" (Event_Caption day)); [discriminate|].
    injection Hdoc as <-. cbn [day_date]. rewrite Hday, Hinv. reflexivity.
Qed.

Lemma date_key_malformed_dashes :
  dayDocument {| Event_Date := "2024-09-05"; Event_Caption := "US Day 2";
                 Event_Description := "" |}
  = Some {| day_schedule := "US Day 2"; day_date := "NaN-NaN-NaN" |}.
Proof.
  pose proof (date_key_malformed "2024-09-05") as H.
  destruct H as (_ & _ & Hrow); [left; simpl; lia|].
  destruct (dayDocument _) as [f|] eqn:Hdoc; [|vm_compute in Hdoc; discriminate Hdoc].
  pose proof (Hrow {| Event_Date := "2024-09-05"; Event_Caption := "US Day 2";
                      Event_Description := "" |} f eq_refl Hdoc) as Hkey.
  destruct f as [sch dt]. cbn [day_date] in Hkey. subst dt.
  vm_compute in Hdoc. injection Hdoc as <-. reflexivity.
Defined.

Lemma year_numerals_checked : forallb year_numeral_check (range 0 100) = true.
Proof. vm_compute. reflexivity. Qed.

Lemma later_century_checked :
  forallb (fun y =>
    forallb (fun m =>
      forallb (fun d => date_check (2000 + y) m d)
              (range 1 (Z.to_nat (JSDate.days_in_month (2000 + y) m))))
            (range 1 12))
          (range 0 100) = true.
Proof. vm_compute. reflexivity. Qed.

(** X7: a date of the calendar written MM/DD/YYYY, the year from 2000 to
    2099, gets the key M-D-YY of the same date written with two digits; the
    [Date] itself is the day of the year 4000 + YY. *)
Theorem date_key_four_digit_year (y m d : Z) (fm fd : string) :
  calendar_date y m d ->
  In fm (numerals m) -> In fd (numerals d) ->
  let date := parseVeracrossDate (fm ++ "/" ++ fd ++ "/" ++ JS.decimal (2000 + y)) in
  generateWAFormatDate date = date_key y m d
  /\ JSDate.getFullYear date = Some (4000 + y)
  /\ JSDate.getMonth date = Some (m - 1)
  /\ JSDate.getDate date = Some d.
Proof.
  intros Hdate Hm Hd.
  assert (Hbound : 1 <= d <= 31).
  { destruct Hdate as (_ & Hmm & Hdd). split; [lia|].
    assert (JSDate.days_in_month (2000 + y) m <= 31); [|lia].
    unfold JSDate.days_in_month.
    destruct (JSDate.InLeapYear (2000 + y));
      assert (m = 1 \/ m = 2 \/ m = 3 \/ m = 4 \/ m = 5 \/ m = 6 \/ m = 7 \/ m = 8
              \/ m = 9 \/ m = 10 \/ m = 11 \/ m = 12) as Hcase by lia;
      repeat (destruct Hcase as [-> | Hcase]; [vm_compute; discriminate|]);
      subst m; vm_compute; discriminate. }
  destruct (numeral_parses m fm ltac:(destruct Hdate; lia) Hm) as [Hsm Hpm].
  destruct (numeral_parses d fd ltac:(lia) Hd) as [Hsd Hpd].
  destruct Hdate as (Hy & Hmm & Hdd).
  pose proof year_numerals_checked as Hyear.
  rewrite forallb_forall in Hyear. specialize (Hyear y (range_In 0 100 y ltac:(lia))).
  unfold year_numeral_check in Hyear. apply andb_true_iff in Hyear as [Hsy Hpy].
  destruct (JS.parseInt (JS.decimal (2000 + y))) as [v|] eqn:Hv; [|discriminate Hpy].
  simpl in Hpy. apply Z.eqb_eq in Hpy. subst v.
  assert (Hparse : parseVeracrossDate (fm ++ "/" ++ fd ++ "/" ++ JS.decimal (2000 + y))
                   = JSDate.new_Date (JS.num_add (Some (2000 + y)) (Some 2000))
                                     (JS.num_sub (Some m) (Some 1)) (Some d)).
  { unfold parseVeracrossDate.
    change (fm ++ "/" ++ fd ++ "/" ++ JS.decimal (2000 + y))
      with (fm ++ String "/" (fd ++ String "/" (JS.decimal (2000 + y)))).
    rewrite (split_field _ _ _ Hsm), (split_field _ _ _ Hsd), (split_whole _ _ Hsy).
    cbn [List.map num_at nth_error]. now rewrite Hpm, Hpd, Hv. }
  cbn zeta. rewrite Hparse.
  pose proof later_century_checked as H.
  rewrite forallb_forall in H. specialize (H y (range_In 0 100 y ltac:(lia))).
  rewrite forallb_forall in H. specialize (H m (range_In 1 12 m ltac:(lia))).
  rewrite forallb_forall in H. specialize (H d). unfold date_check in H.
  assert (Hin : In d (range 1 (Z.to_nat (JSDate.days_in_month (2000 + y) m))))
    by (apply range_In; lia).
  specialize (H Hin). clear Hin.
  destruct (JSDate.new_Date (JS.num_add (Some (2000 + y)) (Some 2000))
                            (JS.num_sub (Some m) (Some 1)) (Some d)) as [|day];
    [discriminate H|].
  unfold generateWAFormatDate, date_key, JSDate.getFullYear, JSDate.getMonth, JSDate.getDate.
  destruct (JSDate.civil day) as [[yy mm] dd]. cbn [fst snd].
  repeat rewrite andb_true_iff in H. destruct H as [[Hyr Hmonth] Hday].
  apply Z.eqb_eq in Hyr, Hmonth, Hday. subst yy mm dd.
  split; [|split; [f_equal; lia | split; reflexivity]].
  cbn [JS.num_add JS.num_rem JS.NumberToString]. change (100 =? 0) with false. cbv iota.
  replace (m - 1 + 1) with m by lia.
  replace (Z.rem (2000 + (2000 + y)) 100) with y; [reflexivity|].
  rewrite Z.rem_mod_nonneg by lia.
  apply (Z.mod_unique_pos _ _ 40); lia.
Qed.

(** 09/05/2024 has the key of 09/05/24, and is a day of the year 4024. *)
Lemma date_key_four_digit_year_example :
  generateWAFormatDate (parseVeracrossDate "09/05/2024") = "9-5-24"
  /\ JSDate.getFullYear (parseVeracrossDate "09/05/2024") = Some 4024.
Proof.
  pose proof (date_key_four_digit_year 24 9 5 "09" "05") as H. cbn zeta in H.
  destruct H as (Hkey & Hyear & _).
  - unfold calendar_date. vm_compute. intuition discriminate.
  - simpl. right. left. reflexivity.
  - simpl. right. left. reflexivity.
  - split; [exact Hkey | exact Hyear].
Defined.

(** ** What an upload leaves alone *)

Section Frame.
Context `{M : Model}.

(** The [_id] of a stored document; an update keeps it. *)
Variable ident : Stored -> ObjectId.
Hypothesis set_fields_ident :
  forall n u d, ident (fst (set_fields n u d)) = ident d.

Lemma saves_key (batch : list Fields) (s : State) (i : nat) (f : Fields)
  (st : SaveState) :
  List.map fst (saves s) = batch -> saves s !! i = Some (f, st) ->
  In (key f) (List.map key batch).
Proof.
  intros <- Hi. apply in_map, in_map_iff. exists (f, st). split; [reflexivity|].
  apply list_elem_of_In. eapply list_elem_of_lookup_2; eauto.
Qed.

Lemma Transition_queued (batch : list Fields) (s s' : State) :
  List.map fst (saves s) = batch -> queued_in batch s -> Transition s s' ->
  queued_in batch s'.
Proof.
  intros Hb Hq Ht k0 u0.
  destruct Ht as [i f c' Hi Hins | i f Hi | i f c Hi Hc | Hst Hp | rest e Hst Hp
                 | i f st Hst Hi Hok | i f c Hst Hi | k u c Hst | k u Hst
                 | Hst | i f c Hi Hc Hfin Hst];
    cbn [promises status with_status]; intros [Hin | Hw]; try discriminate;
    try (apply (Hq k0 u0); now left); try (apply (Hq k0 u0); now right).
  - apply elem_of_app in Hin as [Hin | Hin]; [apply (Hq k0 u0); now left|].
    apply list_elem_of_singleton in Hin. injection Hin as -> ->.
    eapply saves_key; eauto.
  - apply (Hq k0 u0). left. rewrite Hp, elem_of_app. now left.
  - apply (Hq k0 u0). left. rewrite Hp, elem_of_app, list_elem_of_singleton.
    right. congruence.
Qed.

Lemma Transition_frame (batch : list Fields) (s s' : State) :
  List.map fst (saves s) = batch -> queued_in batch s -> Transition s s' ->
  (forall k, ~ In k (List.map key batch) -> docs (coll s') !! k = docs (coll s) !! k)
  /\ (forall k d, docs (coll s) !! k = Some d ->
        exists d', docs (coll s') !! k = Some d' /\ ident d' = ident d).
Proof.
  intros Hb Hq Ht.
  destruct Ht as [i f c' Hi Hins | i f Hi | i f c Hi Hc | Hst Hp | rest e Hst Hp
                 | i f st Hst Hi Hok | i f c Hst Hi | k u c Hst | k u Hst
                 | Hst | i f c Hi Hc Hfin Hst];
    cbn [coll with_status]; try (split; [reflexivity | now eauto]).
  - destruct (insertOne_Some f _ _ Hins) as [_ Hother]. split.
    + intros k Hk. apply Hother. intros ->. apply Hk. eapply saves_key; eauto.
    + intros k d Hd. exists d. split; [|reflexivity]. rewrite Hother; [exact Hd|].
      intros ->. unfold insertOne in Hins. rewrite Hd in Hins. discriminate.
  - split.
    + intros k0 Hk. rewrite findOneAndUpdate_lookup.
      destruct (decide (k0 = k)) as [-> | Hne]; [|reflexivity].
      exfalso. apply Hk. apply (Hq k u). now right.
    + intros k0 d Hd. rewrite findOneAndUpdate_lookup.
      destruct (decide (k0 = k)) as [-> | Hne]; [|eauto].
      rewrite Hd. cbn [option_map]. eexists. split; [reflexivity|].
      apply set_fields_ident.
Qed.

Lemma run_frame (batch : list Fields) (c0 : Collection Stored) (tr : list Event)
  (s : State) :
  run tr (start batch c0) = Some s ->
  (forall k, ~ In k (List.map key batch) -> docs (coll s) !! k = docs c0 !! k)
  /\ (forall k d, docs c0 !! k = Some d ->
        exists d', docs (coll s) !! k = Some d' /\ ident d' = ident d).
Proof.
  assert (Hgen : forall s0,
             List.map fst (saves s0) = batch -> queued_in batch s0 ->
             run tr s0 = Some s ->
             (forall k, ~ In k (List.map key batch) ->
                docs (coll s) !! k = docs (coll s0) !! k)
             /\ (forall k d, docs (coll s0) !! k = Some d ->
                   exists d', docs (coll s) !! k = Some d' /\ ident d' = ident d)).
  { induction tr as [|ev tr IH]; intros s0 Hb Hq; simpl.
    - intros [= <-]. split; [reflexivity | now eauto].
    - destruct (step ev s0) as [s1|] eqn:Hstep; [|discriminate]. intros Hrun.
      pose proof (step_Transition ev s0 s1 Hstep) as Ht.
      destruct (Transition_frame batch s0 s1 Hb Hq Ht) as [Hf1 Hi1].
      destruct (IH s1) as [Hf Hi]; [| |exact Hrun|].
      + rewrite <- Hb. now apply Transition_fields.
      + eapply Transition_queued; eauto.
      + split.
        * intros k Hk. rewrite (Hf k Hk). now apply Hf1.
        * intros k d Hd. destruct (Hi1 k d Hd) as (d1 & Hd1 & Hid1).
          destruct (Hi k d1 Hd1) as (d' & Hd' & Hid'). exists d'. split; [exact Hd'|].
          congruence. }
  intros Hrun. apply (Hgen (start batch c0)); [| |exact Hrun].
  - cbn [start saves]. rewrite List.map_map. apply List.map_id.
  - intros k u [Hin | Hst]; [|discriminate].
    cbn [start promises] in Hin.
    apply list_elem_of_In, in_map_iff in Hin as (j & [=] & _).
Qed.
End Frame.

Lemma Object_values_names (events : list CSVEvent) (o : Schedules_object) (k : string) :
  group_events [] events = Returns o ->
  In k (List.map s_name (List.map sort_schedule (Object_values o))) ->
  rows_of k events <> [].
Proof.
  intros Hgroup Hin.
  pose proof (group_events_spec events o Hgroup) as Hg.
  pose proof (group_events_NoDup events [] o (NoDup_nil _) Hgroup) as Hnd.
  rewrite List.map_map in Hin. apply in_map_iff in Hin as (g & <- & Hin).
  apply Object_values_In in Hin as [k Hin].
  apply (In_own_property _ _ _ Hnd) in Hin. rewrite (Hg k) in Hin.
  apply group_of_Some in Hin as [-> Hne]. exact Hne.
Qed.

(** X8: an upload, whether it returns or throws, leaves every document
    as it was whose key is not the key of a row (the date key of a day kept,
    the identifier of an event), removes no document and keeps the [_id] of
    every document it finds. *)
Theorem uploads_touch_their_keys_only :
  (forall days c tr r c',
      parseAndUpdateDays days c tr = Some (r, c') ->
      (forall k, ~ In k (List.map day_date (dayDocuments days)) ->
         docs c' !! k = docs c !! k)
      /\ (forall k d, docs c !! k = Some d ->
            exists d', docs c' !! k = Some d' /\ sd_id d' = sd_id d))
  /\ (forall events c tr r c',
        parseAndUpdateSchedules events c tr = Some (r, c') ->
        (forall k, rows_of k events = [] -> docs c' !! k = docs c !! k)
        /\ (forall k d, docs c !! k = Some d ->
              exists d', docs c' !! k = Some d' /\ ss_id d' = ss_id d)).
Proof.
  split.
  - intros days c tr r c' Hrun. unfold parseAndUpdateDays in Hrun.
    destruct (run _ _) as [s|] eqn:Hs; [|discriminate].
    assert (Hc : c' = coll s) by (destruct (status s); congruence). subst c'.
    apply (run_frame (M := Days) sd_id) with (tr := tr); [|exact Hs].
    intros n u d. reflexivity.
  - intros events c tr r c' Hrun. unfold parseAndUpdateSchedules in Hrun.
    destruct (group_events [] events) as [o|] eqn:Hgroup.
    + destruct (run _ _) as [s|] eqn:Hs; [|discriminate].
      assert (Hc : c' = coll s) by (destruct (status s); congruence). subst c'.
      destruct (run_frame (M := Schedules) ss_id) with (tr := tr) (s := s)
        (batch := List.map sort_schedule (Object_values o)) (c0 := c) as [Hf Hi];
        [|exact Hs|].
      * intros n u d. cbn [set_fields Schedules].
        destruct (match set_events u with
                  | Some l => embed_events n l
                  | None => (ss_schedule d, n)
                  end) as [evs n']. reflexivity.
      * split; [|exact Hi]. intros k Hk. apply Hf. intros Hin.
        now apply (Object_values_names events o k Hgroup Hin).
    + injection Hrun as _ <-. split; [reflexivity | now eauto].
Qed.

(** A new day is uploaded: the day stored before is as it was. *)
Lemma uploads_touch_their_keys_only_example :
  let stored := {| sd_id := 7%N; sd_date := "9-5-24"; sd_schedule := "US Day 2" |} in
  let c0 := {| docs := {[ "9-5-24" := stored ]}; next_id := 8%N |} in
  exists c',
    parseAndUpdateDays
      [ {| Event_Date := "09/06/24"; Event_Caption := "US Day 3";
           Event_Description := "" |} ] c0 [LoopTurn; SaveReply 0 None; SaveSettled; LoopTurn]
    = Some (Returns tt, c')
    /\ docs c' !! "9-5-24" = Some stored.
Proof.
  cbn zeta.
  destruct (parseAndUpdateDays _ _ _) as [[[[] | ex] c']|] eqn:Hrun;
    [|vm_compute in Hrun; discriminate Hrun..].
  exists c'. split; [reflexivity|].
  destruct (proj1 uploads_touch_their_keys_only _ _ _ _ _ Hrun) as [Hframe _].
  rewrite Hframe; [reflexivity|].
  vm_compute. intros [H | []]. discriminate H.
Defined.

(** ** An upload, then [getScheduleList] *)

(** X9: after [parseAndUpdateSchedules] has returned, [getScheduleList]
    of an identifier of the rows answers a schedule with an [_id], that
    name, the friendly name and the events of its rows, which are in the
    order of the comparator, ascending, when they all start at a time of
    the clock; for any other name it answers what it answered before the
    upload.  This is for runs where the store rejects a save with code
    11000 only when the key is taken. *)
Theorem getScheduleList_after_upload (events : list CSVEvent)
  (c c' : Collection StoredSchedule) (tr : list Event) (warnings : list ScheduleEvent) :
  Forall genuine tr ->
  parseAndUpdateSchedules events c tr = Some (Returns warnings, c') ->
  (forall k, rows_of k events <> [] ->
     let mapped := List.map generateScheduleEvent (rows_of k events) in
     let answer := List.map ev_event (v_schedule (getScheduleList k c')) in
     v_id (getScheduleList k c') <> None
     /\ v_name (getScheduleList k c') = k
     /\ v_friendlyName (getScheduleList k c') = JS.remove_first " - US" k
     /\ Permutation answer mapped
     /\ (List.Forall on_the_clock mapped ->
         answer = Array_sort compare_startTime mapped
         /\ StronglySorted no_later answer))
  /\ (forall k, rows_of k events = [] -> getScheduleList k c' = getScheduleList k c).
Proof.
  intros Hgen Hrun. split.
  - intros k Hrows.
    destruct (uploaded_schedule events c c' tr warnings k Hgen Hrun Hrows)
      as (d & Hd & Hname & Hfriendly & Hevents).
    cbn zeta. unfold getScheduleList.
    change (findOne (M := Schedules) k c') with (docs c' !! k).
    rewrite Hd. cbn [v_id v_name v_friendlyName v_schedule].
    split; [discriminate|]. split; [exact Hname|]. split; [exact Hfriendly|].
    rewrite List.map_map. cbn [ev_event].
    change (List.map (fun x => se_event x) (ss_schedule d))
      with (List.map se_event (ss_schedule d)).
    rewrite Hevents. split.
    + symmetry. apply Array_sort_Permutation.
    + intros Hclock. split; [reflexivity | now apply clocks_sorted].
  - intros k Hrows. unfold getScheduleList.
    change (findOne (M := Schedules) k c') with (docs c' !! k).
    change (findOne (M := Schedules) k c) with (docs c !! k).
    unfold parseAndUpdateSchedules in Hrun.
    destruct (group_events [] events) as [o|] eqn:Hgroup; [|discriminate].
    destruct (run _ _) as [s|] eqn:Hs; [|discriminate].
    destruct (status s) eqn:Hst; try discriminate. injection Hrun as _ <-.
    destruct (run_frame (M := Schedules) ss_id) with (tr := tr) (s := s)
      (batch := List.map sort_schedule (Object_values o)) (c0 := c) as [Hf _];
      [|exact Hs|].
    + intros n u d. cbn [set_fields Schedules].
      destruct (match set_events u with
                | Some l => embed_events n l
                | None => (ss_schedule d, n)
                end) as [evs n']. reflexivity.
    + rewrite Hf; [reflexivity|]. intros Hin.
      now apply (Object_values_names events o k Hgroup Hin).
Qed.

(** Two rows of day 1 uploaded into an empty collection, then read back. *)
Lemma getScheduleList_after_upload_example :
  let events :=
    [ {| Description := "Block C - US"; End_Time := "2:00 pm";
         Start_Time := "1:00 pm"; Block_Schedule := ""; Day := "US D1" |};
      {| Description := "Block D - US"; End_Time := "10:00 am";
         Start_Time := "9:00 am"; Block_Schedule := ""; Day := "D1" |} ] in
  exists c',
    parseAndUpdateSchedules events empty_collection
      [LoopTurn; SaveReply 0 None; SaveSettled; LoopTurn] = Some (Returns [], c')
    /\ v_name (getScheduleList "US Day 1" c') = "US Day 1"
    /\ List.map (fun e => startTime (ev_event e)) (v_schedule (getScheduleList "US Day 1" c'))
       = ["9:00 AM"; "1:00 PM"]
    /\ v_name (getScheduleList "US Day 2" c') = "NONE".
Proof.
  cbn zeta.
  match goal with
  | |- exists c', parseAndUpdateSchedules ?ev ?c0 ?tr = _ /\ _ => set (events := ev)
  end.
  destruct (parseAndUpdateSchedules events _ _) as [[[warnings | ex] c']|] eqn:Hrun;
    [|vm_compute in Hrun; discriminate Hrun..].
  assert (Hw : warnings = []).
  { vm_compute in Hrun. injection Hrun as <- _. reflexivity. }
  subst warnings. exists c'. split; [reflexivity|].
  assert (Hgen : Forall genuine [LoopTurn; SaveReply 0 None; SaveSettled; LoopTurn])
    by (repeat constructor).
  destruct (getScheduleList_after_upload events _ c' _ [] Hgen Hrun) as [Hin Hout].
  destruct (Hin "US Day 1") as (_ & Hname & _ & _ & Hevents); [vm_compute; discriminate|].
  split; [exact Hname|]. split.
  - rewrite <- (List.map_map ev_event startTime). cbn zeta in Hevents.
    destruct Hevents as [-> _]; [|vm_compute; reflexivity].
    set (l := List.map generateScheduleEvent (rows_of "US Day 1" events)).
    vm_compute in l. subst l. repeat constructor.
    + exists (13, 0), 1, 0, true. split; [lia|]. split; [lia|]. split; [|reflexivity].
      exists "1", "00". split; [now left|]. split; [right; now left | reflexivity].
    + exists (9, 0), 9, 0, false. split; [lia|]. split; [lia|]. split; [|reflexivity].
      exists "9", "00". split; [now left|]. split; [right; now left | reflexivity].
  - rewrite (Hout "US Day 2"); [reflexivity | vm_compute; reflexivity].
Defined.

(** ** The upload endpoints *)

Lemma strict_ne_false (x : option string) (s : string) :
  strict_ne x s = false <-> x = Some s.
Proof.
  destruct x as [v|]; simpl.
  - rewrite negb_false_iff, String.eqb_eq. split; congruence.
  - split; discriminate.
Qed.

Lemma strict_ne_true (x : option string) (s : string) :
  strict_ne x s = true <-> x <> Some s.
Proof.
  rewrite <- strict_ne_false. destruct (strict_ne x s); split; congruence.
Qed.

Lemma falsy_false (x : option string) :
  falsy x = false <-> exists v, x = Some v /\ v <> "".
Proof.
  destruct x as [v|]; simpl.
  - rewrite String.eqb_neq. split; [eauto|]. now intros (? & [= <-] & ?).
  - split; [discriminate|]. now intros (? & [=] & _).
Qed.

Lemma falsy_true (x : option string) :
  falsy x = true <-> x = None \/ x = Some "".
Proof.
  destruct x as [v|]; simpl.
  - rewrite String.eqb_eq. split; [intros ->; now right|]. intros [[=] | [= ->]]. reflexivity.
  - split; [now left | reflexivity].
Qed.

Lemma method_POST (m : string) : negb (String.eqb m "POST") = true <-> m <> "POST".
Proof. now rewrite negb_true_iff, String.eqb_neq. Qed.

(** The four checks of a request, in the order of the handlers. *)
Ltac request_gate req key Hm Ht Hb Ha :=
  destruct (negb (String.eqb (method req) "POST")) eqn:Hm;
  [apply method_POST in Hm
  |apply negb_false_iff, String.eqb_eq in Hm;
   destruct (strict_ne (content_type req) "text/csv") eqn:Ht;
   [apply strict_ne_true in Ht
   |apply strict_ne_false in Ht;
    destruct (falsy (body req)) eqn:Hb;
    [apply falsy_true in Hb
    |apply falsy_false in Hb;
     destruct (strict_ne (authorization req) (bearer key)) eqn:Ha;
     [apply strict_ne_true in Ha | apply strict_ne_false in Ha]]]].

(** What is left of the statement once the response is known. *)
Ltac answered :=
  cbn [res_status res_sent]; repeat split; intros;
  try discriminate; try reflexivity; try tauto;
  try (simpl; intuition (try reflexivity; try discriminate; try congruence); fail);
  try (repeat match goal with
              | H : _ /\ _ |- _ => destruct H
              | H : exists _, _ |- _ => destruct H
              | H : _ \/ _ |- _ => destruct H
              end; congruence).

Lemma parseAndUpdateDays_kept (days : list CSVDay) (c c' : Collection StoredDay)
  (tr : list Event) (r : Result unit) :
  parseAndUpdateDays days c tr = Some (r, c') -> dom (docs c) ⊆ dom (docs c').
Proof.
  unfold parseAndUpdateDays. destruct (run _ _) as [s|] eqn:Hs; [|discriminate].
  intros Hr. assert (c' = coll s) as -> by (destruct (status s); congruence).
  exact (proj1 (run_kept (M := Days) tr _ s Hs)).
Qed.

(** X10: the days endpoint, whenever it answers.  The checks are made in
    the order method, content type, body, token, and the first that fails
    decides the answer: 405, 400, 400, 401; a request refused so leaves the
    collection as it was.  The answer is 200, the plain acknowledgement,
    exactly when the request passes the checks (the token being the one of
    the template literal: with the key unset, the word undefined), the
    connection is there, the text is parsed and [parseAndUpdateDays]
    returns.  It is 500, with one fixed message, exactly when the request
    passes the checks and the connection fails, or the parser throws, or
    [parseAndUpdateDays] throws; in the first two cases nothing was written,
    and in the third what was written stays.  The handler gives no answer
    exactly when the request passes the checks, the connection is there, the
    text is parsed and the run of [parseAndUpdateDays] gives its caller
    nothing (the events stop before the end of the function, or the process
    ended). *)
Theorem upload_days_spec (parse : string -> Result (list CSVDay))
  (UPLOAD_KEY : option string) (dbConnect : Connection) (req : Request)
  (c : Collection StoredDay) (tr : list Event) :
  (forall res c',
     UploadDays.handler parse UPLOAD_KEY dbConnect req c tr = Some (res, c') ->
     (res_status res = 405 <-> method req <> "POST")
     /\ (res_status res = 400 <->
           method req = "POST"
           /\ (content_type req <> Some "text/csv" \/ body req = None \/ body req = Some ""))
     /\ (res_status res = 401 <->
           method req = "POST" /\ content_type req = Some "text/csv"
           /\ (exists csv, body req = Some csv /\ csv <> "")
           /\ authorization req <> Some (bearer UPLOAD_KEY))
     /\ (res_status res = 200 <->
           exists csv days,
             accepted UPLOAD_KEY req csv /\ dbConnect = Returns tt
             /\ parse csv = Returns days
             /\ parseAndUpdateDays days c tr = Some (Returns tt, c'))
     /\ (res_status res = 200 -> res_sent res = send_success)
     /\ (res_status res = 500 <->
           exists csv,
             accepted UPLOAD_KEY req csv
             /\ (((exists e, dbConnect = Throws e) /\ c' = c)
                 \/ (dbConnect = Returns tt /\ (exists e, parse csv = Throws e) /\ c' = c)
                 \/ (dbConnect = Returns tt
                     /\ exists days e,
                          parse csv = Returns days
                          /\ parseAndUpdateDays days c tr = Some (Throws e, c'))))
     /\ (res_status res = 500 ->
           res_sent res = send_error "Internal server error"
           /\ dom (docs c) ⊆ dom (docs c'))
     /\ (res_status res = 400 \/ res_status res = 401 \/ res_status res = 405 -> c' = c)
     /\ In (res_status res) [200; 400; 401; 405; 500])
  /\ (UploadDays.handler parse UPLOAD_KEY dbConnect req c tr = None <->
        exists csv days,
          accepted UPLOAD_KEY req csv /\ dbConnect = Returns tt
          /\ parse csv = Returns days
          /\ parseAndUpdateDays days c tr = None).
Proof.
  unfold UploadDays.handler, accepted.
  request_gate req UPLOAD_KEY Hm Ht Hb Ha;
    try (split; [intros res c' H; injection H as <- <-; answered | answered]; fail).
  destruct Hb as (csv & Hcsv & Hne). rewrite Hcsv. cbn [default]. change (id csv) with csv.
  assert (Hbody : body req <> None /\ body req <> Some "") by (split; congruence).
  cbn zeta.
  destruct dbConnect as [[]|ex]; cbv iota.
  2:{ split; [intros res c' H; injection H as <- <-; answered | answered].
      exists csv. split; [now repeat split|]. left. eauto. }
  destruct (parse csv) as [days|ex] eqn:Hparse.
  2:{ split; [intros res c' H; injection H as <- <-; answered | answered].
      exists csv. split; [now repeat split|]. right. left. eauto. }
  destruct (parseAndUpdateDays days c tr) as [[[[]|ex] c1]|] eqn:Hrun.
  - split; [intros res c' H; injection H as <- <-; answered | answered].
    exists csv, days. now repeat split.
  - split; [intros res c' H; injection H as <- <-; answered | answered].
    + exists csv. split; [now repeat split|]. right. right. split; [reflexivity|].
      exists days, ex. now split.
    + eapply parseAndUpdateDays_kept; eauto.
  - split; [intros res c' H; discriminate H|].
    split; [intros _|reflexivity]. exists csv, days. now repeat split.
Qed.

(** With the key unset, the token "undefined" is the one accepted. *)
Lemma upload_days_spec_example :
  let parse := fun _ : string =>
    Returns [ {| Event_Date := "09/05/24"; Event_Caption := "US Day 2";
                 Event_Description := "" |} ] in
  let req := {| method := "POST"; content_type := Some "text/csv";
                authorization := Some "Bearer undefined";
                body := Some "Event Date,Event Caption,Event Description" |} in
  exists c',
    UploadDays.handler parse None (Returns tt) req empty_collection
      [LoopTurn; SaveReply 0 None; SaveSettled; LoopTurn]
    = Some ({| res_status := 200; res_sent := send_success |}, c').
Proof.
  cbn zeta.
  destruct (UploadDays.handler _ _ _ _ _ _) as [[[code sent] c']|] eqn:Hrun;
    [|vm_compute in Hrun; discriminate Hrun].
  exists c'.
  assert (Hcode : code = 200) by (vm_compute in Hrun; congruence).
  destruct (proj1 (upload_days_spec _ _ _ _ _ _) _ _ Hrun) as (_ & _ & _ & _ & Hok & _).
  pose proof (Hok Hcode) as Hsent. cbn [res_sent] in Hsent.
  now rewrite Hcode, Hsent.
Defined.

Lemma parseAndUpdateSchedules_kept (events : list CSVEvent)
  (c c' : Collection StoredSchedule) (tr : list Event) (r : Result (list ScheduleEvent)) :
  parseAndUpdateSchedules events c tr = Some (r, c') -> dom (docs c) ⊆ dom (docs c').
Proof.
  unfold parseAndUpdateSchedules. destruct (group_events [] events) as [o|].
  - destruct (run _ _) as [s|] eqn:Hs; [|discriminate].
    intros Hr. assert (c' = coll s) as -> by (destruct (status s); congruence).
    exact (proj1 (run_kept (M := Schedules) tr _ s Hs)).
  - now intros [= _ <-].
Qed.

Lemma Array_sort_nil {A : Type} (compare : A -> A -> JS.Num) (l : list A) :
  Array_sort compare l = [] <-> l = [].
Proof.
  split; [|now intros ->]. intros H.
  pose proof (Permutation_length (Array_sort_Permutation compare l)) as Hlen.
  rewrite H in Hlen. now destruct l.
Qed.

(** X11: the schedules endpoint, whenever it answers, makes the checks of
    the days endpoint with the same answers.  The answer is 200 exactly
    when the request passes the checks, the connection is there, the text
    is parsed and [parseAndUpdateSchedules] returns; 500, with the fixed
    message, exactly when the request passes the checks and the connection
    fails, or the parser throws, or [parseAndUpdateSchedules] throws.  On
    200 it sends the plain acknowledgement when no row has the identifier
    ORPHAN, and otherwise one warning per such row: the events of these
    rows, each with the fixed message, in the order of the comparator when
    they all start at a time of the clock.  The collection then holds the
    document ORPHAN with the events of the warnings, in their order (for
    runs where code 11000 means that the key is taken).  The handler gives
    no answer exactly when the run of [parseAndUpdateSchedules] gives its
    caller nothing. *)
Theorem upload_schedules_spec (parse : string -> Result (list CSVEvent))
  (UPLOAD_KEY : option string) (dbConnect : Connection) (req : Request)
  (c : Collection StoredSchedule) (tr : list Event) :
  (forall res c',
     UploadSchedules.handler parse UPLOAD_KEY dbConnect req c tr = Some (res, c') ->
     (res_status res = 405 <-> method req <> "POST")
     /\ (res_status res = 400 <->
           method req = "POST"
           /\ (content_type req <> Some "text/csv" \/ body req = None \/ body req = Some ""))
     /\ (res_status res = 401 <->
           method req = "POST" /\ content_type req = Some "text/csv"
           /\ (exists csv, body req = Some csv /\ csv <> "")
           /\ authorization req <> Some (bearer UPLOAD_KEY))
     /\ (res_status res = 200 <->
           exists csv events warnings,
             accepted UPLOAD_KEY req csv /\ dbConnect = Returns tt
             /\ parse csv = Returns events
             /\ parseAndUpdateSchedules events c tr = Some (Returns warnings, c'))
     /\ (forall csv events,
           res_status res = 200 -> body req = Some csv -> parse csv = Returns events ->
           let mapped := List.map generateScheduleEvent (rows_of "ORPHAN" events) in
           (rows_of "ORPHAN" events = [] -> res_sent res = send_success)
           /\ (rows_of "ORPHAN" events <> [] ->
               exists warnings,
                 res_sent res = send_warnings (List.map UploadSchedules.warning warnings)
                 /\ Permutation warnings mapped
                 /\ (List.Forall on_the_clock mapped ->
                     warnings = Array_sort compare_startTime mapped
                     /\ StronglySorted no_later warnings)
                 /\ (Forall genuine tr ->
                     exists d, docs c' !! "ORPHAN" = Some d
                               /\ List.map se_event (ss_schedule d) = warnings)))
     /\ (res_status res = 500 <->
           exists csv,
             accepted UPLOAD_KEY req csv
             /\ (((exists e, dbConnect = Throws e) /\ c' = c)
                 \/ (dbConnect = Returns tt /\ (exists e, parse csv = Throws e) /\ c' = c)
                 \/ (dbConnect = Returns tt
                     /\ exists events e,
                          parse csv = Returns events
                          /\ parseAndUpdateSchedules events c tr = Some (Throws e, c'))))
     /\ (res_status res = 500 ->
           res_sent res = send_error "Internal server error"
           /\ dom (docs c) ⊆ dom (docs c'))
     /\ (res_status res = 400 \/ res_status res = 401 \/ res_status res = 405 -> c' = c)
     /\ In (res_status res) [200; 400; 401; 405; 500])
  /\ (UploadSchedules.handler parse UPLOAD_KEY dbConnect req c tr = None <->
        exists csv events,
          accepted UPLOAD_KEY req csv /\ dbConnect = Returns tt
          /\ parse csv = Returns events
          /\ parseAndUpdateSchedules events c tr = None).
Proof.
  unfold UploadSchedules.handler, accepted.
  request_gate req UPLOAD_KEY Hm Ht Hb Ha;
    try (split; [intros res c' H; injection H as <- <-; answered | answered]; fail).
  destruct Hb as (csv & Hcsv & Hne). rewrite Hcsv. cbn [default]. change (id csv) with csv.
  assert (Hbody : body req <> None /\ body req <> Some "") by (split; congruence).
  cbn zeta.
  destruct dbConnect as [[]|ex]; cbv iota.
  2:{ split; [intros res c' H; injection H as <- <-; answered | answered].
      exists csv. split; [now repeat split|]. left. eauto. }
  destruct (parse csv) as [events|ex] eqn:Hparse.
  2:{ split; [intros res c' H; injection H as <- <-; answered | answered].
      exists csv. split; [now repeat split|]. right. left. eauto. }
  destruct (parseAndUpdateSchedules events c tr) as [[[warnings|ex] c1]|] eqn:Hrun.
  - pose proof (returned_warnings_rows events c c1 tr warnings Hrun) as Hw.
    assert (Hsent : forall sent csv0 events0,
               sent = (if 0 <? Z.of_nat (length warnings)
                       then send_warnings (List.map UploadSchedules.warning warnings)
                       else send_success) ->
               Some csv = Some csv0 -> Returns events = Returns events0 ->
               (rows_of "ORPHAN" events0 = [] -> sent = send_success)
               /\ (rows_of "ORPHAN" events0 <> [] ->
                   exists ws,
                     sent = send_warnings (List.map UploadSchedules.warning ws)
                     /\ Permutation ws
                          (List.map generateScheduleEvent (rows_of "ORPHAN" events0))
                     /\ (List.Forall on_the_clock
                           (List.map generateScheduleEvent (rows_of "ORPHAN" events0)) ->
                         ws = Array_sort compare_startTime
                                (List.map generateScheduleEvent (rows_of "ORPHAN" events0))
                         /\ StronglySorted no_later ws)
                     /\ (Forall genuine tr ->
                         exists d, docs c1 !! "ORPHAN" = Some d
                                   /\ List.map se_event (ss_schedule d) = ws))).
    { intros sent csv0 events0 -> _ [= <-]. split.
      - intros Hrows. rewrite Hrows in Hw. simpl in Hw. now subst warnings.
      - intros Hrows.
        assert (Hlen : (0 <? Z.of_nat (length warnings)) = true).
        { apply Z.ltb_lt. destruct warnings; [|simpl; lia].
          symmetry in Hw. apply Array_sort_nil in Hw.
          destruct (rows_of "ORPHAN" events); [contradiction | discriminate Hw]. }
        rewrite Hlen. exists warnings. split; [reflexivity|]. rewrite Hw. split.
        + symmetry. apply Array_sort_Permutation.
        + split.
          * intros Hclock. split; [reflexivity | now apply clocks_sorted].
          * intros Hgen.
            destruct (uploaded_schedule events c c1 tr warnings "ORPHAN" Hgen Hrun Hrows)
              as (d & Hd & _ & _ & Hevents).
            exists d. split; [exact Hd | exact Hevents]. }
    split; [|split; [destruct (0 <? Z.of_nat (length warnings)); discriminate|]].
    + intros res c' H.
      assert (Hres : res_status res = 200 /\ c' = c1
                     /\ res_sent res
                        = (if 0 <? Z.of_nat (length warnings)
                           then send_warnings (List.map UploadSchedules.warning warnings)
                           else send_success)).
      { destruct (0 <? Z.of_nat (length warnings)); injection H as <- <-; now repeat split. }
      destruct Hres as (Hcode & -> & Hres). clear H. rewrite Hcode.
      split; [answered|]. split; [answered|]. split; [answered|].
      split; [split; [intros _|reflexivity]|].
      { exists csv, events, warnings. now repeat split. }
      split.
      { intros csv0 events0 _ Hc Hp. cbn zeta. injection Hc as <-.
        rewrite Hparse in Hp.
        exact (Hsent (res_sent res) csv events0 Hres eq_refl Hp). }
      answered.
    + intros (csv0 & events0 & (_ & _ & Hc & _) & _ & Hp & Hnone).
      injection Hc as <-. rewrite Hparse in Hp. injection Hp as <-.
      congruence.
  - split; [intros res c' H; injection H as <- <-; answered | answered].
    + exists csv. split; [now repeat split|]. right. right. split; [reflexivity|].
      exists events, ex. now split.
    + eapply parseAndUpdateSchedules_kept; eauto.
  - split; [intros res c' H; discriminate H|].
    split; [intros _|reflexivity]. exists csv, events. now repeat split.
Qed.

(** A row without a day number is answered as a warning, and is stored. *)
Lemma upload_schedules_spec_example :
  let parse := fun _ : string =>
    Returns [ {| Description := "Block C - US"; End_Time := "2:00 pm";
                 Start_Time := "1:00 pm"; Block_Schedule := ""; Day := "abc" |} ] in
  let req := {| method := "POST"; content_type := Some "text/csv";
                authorization := Some "Bearer k";
                body := Some "Description,End Time,Start Time,Block Schedule,Day" |} in
  let e := {| name := "Block C"; code := "C"; startTime := "1:00 PM";
              endTime := "2:00 PM" |} in
  exists res c' d,
    UploadSchedules.handler parse (Some "k") (Returns tt) req empty_collection
      [LoopTurn; SaveReply 0 None; SaveSettled; LoopTurn] = Some (res, c')
    /\ res_status res = 200
    /\ res_sent res = send_warnings [UploadSchedules.warning e]
    /\ docs c' !! "ORPHAN" = Some d
    /\ List.map se_event (ss_schedule d) = [e].
Proof.
  cbn zeta.
  destruct (UploadSchedules.handler _ _ _ _ _ _) as [[res c']|] eqn:Hrun;
    [|vm_compute in Hrun; discriminate Hrun].
  assert (Hcode : res_status res = 200) by (vm_compute in Hrun; now injection Hrun as <- _).
  destruct (proj1 (upload_schedules_spec _ _ _ _ _ _) _ _ Hrun) as (_ & _ & _ & _ & Hok & _).
  destruct (Hok _ _ Hcode eq_refl eq_refl) as [_ Hsent]. cbn zeta in Hsent.
  destruct Hsent as (ws & Hsent & _ & Hsorted & Hstored); [vm_compute; discriminate|].
  destruct Hsorted as [Hws _].
  { repeat constructor. exists (13, 0), 1, 0, true.
    split; [lia|]. split; [lia|]. split; [|reflexivity].
    exists "1", "00". split; [now left|]. split; [right; now left | reflexivity]. }
  destruct Hstored as (d & Hd & Hevents); [repeat constructor|].
  exists res, c', d. split; [reflexivity|]. split; [exact Hcode|].
  split; [rewrite Hsent, Hws; vm_compute; reflexivity|]. split; [exact Hd|].
  rewrite Hevents, Hws. vm_compute. reflexivity.
Defined.



(** ** The standard output of a first upload *)

Section ProgressFacts.
Context `{M : Model}.
Variable noun : string.
Variable logs_duplicate : bool.





End ProgressFacts.

Section FirstUpload.
Context `{M : Model}.
Variable batch : list Fields.
Variable c0 : Collection Stored.
Hypothesis keys_distinct : NoDup (List.map key batch).
Hypothesis keys_new : forall f, In f batch -> docs c0 !! key f = None.




End FirstUpload.



(** The same two days uploaded again, both saves rejected during the first
    [await]: the count shown goes down to 0. *)
Lemma output_of_second_upload :
  let days := [ {| Event_Date := "09/05/24"; Event_Caption := "US Day 2";
                   Event_Description := "" |};
                {| Event_Date := "09/06/24"; Event_Caption := "US Day 3";
                   Event_Description := "" |} ] in
  let c0 := {| docs := {[ "9-5-24" := {| sd_id := 0%N; sd_date := "9-5-24";
                                          sd_schedule := "US Day 2" |};
                          "9-6-24" := {| sd_id := 1%N; sd_date := "9-6-24";
                                          sd_schedule := "US Day 3" |} ]};
               next_id := 2%N |} in
  let tr := [LoopTurn; SaveReply 0 None; SaveReply 1 None; SaveSettled; LoopTurn;
             UpdateReply None; LoopTurn; UpdateReply None; LoopTurn; SaveSettled;
             LoopTurn] in
  parseAndUpdateDays_output days c0 tr
  = [ "Parsing and uploading days..." ++ newline;
      String "027" "[2K"; String "027" "[1G";
      "1 / 2 days saved - Working on 9-6-24";
      newline; newline;
      String "027" "[2K"; String "027" "[1G";
      "0 / 2 days saved - Working on 9-6-24 (update)";
      String "027" "[2K"; String "027" "[1G";
      "1 / 2 days saved - Working on 9-5-24 (update)";
      String "027" "[2K"; String "027" "[1G";
      "2 / 2 days saved - Working on 9-5-24";
      String "027" "[2K"; String "027" "[1G";
      "All 2 days saved" ++ newline ].
Proof. vm_compute. reflexivity. Qed.

(** ** Rows that share a date *)

Section SharedKeys.
Context `{M : Model}.
Variable reflects : Fields -> Stored -> Prop.
Hypothesis create_reflects : forall n f, reflects f (fst (create n f)).
Hypothesis update_reflects : forall n f d, reflects f (fst (set_fields n (fallback f) d)).
Variable batch : list Fields.

Lemma saves_In (s : State) (i : nat) (f : Fields) (st : SaveState) :
  List.map fst (saves s) = batch -> saves s !! i = Some (f, st) -> In f batch.
Proof.
  intros <- Hi. apply in_map_iff. exists (f, st). split; [reflexivity|].
  apply list_elem_of_In. eapply list_elem_of_lookup_2; eauto.
Qed.

Lemma step_Settled (ev : Event) (s s' : State) :
  genuine ev -> step ev s = Some s' -> Settled reflects batch s ->
  Settled reflects batch s'.
Proof.
  intros Hgen Hstep [Hb Hsaved Hqueued Hwritten].
  pose proof (step_Transition ev s s' Hstep) as Ht.
  assert (Hb' : List.map fst (saves s') = batch).
  { rewrite <- Hb. now apply Transition_fields. }
  destruct Ht as [i f c' Hi Hins | i f Hi | i f c Hi Hc | Hst Hp | rest e Hst Hp
                 | i f st Hst Hi Hok | i f c Hst Hi | k u c Hst | k u Hst
                 | Hst | i f c Hi Hc Hfin Hst];
    (constructor; [exact Hb'|..]); clear Hb'; cbn [saves promises status writes coll with_status];
    try exact Hsaved; try exact Hwritten.
  - (* inserted *)
    destruct (insertOne_Some f _ _ Hins) as [Hnew Hother].
    intros j g Hj. destruct (insert_lookup_cases _ _ _ _ _ _ Hi Hj) as [[-> Heq] | [Hne Hold]].
    + injection Heq as ->. exists (fst (create (next_id (coll s)) f)), f.
      split; [exact Hnew|]. split; [eapply saves_In; eauto|]. split; [reflexivity|].
      apply create_reflects.
    + destruct (Hsaved j g Hold) as (d & g' & Hd & Hg).
      exists d, g'. split; [|exact Hg]. rewrite Hother; [exact Hd|].
      intros Hk. unfold insertOne in Hins. rewrite <- Hk, Hd in Hins. discriminate.
  - destruct (insertOne_Some f _ _ Hins) as [Hnew Hother].
    intros k u Hq. destruct (Hqueued k u Hq) as [[d Hd] Hg]. split; [|exact Hg].
    destruct (decide (k = key f)) as [-> | Hne]; [eauto|]. rewrite (Hother k Hne). eauto.
  - destruct (insertOne_Some f _ _ Hins) as [Hnew Hother].
    intros k u. rewrite elem_of_app, list_elem_of_singleton. intros [Hw | [=]].
    destruct (Hwritten k u Hw) as (d & g & Hd & Hg). exists d, g. split; [|exact Hg].
    rewrite Hother; [exact Hd|].
    intros ->. unfold insertOne in Hins. rewrite Hd in Hins. discriminate.
  - (* duplicate *)
    intros j g Hj. destruct (insert_lookup_cases _ _ _ _ _ _ Hi Hj) as [[_ [=]] | [_ Hold]].
    now apply (Hsaved j g).
  - intros k u. rewrite elem_of_app, list_elem_of_singleton. intros [[Hq | Hq] | Hq].
    + apply Hqueued. now left.
    + injection Hq as -> ->. split.
      * eapply (duplicate_taken ev s); eauto. cbn [saves].
        apply list_lookup_insert_eq. eapply lookup_lt_Some; eauto.
      * exists f. split; [eapply saves_In; eauto | now split].
    + apply Hqueued. now right.
  - (* failed *)
    intros j g Hj. destruct (insert_lookup_cases _ _ _ _ _ _ Hi Hj) as [[_ [=]] | [_ Hold]].
    now apply (Hsaved j g).
  - exact Hqueued.
  - (* return *)
    intros k u [Hq | Hq]; [|discriminate]. apply Hqueued. now left.
  - (* pop *)
    intros k u Hq. apply Hqueued. left. rewrite Hp, elem_of_app, list_elem_of_singleton.
    destruct Hq as [Hq | [= ->]]; [now left | now right].
  - intros k u [Hq | Hq]; [|discriminate]. apply Hqueued. now left.
  - intros k u [Hq | Hq]; [|discriminate]. apply Hqueued. now left.
  - intros k0 u0 [Hq | Hq]; [|discriminate]. apply Hqueued. now left.
  - (* updated *)
    destruct (Hqueued k u (or_intror Hst)) as [[d0 Hd0] (g0 & Hg0 & -> & ->)].
    intros j g Hj. destruct (Hsaved j g Hj) as (d & g' & Hd & Hg).
    rewrite findOneAndUpdate_lookup.
    destruct (decide (key g = key g0)) as [Hk | Hk]; [|eauto].
    rewrite Hd0. cbn [option_map]. eexists _, g0. split; [reflexivity|].
    split; [exact Hg0|]. split; [congruence | apply update_reflects].
  - destruct (Hqueued k u (or_intror Hst)) as [[d0 Hd0] (g0 & Hg0 & -> & ->)].
    intros k u [Hq | Hq]; [|discriminate].
    destruct (Hqueued k u (or_introl Hq)) as [[d Hd] Hg]. split; [|exact Hg].
    rewrite findOneAndUpdate_lookup.
    destruct (decide (k = key g0)) as [-> | Hne]; [|eauto].
    rewrite Hd0. cbn [option_map]. eauto.
  - destruct (Hqueued k u (or_intror Hst)) as [[d0 Hd0] (g0 & Hg0 & -> & ->)].
    intros k u Hw. rewrite findOneAndUpdate_lookup.
    destruct (decide (k = key g0)) as [-> | Hne].
    + rewrite Hd0. cbn [option_map]. eexists _, g0. split; [reflexivity|].
      split; [exact Hg0|]. split; [reflexivity | apply update_reflects].
    + apply (Hwritten k u). apply elem_of_app in Hw as [Hw | Hw]; [exact Hw|].
      apply list_elem_of_singleton in Hw. congruence.
  - (* not a terminal *)
    intros k u [Hq | Hq]; [|discriminate]. apply Hqueued. now left.
  - (* rejection nobody handles *)
    intros j g Hj. destruct (insert_lookup_cases _ _ _ _ _ _ Hi Hj) as [[_ [=]] | [_ Hold]].
    now apply (Hsaved j g).
  - intros k u [Hq | Hq]; [|discriminate]. apply Hqueued. now left.
Qed.

Lemma run_Settled (c0 : Collection Stored) (tr : list Event) (s : State) :
  Forall genuine tr -> run tr (start batch c0) = Some s -> Settled reflects batch s.
Proof.
  intros Hgen Hrun.
  assert (Hall : forall s0, Settled reflects batch s0 -> run tr s0 = Some s ->
                            Settled reflects batch s).
  { clear Hrun. induction tr as [|ev tr IH]; intros s0 Hs0; simpl.
    - now intros [= <-].
    - inversion Hgen as [|? ? Hev Hgen']; subst.
      destruct (step ev s0) as [s1|] eqn:Hstep; [|discriminate].
      apply IH; [exact Hgen'|]. eapply step_Settled; eauto. }
  apply (Hall (start batch c0)); [|exact Hrun].
  constructor; cbn [start saves promises status writes coll].
  - rewrite List.map_map. apply List.map_id.
  - intros i f Hi. apply start_lookup in Hi as [Hi _]. discriminate.
  - intros k u [Hin | Hst]; [|discriminate].
    apply list_elem_of_In, in_map_iff in Hin as (j & [=] & _).
  - intros k u Hin. now apply elem_of_nil in Hin.
Qed.

Lemma run_some_row (c0 : Collection Stored) (tr : list Event) (s : State) :
  Forall genuine tr -> run tr (start batch c0) = Some s -> status s = Returned ->
  forall f, In f batch ->
    exists d g, docs (coll s) !! key f = Some d
                /\ In g batch /\ key g = key f /\ reflects g d.
Proof.
  intros Hgen Hrun Hret f Hin.
  pose proof (run_Invariant tr _ s (start_Invariant batch c0) Hrun) as Hinv.
  destruct (run_Settled c0 tr s Hgen Hrun) as [Hb Hsaved Hqueued Hwritten].
  rewrite <- Hb in Hin.
  apply in_map_iff in Hin as ([f' st] & Hf & Hin). cbn [fst] in Hf. subst f'.
  apply list_elem_of_In, list_elem_of_lookup_1 in Hin as [i Hi].
  pose proof (inv_returned s Hinv Hret) as Hp.
  destruct (inv_awaited s Hinv i f st Hi) as [Hq | [Hw | [-> | [-> | [_ Hth]]]]].
  - rewrite Hp in Hq. now apply elem_of_nil in Hq.
  - congruence.
  - exact (Hsaved i f Hi).
  - apply Hwritten with (u := fallback f).
    destruct (inv_duplicate s Hinv i f Hi) as [Hq | [Hw | [Hd | [_ Hth]]]].
    + rewrite Hp in Hq. now apply elem_of_nil in Hq.
    + congruence.
    + exact Hd.
    + congruence.
  - congruence.
Qed.
End SharedKeys.

(** X14: when [parseAndUpdateDays] returns, the collection holds under the
    date key of every row kept a day whose schedule is that of a row with
    that key, also when several rows share the key; which of them it is
    depends on the order in which the store answers.  This is for runs where
    the store rejects a save with code 11000 only when the key is taken. *)
Theorem days_sharing_a_date (days : list CSVDay) (c c' : Collection StoredDay)
  (tr : list Event) :
  Forall genuine tr ->
  parseAndUpdateDays days c tr = Some (Returns tt, c') ->
  forall f, In f (dayDocuments days) ->
    exists d g,
      docs c' !! day_date f = Some d
      /\ In g (dayDocuments days) /\ day_date g = day_date f
      /\ sd_schedule d = day_schedule g.
Proof.
  intros Hgen Hrun f Hin. unfold parseAndUpdateDays in Hrun.
  destruct (run _ _) as [s|] eqn:Hs; [|discriminate].
  destruct (status s) eqn:Hst; try discriminate. injection Hrun as <-.
  apply (run_some_row (M := Days) day_stored) with (batch := dayDocuments days)
    (c0 := c) (tr := tr); try assumption.
  - intros n f0. reflexivity.
  - intros n f0 d. reflexivity.
Qed.

(** Two rows of one date: the schedule stored is that of the row whose save
    is answered last. *)
Lemma days_sharing_a_date_example :
  let days := [ {| Event_Date := "09/05/24"; Event_Caption := "US Day 2";
                   Event_Description := "" |};
                {| Event_Date := "9/5/24"; Event_Caption := "US Day 3";
                   Event_Description := "" |} ] in
  let rest := [SaveSettled; LoopTurn; UpdateReply None; LoopTurn; SaveSettled; LoopTurn] in
  exists c1 c2,
    parseAndUpdateDays days empty_collection
      (LoopTurn :: SaveReply 0 None :: SaveReply 1 None :: rest) = Some (Returns tt, c1)
    /\ parseAndUpdateDays days empty_collection
         (LoopTurn :: SaveReply 1 None :: SaveReply 0 None :: rest) = Some (Returns tt, c2)
    /\ option_map sd_schedule (docs c1 !! "9-5-24") = Some "US Day 3"
    /\ option_map sd_schedule (docs c2 !! "9-5-24") = Some "US Day 2".
Proof.
  intros days rest.
  destruct (parseAndUpdateDays days empty_collection
              (LoopTurn :: SaveReply 0 None :: SaveReply 1 None :: rest))
    as [[[[] | ex1] c1]|] eqn:Hrun1; [|vm_compute in Hrun1; discriminate Hrun1..].
  destruct (parseAndUpdateDays days empty_collection
              (LoopTurn :: SaveReply 1 None :: SaveReply 0 None :: rest))
    as [[[[] | ex2] c2]|] eqn:Hrun2; [|vm_compute in Hrun2; discriminate Hrun2..].
  exists c1, c2. split; [reflexivity|]. split; [reflexivity|].
  assert (Hgen1 : Forall genuine (LoopTurn :: SaveReply 0 None :: SaveReply 1 None :: rest))
    by (repeat constructor).
  destruct (days_sharing_a_date days _ c1 _ Hgen1 Hrun1
              {| day_schedule := "US Day 2"; day_date := "9-5-24" |})
    as (d & g & Hd & _); [vm_compute; now left|].
  cbn [day_date] in Hd. rewrite Hd. cbn [option_map].
  split.
  - vm_compute in Hrun1. injection Hrun1 as <-. vm_compute in Hd.
    injection Hd as <-. reflexivity.
  - vm_compute in Hrun2. injection Hrun2 as <-. vm_compute. reflexivity.
Defined.

(** ** The outcome of the drain *)

Section DrainOutcome.
Context `{M : Model}.











(** *** Where the error thrown comes from *)

Lemma run_status (tr : list Event) (s s' : State) :
  run tr s = Some s' -> finished s = true -> status s' = status s.
Proof. intros Hrun Hfin. now destruct (proj2 (run_kept tr s s' Hrun) Hfin). Qed.




(** *** After the end *)

Lemma Transition_frozen (s s' : State) :
  Transition s s' -> finished s = true ->
  forall k d, docs (coll s) !! k = Some d -> docs (coll s') !! k = Some d.
Proof.
  intros Ht Hfin k d Hk.
  destruct Ht as [i f c' Hi Hins | i f Hi | i f c Hi Hc | Hst Hp | rest e Hst Hp
                 | i f st Hst Hi Hok | i f c Hst Hi | k0 u c Hst | k0 u Hst
                 | Hst | i f c Hi Hc Hfin' Hst];
    cbn [coll with_status]; try exact Hk.
  - destruct (insertOne_Some f _ _ Hins) as [_ Hother]. rewrite Hother; [exact Hk|].
    intros ->. unfold insertOne in Hins. rewrite Hk in Hins. discriminate.
  - unfold finished in Hfin. rewrite Hst in Hfin. discriminate.
Qed.

Lemma run_frozen (tr : list Event) (s s' : State) :
  run tr s = Some s' -> finished s = true ->
  forall k d, docs (coll s) !! k = Some d -> docs (coll s') !! k = Some d.
Proof.
  revert s. induction tr as [|ev tr IH]; intros s; simpl.
  - now intros [= <-].
  - destruct (step ev s) as [s1|] eqn:Hstep; [|discriminate]. intros Hrun Hfin k d Hk.
    pose proof (step_Transition ev s s1 Hstep) as Ht.
    apply (IH s1 Hrun).
    + destruct (proj2 (Transition_kept s s1 Ht) Hfin) as [Hst _].
      unfold finished in *. now rewrite Hst.
    + eapply Transition_frozen; eauto.
Qed.

Lemma run_app (tr1 tr2 : list Event) (s : State) :
  run (tr1 ++ tr2) s
  = match run tr1 s with
    | Some s1 => run tr2 s1
    | None => None
    end.
Proof.
  revert s. induction tr1 as [|ev tr1 IH]; intros s; simpl; [reflexivity|].
  destruct (step ev s); [apply IH | reflexivity].
Qed.
End DrainOutcome.



(** C6: a store failure that does not reach the caller, and an error that
    is no store failure.  Two rows, 09/05/24 and 09/06/24.
    - On a terminal, with Node left to its default: the store rejects the
      save of the first row with code 13 while the loop awaits the save of
      the second.  The promise that line 103 rejects has no handler yet:
      the process ends, and whatever follows, the caller gets neither a
      result nor the error.
    - With a standard output that is no terminal: the function throws a
      [TypeError] for every input and every collection, the store having
      failed nowhere.  When the first date is stored already, its save is
      rejected as a duplicate and the update is queued, and never executed:
      whatever follows, the day stored keeps its schedule.  The same
      [TypeError] comes out of [parseAndUpdateSchedules]. *)
Theorem store_failure_not_propagated :
  let days := [ {| Event_Date := "09/05/24"; Event_Caption := "US Day 2";
                   Event_Description := "" |};
                {| Event_Date := "09/06/24"; Event_Caption := "US Day 3";
                   Event_Description := "" |} ] in
  let stored := {| sd_id := 7%N; sd_date := "9-5-24"; sd_schedule := "US Day 1" |} in
  let c0 := {| docs := {[ "9-5-24" := stored ]}; next_id := 8%N |} in
  let row := {| Description := "Block C - US"; End_Time := "2:00 pm";
                Start_Time := "1:00 pm"; Block_Schedule := ""; Day := "US D1" |} in
  (exists s : @State Days,
      run (M := Days) [LoopTurn; UnhandledRejection 0 13]
          (start (M := Days) (dayDocuments days) (@empty_collection StoredDay)) = Some s
      /\ status s = Exited 0 13)
  /\ (forall rest,
        parseAndUpdateDays days empty_collection
          (LoopTurn :: UnhandledRejection 0 13 :: rest) = None)
  /\ (forall rows c, parseAndUpdateDays rows c [NotATerminal] = Some (Throws TypeError, c))
  /\ (exists c',
        parseAndUpdateDays days c0 [NotATerminal; SaveReply 0 None; SaveReply 1 None]
        = Some (Throws TypeError, c')
        /\ docs c' !! "9-5-24" = Some stored
        /\ is_Some (docs c' !! "9-6-24"))
  /\ (forall rest,
        match parseAndUpdateDays days c0 (NotATerminal :: rest) with
        | Some (r, c') => r = Throws TypeError /\ docs c' !! "9-5-24" = Some stored
        | None => True
        end)
  /\ parseAndUpdateSchedules [row] empty_collection [NotATerminal]
     = Some (Throws TypeError, empty_collection).
Proof.
  cbn zeta.
  set (days := [ {| Event_Date := "09/05/24"; Event_Caption := "US Day 2";
                    Event_Description := "" |};
                 {| Event_Date := "09/06/24"; Event_Caption := "US Day 3";
                    Event_Description := "" |} ]).
  set (stored := {| sd_id := 7%N; sd_date := "9-5-24"; sd_schedule := "US Day 1" |}).
  set (c0 := {| docs := {[ "9-5-24" := stored ]}; next_id := 8%N |}).
  destruct (run (M := Days) [LoopTurn; UnhandledRejection 0 13]
              (start (M := Days) (dayDocuments days) (@empty_collection StoredDay)))
    as [s2|] eqn:H2; [|vm_compute in H2; discriminate H2].
  assert (Hexit : status s2 = Exited 0 13).
  { vm_compute in H2. injection H2 as <-. reflexivity. }
  split; [eauto|]. split.
  { intros rest. unfold parseAndUpdateDays.
    change (LoopTurn :: UnhandledRejection 0 13 :: rest)
      with ([LoopTurn; UnhandledRejection 0 13] ++ rest)%list.
    rewrite run_app, H2. destruct (run rest s2) as [s|] eqn:Hrest; [|reflexivity].
    rewrite (run_status rest s2 s Hrest) by (unfold finished; now rewrite Hexit).
    now rewrite Hexit. }
  split; [reflexivity|]. split.
  { destruct (parseAndUpdateDays days c0 [NotATerminal; SaveReply 0 None; SaveReply 1 None])
      as [[r c']|] eqn:Hrun; [|vm_compute in Hrun; discriminate Hrun].
    vm_compute in Hrun. injection Hrun as <- <-. eexists. split; [reflexivity|].
    split; [vm_compute; reflexivity | vm_compute; eauto]. }
  split; [|reflexivity].
  intros rest. unfold parseAndUpdateDays.
  change (NotATerminal :: rest) with ([NotATerminal] ++ rest)%list. rewrite run_app.
  set (s1 := with_status (start (M := Days) (dayDocuments days) c0) TypeErrorThrown).
  change (run (M := Days) [NotATerminal] (start (M := Days) (dayDocuments days) c0))
    with (Some s1).
  destruct (run rest s1) as [s|] eqn:Hrest; [|exact I].
  rewrite (run_status rest s1 s Hrest) by reflexivity.
  cbn [s1 status with_status]. split; [reflexivity|].
  apply (run_frozen rest s1 s Hrest); reflexivity.
Qed.
